(** * go-dmr: the Homebrew IPSC endpoint and the talker-alias codec

    A shallow embedding of [lc/talkeralias.go] and [homebrew/homebrew.go].
    Bytes and the fixed-width unsigned integers of Go are integers in [Z]
    with the wrap-around written out; byte slices are lists; a Go run-time
    panic (index or slice bound out of range) is an outcome of its own,
    next to the [error] a function returns. *)

From Stdlib Require Import ZArith Lia Bool String Ascii.
From stdpp Require Import base option list list_numbers strings gmap fin_maps.

Local Open Scope Z_scope.

(** ** Go values and outcomes *)

(** The errors the two packages build with [errors.New] and [fmt.Errorf],
    and the error of a failed socket write. *)
Inductive error : Type :=
| ErrExpectedLength (expected got : nat)
| ErrFrameType
| ErrPeerNil
| ErrPeerAddrNil
| ErrPeerAuthKeyNil
| ErrNotLinked (id : Z)
| ErrWriteNilPeer
| ErrConn
| ErrCallback.

(** What a call does: it returns a value, returns an error, or panics. *)
Inductive result (A : Type) : Type :=
| Ok (a : A)
| Err (e : error)
| Panic.
Arguments Ok {A} a.
Arguments Err {A} e.
Arguments Panic {A}.

#[global] Instance result_ret : MRet result := fun A a => Ok a.
#[global] Instance result_bind : MBind result := fun A B f m =>
  match m with
  | Ok a => f a
  | Err e => Err e
  | Panic => Panic
  end.

Definition uint8 (x : Z) : Z := x mod 256.
Definition uint16 (x : Z) : Z := x mod 65536.
Definition uint32 (x : Z) : Z := x mod 4294967296.

(** [s[i]] for an [int] index: out of range panics. *)
Definition index {A : Type} (s : list A) (i : Z) : result A :=
  if i <? 0 then Panic
  else match s !! Z.to_nat i with
       | Some x => Ok x
       | None => Panic
       end.

(** [s[i] = x] once [s[i]] is known to be in range. *)
Definition store {A : Type} (s : list A) (i : Z) (x : A) : list A :=
  <[Z.to_nat i := x]> s.

(** [for i := lo; i < hi; i++ { s = body i s }], stopping at a panic. *)
Definition for_range {S : Type} (lo hi : Z) (body : Z → S → result S) (s : S)
  : result S :=
  foldl (fun acc i => acc ≫= body i) (Ok s) (seqZ lo (hi - lo)).

(** The bytes of a string literal, [[]byte("...")]. *)
Fixpoint bytes_of (s : string) : list Z :=
  match s with
  | EmptyString => []
  | String c s' => Z.of_nat (nat_of_ascii c) :: bytes_of s'
  end.

(** [copy(dst[lo:lo+n], src)] for [lo + n <= len(dst)]: the first
    [min n (len src)] bytes of [src] land at offset [lo]. *)
Definition copy_at (dst : list Z) (lo n : nat) (src : list Z) : list Z :=
  let k := Nat.min n (length src) in
  take lo dst ++ take k src ++ drop (lo + k)%nat dst.

(** ** Package lc: talker alias *)

Module TalkerAlias.

(** Modelled from the spec: the bit masks of the external [dmr] module,
    whose names spell their value ([dmr.B00000001] and so on). *)
Definition B00000001 : Z := 1.
Definition B00111110 : Z := 62.
Definition B11000000 : Z := 192.

Definition Format7Bit : Z := 0.
Definition FormatISO8Bit : Z := 1.
Definition FormatUTF8 : Z := 2.
Definition FormatUTF16BE : Z := 3.

Record TalkerAliasHeaderPDU : Type := {
  DataFormat : Z;
  Length : Z;
  Data : list Z
}.

(** [movebit]: the source bit is read, then the destination byte is
    either or-ed with [1 << dstBit] or and-ed with [0 << dstBit]. *)
Definition movebit (src : list Z) (srcByte srcBit : Z)
    (dst : list Z) (dstByte dstBit : Z) : result (list Z) :=
  s ← index src srcByte;
  let bit := Z.land (Z.shiftr s (uint8 srcBit)) B00000001 in
  d ← index dst dstByte;
  if 1 <=? bit
  then Ok (store dst dstByte (Z.lor d (uint8 (Z.shiftl 1 (uint8 dstBit)))))
  else Ok (store dst dstByte (Z.land d (uint8 (Z.shiftl 0 (uint8 dstBit))))).

(** [data[lo:hi]] on a slice whose capacity is its length. *)
Definition subslice (data : list Z) (lo hi : nat) : list Z :=
  take (hi - lo)%nat (drop lo data).

Definition ParseTalkerAliasHeaderPDU (data : list Z)
  : result TalkerAliasHeaderPDU :=
  if negb (length data =? 7)%nat then Err (ErrExpectedLength 7 (length data))
  else
    d0 ← index data 0;
    let dataFormat := Z.shiftr (Z.land d0 B11000000) 6 in
    out ← (if dataFormat =? Format7Bit
           then for_range 7 56 (fun i out =>
                  movebit data (Z.quot i 8) (7 - Z.rem i 8)
                          out (Z.quot (i - 7) 7) (6 - Z.rem i 7))
                  (replicate 7 0)
           else Ok (subslice data 1 6));
    Ok {| DataFormat := dataFormat;
          Length := Z.shiftr (Z.land d0 B00111110) 1;
          Data := out |}.

Definition Bytes (t : TalkerAliasHeaderPDU) : result (list Z) :=
  let bit49 := 0 in
  out ← (if DataFormat t =? Format7Bit
         then for_range 7 56 (fun i out =>
                movebit (Data t) (Z.quot (i - 7) 7) (6 - Z.rem i 7)
                        out (Z.quot i 8 - 1) (7 - Z.rem i 8))
                (replicate 6 0)
         else Ok (Data t));
  o0 ← index out 0;
  o1 ← index out 1;
  o2 ← index out 2;
  o3 ← index out 3;
  o4 ← index out 4;
  o5 ← index out 5;
  Ok [ Z.lor (Z.lor (Z.land (uint8 (Z.shiftl (DataFormat t) 6)) B11000000)
                    (Z.land (uint8 (Z.shiftl (Length t) 1)) B00111110))
             (Z.land bit49 B00000001);
       o0; o1; o2; o3; o4; o5 ].

(** The bit mapping the header parser is documented to perform: input
    bit [i] of the 56-bit stream, for [7 <= i < 56], is bit [6 - i mod 7]
    of output byte [(i - 7) / 7], and the top bit of every output byte is
    clear. *)
Definition bit_mapping (data out : list Z) : Prop :=
  length out = 7%nat ∧
  (∀ i, 7 ≤ i < 56 →
     Z.testbit (out !!! Z.to_nat ((i - 7) / 7)) (6 - i mod 7) =
     Z.testbit (data !!! Z.to_nat (i / 8)) (7 - i mod 8)) ∧
  (∀ k, (k < 7)%nat → Z.testbit (out !!! k) 7 = false).

(** [DataFormatName]: the name of a format; a key the map does not hold
    reads as the empty string. *)
Definition DataFormatName (f : Z) : list Z :=
  if f =? Format7Bit then bytes_of "7 bit"
  else if f =? FormatISO8Bit then bytes_of "ISO 8 bit"
  else if f =? FormatUTF8 then bytes_of "unicode utf-8"
  else if f =? FormatUTF16BE then bytes_of "unicode utf-16be"
  else [].

(** The block PDU: the parser keeps [data[0:6]], and [Bytes] and
    [DataAsString] return what it kept. *)
Module Block.
Record TalkerAliasBlockPDU : Type := { Data : list Z }.

Definition ParseTalkerAliasBlockPDU (data : list Z)
  : result TalkerAliasBlockPDU :=
  if negb (length data =? 7)%nat then Err (ErrExpectedLength 7 (length data))
  else Ok {| Data := subslice data 0 6 |}.

Definition Bytes (t : TalkerAliasBlockPDU) : list Z := Data t.
Definition DataAsString (t : TalkerAliasBlockPDU) : list Z := Data t.
End Block.

End TalkerAlias.

(** ** Package homebrew: what it takes from elsewhere *)

(** Modelled from the spec: the constants of the external [dmr] module
    that the codec and the dispatcher use. Their values are not part of
    this repository; the data-type enumeration is only known to list the
    voice bursts A to F in order. *)
Class DmrModule : Type := {
  VoiceBurstA : Z;
  VoiceBurstB : Z;
  VoiceBurstC : Z;
  VoiceBurstD : Z;
  VoiceBurstE : Z;
  VoiceBurstF : Z;
  CallTypeGroup : Z;
  CallTypePrivate : Z;
  dmr_SoftwareID : list Z;
  dmr_PackageID : list Z
}.

(** Burst A to F ordering, within [uint8]. *)
Definition burst_order `{!DmrModule} : Prop :=
  0 ≤ VoiceBurstA ∧ VoiceBurstF ≤ 255 ∧
  VoiceBurstB = VoiceBurstA + 1 ∧ VoiceBurstC = VoiceBurstA + 2 ∧
  VoiceBurstD = VoiceBurstA + 3 ∧ VoiceBurstE = VoiceBurstA + 4 ∧
  VoiceBurstF = VoiceBurstA + 5.

(** A [float32] is its IEEE 754 bit pattern. *)
Definition float32 : Type := Z.

(** The functions of the Go library that the package calls and that are
    not integer or byte arithmetic: [fmt.Sprintf("%f", x)] on a
    [float32], [float32(v)] for [v, _ := strconv.ParseFloat(s, 64)], and
    [bytes.EqualFold]. *)
Class GoLib : Type := {
  Sprintf_f : float32 → list Z;
  ParseFloat32 : list Z → float32;
  EqualFold : list Z → list Z → bool
}.

(** Modelled from the spec: the two methods of the peer object, declared
    outside the listed files. [UpdateToken] derives the challenge token
    from the auth key and the nonce; [CheckRepeaterID] compares an id
    received on the wire with the peer's. *)
Class PeerMethods : Type := {
  token_of : list Z → list Z → list Z;
  check_id : Z → list Z → bool
}.

(** ** Package homebrew: the wire codec *)

Definition DMRData : list Z := bytes_of "DMRD".
Definition MasterNAK : list Z := bytes_of "MSTNAK".
Definition MasterACK : list Z := bytes_of "MSTACK".
Definition RepeaterACK : list Z := bytes_of "RPTACK".
Definition RepeaterLogin : list Z := bytes_of "RPTL".
Definition RepeaterKey : list Z := bytes_of "RPTK".
Definition RepeaterConfig : list Z := bytes_of "RPTC".
Definition MasterPing : list Z := bytes_of "MSTPING".
Definition MasterPong : list Z := bytes_of "MSTPONG".
Definition RepeaterPing : list Z := bytes_of "RPTPING".
Definition RepeaterPong : list Z := bytes_of "RPTPONG".
Definition MasterClosing : list Z := bytes_of "MSTCL".
Definition RepeaterClosing : list Z := bytes_of "RPTCL".

(** [bytes.Equal] *)
Definition bytes_Equal (a b : list Z) : bool := bool_decide (a = b).

Definition packRepeaterID (id : Z) : list Z :=
  [ uint8 (Z.shiftr id 24); uint8 (Z.shiftr id 16);
    uint8 (Z.shiftr id 8); uint8 id ].

Definition unpackRepeaterID (data : list Z) : result Z :=
  d0 ← index data 0;
  d1 ← index data 1;
  d2 ← index data 2;
  d3 ← index data 3;
  Ok (Z.lor (Z.lor (Z.lor (Z.shiftl d0 24) (Z.shiftl d1 16)) (Z.shiftl d2 8)) d3).

(** Modelled from the spec: [dmr.Packet], declared in the external module,
    with the fields of the data model. [SetData] stores the payload. *)
Module Packet.
Record t : Type := {
  Sequence : Z;
  SrcID : Z;
  DstID : Z;
  RepeaterID : Z;
  Timeslot : Z;
  CallType : Z;
  StreamID : Z;
  DataType : Z;
  BER : Z;
  RSSI : Z;
  Data : list Z
}.
Definition SetData (p : t) (data : list Z) : t :=
  {| Sequence := Sequence p; SrcID := SrcID p; DstID := DstID p;
     RepeaterID := RepeaterID p; Timeslot := Timeslot p;
     CallType := CallType p; StreamID := StreamID p;
     DataType := DataType p; BER := BER p; RSSI := RSSI p; Data := data |}.
End Packet.

(** [data[i]] below the length already checked. *)
Definition at_ (data : list Z) (i : nat) : Z := data !!! i.

Definition buildData `{!DmrModule} (p : Packet.t) (repeaterID : Z) : list Z :=
  let data := replicate 55 0 in
  let data := copy_at data 0 4 DMRData in
  let data := store data 4 (Packet.Sequence p) in
  let data := store data 5 (uint8 (Z.shiftr (Packet.SrcID p) 16)) in
  let data := store data 6 (uint8 (Z.shiftr (Packet.SrcID p) 8)) in
  let data := store data 7 (uint8 (Packet.SrcID p)) in
  let data := store data 8 (uint8 (Z.shiftr (Packet.DstID p) 16)) in
  let data := store data 9 (uint8 (Z.shiftr (Packet.DstID p) 8)) in
  let data := store data 10 (uint8 (Packet.DstID p)) in
  let data := store data 11 (uint8 (Z.shiftr repeaterID 24)) in
  let data := store data 12 (uint8 (Z.shiftr repeaterID 16)) in
  let data := store data 13 (uint8 (Z.shiftr repeaterID 8)) in
  let data := store data 14 (uint8 repeaterID) in
  let data := store data 15
    (Z.lor (uint8 (Z.shiftl (Z.land (Packet.Timeslot p) 1) 7))
           (uint8 (Z.shiftl (Z.land (Packet.CallType p) 1) 6))) in
  let data := store data 16 (uint8 (Z.shiftr (Packet.StreamID p) 24)) in
  let data := store data 17 (uint8 (Z.shiftr (Packet.StreamID p) 16)) in
  let data := store data 18 (uint8 (Z.shiftr (Packet.StreamID p) 8)) in
  let data := store data 19 (uint8 (Packet.StreamID p)) in
  let data := copy_at data 20 33 (Packet.Data p) in
  let data := store data 53 (uint8 (Packet.BER p)) in
  let data := store data 54 (uint8 (Packet.RSSI p)) in
  let dt := Packet.DataType p in
  if (dt =? VoiceBurstB) || (dt =? VoiceBurstC) || (dt =? VoiceBurstD)
     || (dt =? VoiceBurstE) || (dt =? VoiceBurstF)
  then
    let data := store data 15 (Z.lor (at_ data 15) (uint8 (Z.shiftl 0 4))) in
    store data 15 (Z.lor (at_ data 15) (uint8 (dt - VoiceBurstA)))
  else if dt =? VoiceBurstA
  then store data 15 (Z.lor (at_ data 15) (uint8 (Z.shiftl 1 4)))
  else
    let data := store data 15 (Z.lor (at_ data 15) (uint8 (Z.shiftl 2 4))) in
    store data 15 (Z.lor (at_ data 15) dt).

Definition parseData `{!DmrModule} (data : list Z) : result Packet.t :=
  if negb (length data =? 55)%nat then Err (ErrExpectedLength 55 (length data))
  else
    let kind := Z.land (Z.shiftr (at_ data 15) 4) 3 in
    dataType ←
      (if (kind =? 0) || (kind =? 1)
       then Ok (uint8 (VoiceBurstA + Z.land (at_ data 15) 15))
       else if kind =? 2
       then Ok (Z.land (at_ data 15) 15)
       else Err ErrFrameType);
    let p :=
      {| Packet.Sequence := at_ data 4;
         Packet.SrcID :=
           Z.lor (Z.lor (Z.shiftl (at_ data 5) 16) (Z.shiftl (at_ data 6) 8))
                 (at_ data 7);
         Packet.DstID :=
           Z.lor (Z.lor (Z.shiftl (at_ data 8) 16) (Z.shiftl (at_ data 9) 8))
                 (at_ data 10);
         Packet.RepeaterID :=
           Z.lor (Z.lor (Z.lor (Z.shiftl (at_ data 11) 24)
                               (Z.shiftl (at_ data 12) 16))
                        (Z.shiftl (at_ data 13) 8))
                 (at_ data 14);
         Packet.Timeslot := Z.land (Z.shiftr (at_ data 15) 7) 1;
         Packet.CallType := Z.land (Z.shiftr (at_ data 15) 6) 1;
         Packet.StreamID :=
           Z.lor (Z.lor (Z.lor (Z.shiftl (at_ data 16) 24)
                               (Z.shiftl (at_ data 17) 16))
                        (Z.shiftl (at_ data 18) 8))
                 (at_ data 19);
         Packet.DataType := dataType;
         Packet.BER := at_ data 53;
         Packet.RSSI := at_ data 54;
         Packet.Data := [] |} in
    let pData := copy_at (replicate 33 0) 0 33 (take 33 (drop 20 data)) in
    Ok (Packet.SetData p pData).

(** ** Package homebrew: the configuration record *)

(** Decimal digits of a non-negative integer, most significant first. *)
Fixpoint dec_digits (fuel : nat) (n : Z) (acc : list Z) : list Z :=
  match fuel with
  | O => acc
  | S fuel' =>
      let acc' := (48 + n mod 10) :: acc in
      if n / 10 =? 0 then acc' else dec_digits fuel' (n / 10) acc'
  end.

Definition itoa (n : Z) : list Z := dec_digits (S (Z.to_nat (Z.log2 n))) n [].

(** [fmt.Sprintf("%0wd", n)] for an unsigned [n]. *)
Definition Sprintf_0d (w : nat) (n : Z) : list Z :=
  let s := itoa n in replicate (w - length s) 48 ++ s.

(** [fmt.Sprintf("%-ws", s)]: spaces on the right up to the width. The
    width counts characters, which are single bytes in these ASCII
    records; the field the result is copied into is [w] bytes wide. *)
Definition Sprintf_ls (w : nat) (s : list Z) : list Z :=
  s ++ replicate (w - length s) 32.

(** [fmt.Sprintf("%-0wf", x)]: with the minus flag the zero flag is void,
    and the padding is spaces on the right. *)
Definition Sprintf_lf `{!GoLib} (w : nat) (x : float32) : list Z :=
  Sprintf_ls w (Sprintf_f x).

(** [strconv.ParseUint(s, 10, bitSize)], value and whether it failed: a
    syntax error gives 0, a range error the largest value of the size. *)
Fixpoint ParseUint_loop (maxVal n : Z) (s : list Z) : Z * bool :=
  match s with
  | [] => (n, false)
  | c :: s' =>
      if (48 <=? c) && (c <=? 57) then
        if 18446744073709551615 / 10 + 1 <=? n then (maxVal, true)
        else
          let n10 := n * 10 in
          let n1 := (n10 + (c - 48)) mod 18446744073709551616 in
          if (n1 <? n10) || (maxVal <? n1) then (maxVal, true)
          else ParseUint_loop maxVal n1 s'
      else (0, true)
  end.

Definition ParseUint (s : list Z) (bitSize : Z) : Z * bool :=
  match s with
  | [] => (0, true)
  | _ => ParseUint_loop (Z.shiftl 1 bitSize - 1) 0 s
  end.

(** [strings.Trim(s, " ")] *)
Fixpoint TrimLeft (s : list Z) : list Z :=
  match s with
  | c :: s' => if c =? 32 then TrimLeft s' else s
  | [] => []
  end.

Definition Trim (s : list Z) : list Z := rev (TrimLeft (rev (TrimLeft s))).

(** Modelled from the spec: the configuration type is declared outside
    the listed files; its fields are those the codec reads and writes.
    Strings are their bytes. *)
Module RepeaterConfiguration.
Record t : Type := {
  ID : Z;
  Callsign : list Z;
  RXFreq : Z;
  TXFreq : Z;
  TXPower : Z;
  ColorCode : Z;
  Latitude : float32;
  Longitude : float32;
  Height : Z;
  Location : list Z;
  Description : list Z;
  Slots : Z;
  URL : list Z;
  SoftwareID : list Z;
  PackageID : list Z
}.
End RepeaterConfiguration.

Import RepeaterConfiguration.

(** The assignments [buildConfigData] makes to its argument before it
    encodes it. *)
Definition clamp `{!DmrModule} (c : RepeaterConfiguration.t)
  : RepeaterConfiguration.t :=
  let cc := ColorCode c in
  let cc := if cc <? 1 then 1 else cc in
  let cc := if 15 <? cc then 15 else cc in
  {| ID := ID c; Callsign := Callsign c; RXFreq := RXFreq c;
     TXFreq := TXFreq c;
     TXPower := if 99 <? TXPower c then 99 else TXPower c;
     ColorCode := cc;
     Latitude := Latitude c; Longitude := Longitude c; Height := Height c;
     Location := Location c; Description := Description c;
     Slots := if 4 <? Slots c then 4 else Slots c;
     URL := URL c;
     SoftwareID :=
       if bool_decide (SoftwareID c = []) then dmr_SoftwareID
       else SoftwareID c;
     PackageID :=
       if bool_decide (PackageID c = []) then dmr_PackageID
       else PackageID c |}.

(** [buildConfigData] takes a pointer: it returns the bytes and leaves
    the pointed-to configuration as [clamp] made it. *)
Definition buildConfigData `{!DmrModule, !GoLib} (c : RepeaterConfiguration.t)
  : RepeaterConfiguration.t * list Z :=
  let data := replicate 302 0 in
  let c := clamp c in
  let lat := Sprintf_lf 8 (Latitude c) in
  let lat := if (8 <? length lat)%nat then take 8 lat else lat in
  let lon := Sprintf_lf 9 (Longitude c) in
  let lon := if (9 <? length lon)%nat then take 9 lon else lon in
  let data := copy_at data 0 4 RepeaterConfig in
  let data := store data 4 (uint8 (Z.shiftr (ID c) 24)) in
  let data := store data 5 (uint8 (Z.shiftr (ID c) 16)) in
  let data := store data 6 (uint8 (Z.shiftr (ID c) 8)) in
  let data := store data 7 (uint8 (ID c)) in
  let data := copy_at data 8 8 (Sprintf_ls 8 (Callsign c)) in
  let data := copy_at data 16 9 (Sprintf_0d 9 (RXFreq c)) in
  let data := copy_at data 25 9 (Sprintf_0d 9 (TXFreq c)) in
  let data := copy_at data 34 2 (Sprintf_0d 2 (TXPower c)) in
  let data := copy_at data 36 2 (Sprintf_0d 2 (ColorCode c)) in
  let data := copy_at data 38 8 lat in
  let data := copy_at data 46 9 lon in
  let data := copy_at data 55 3 (Sprintf_0d 3 (Height c)) in
  let data := copy_at data 58 20 (Sprintf_ls 20 (Location c)) in
  let data := copy_at data 78 19 (Sprintf_ls 19 (Description c)) in
  let data := copy_at data 97 1 (Sprintf_0d 1 (Slots c)) in
  let data := copy_at data 98 124 (Sprintf_ls 124 (URL c)) in
  let data := copy_at data 222 40 (Sprintf_ls 40 (SoftwareID c)) in
  let data := copy_at data 262 40 (Sprintf_ls 40 (PackageID c)) in
  (c, data).

(** [config[lo:lo+n]] of the 302-byte copy. *)
Definition field (config : list Z) (lo n : nat) : list Z :=
  take n (drop lo config).

Definition parseConfigData `{!GoLib} (data : list Z)
  : result RepeaterConfiguration.t :=
  if negb (length data =? 302)%nat
  then Err (ErrExpectedLength 302 (length data))
  else
    let config := copy_at (replicate 302 0) 0 302 data in
    let height := (ParseUint (field config 55 3) 32).1 in
    let rx := (ParseUint (field config 16 9) 32).1 in
    let tx := (ParseUint (field config 25 9) 32).1 in
    let power := (ParseUint (field config 34 2) 8).1 in
    let color := (ParseUint (field config 36 2) 8).1 in
    let lat := ParseFloat32 (field config 38 8) in
    let lon := ParseFloat32 (field config 46 9) in
    let slots := (ParseUint (field config 97 1) 8).1 in
    Ok {| ID := Z.lor (Z.lor (Z.lor (Z.shiftl (at_ config 4) 24)
                                   (Z.shiftl (at_ config 5) 16))
                            (Z.shiftl (at_ config 6) 8))
                     (at_ config 7);
          Callsign := Trim (field config 8 8);
          RXFreq := uint32 rx;
          TXFreq := uint32 tx;
          TXPower := uint8 power;
          ColorCode := uint8 color;
          Latitude := lat;
          Longitude := lon;
          Height := uint16 height;
          Location := Trim (field config 58 20);
          Description := Trim (field config 78 19);
          Slots := uint8 slots;
          URL := Trim (field config 98 124);
          SoftwareID := Trim (field config 222 40);
          PackageID := Trim (field config 262 40) |}.

(** ** Package homebrew: peers and the endpoint *)

Inductive AuthStatus : Type := AuthNone | AuthBegin | AuthDone | AuthFailed.

#[global] Instance AuthStatus_eq_dec : EqDecision AuthStatus.
Proof. solve_decision. Defined.

(** A [time.Time]; the zero value [time.Time{}] is 0. *)
Definition Time : Type := Z.
Definition time_zero : Time := 0.

(** A [*net.UDPAddr] is known by its [String()], the key of the address
    index; [nil] is [None]. *)
Abbreviation UDPAddr := string.

Definition Addr_String (a : option UDPAddr) : string :=
  match a with
  | Some s => s
  | None => "<nil>"
  end.

(** A packet callback of the host program, [func(Repeater, *Packet) error],
    known by the error it returns. *)
Definition PacketFunc : Type := Packet.t → option error.

Module Last.
Record t : Type := {
  PacketSent : Time;
  PacketReceived : Time;
  PingSent : Time;
  PingReceived : Time;
  PongReceived : Time;
  AuthSent : Time;
  TGSubscribed : Time
}.
Definition set_PacketSent (x : Time) (l : t) : t :=
  {| PacketSent := x; PacketReceived := PacketReceived l;
     PingSent := PingSent l; PingReceived := PingReceived l;
     PongReceived := PongReceived l; AuthSent := AuthSent l;
     TGSubscribed := TGSubscribed l |}.
Definition set_PacketReceived (x : Time) (l : t) : t :=
  {| PacketSent := PacketSent l; PacketReceived := x;
     PingSent := PingSent l; PingReceived := PingReceived l;
     PongReceived := PongReceived l; AuthSent := AuthSent l;
     TGSubscribed := TGSubscribed l |}.
Definition set_PingSent (x : Time) (l : t) : t :=
  {| PacketSent := PacketSent l; PacketReceived := PacketReceived l;
     PingSent := x; PingReceived := PingReceived l;
     PongReceived := PongReceived l; AuthSent := AuthSent l;
     TGSubscribed := TGSubscribed l |}.
Definition set_PingReceived (x : Time) (l : t) : t :=
  {| PacketSent := PacketSent l; PacketReceived := PacketReceived l;
     PingSent := PingSent l; PingReceived := x;
     PongReceived := PongReceived l; AuthSent := AuthSent l;
     TGSubscribed := TGSubscribed l |}.
Definition set_PongReceived (x : Time) (l : t) : t :=
  {| PacketSent := PacketSent l; PacketReceived := PacketReceived l;
     PingSent := PingSent l; PingReceived := PingReceived l;
     PongReceived := x; AuthSent := AuthSent l;
     TGSubscribed := TGSubscribed l |}.
Definition set_AuthSent (x : Time) (l : t) : t :=
  {| PacketSent := PacketSent l; PacketReceived := PacketReceived l;
     PingSent := PingSent l; PingReceived := PingReceived l;
     PongReceived := PongReceived l; AuthSent := x;
     TGSubscribed := TGSubscribed l |}.
Definition set_TGSubscribed (x : Time) (l : t) : t :=
  {| PacketSent := PacketSent l; PacketReceived := PacketReceived l;
     PingSent := PingSent l; PingReceived := PingReceived l;
     PongReceived := PongReceived l; AuthSent := AuthSent l;
     TGSubscribed := x |}.
End Last.

(** Modelled from the spec: the peer type is declared outside the listed
    files; its fields are those of the data model, which are also the
    ones the endpoint reads and writes. *)
Module Peer.
Record t : Type := {
  ID : Z;
  Addr : option UDPAddr;
  Config : option RepeaterConfiguration.t;
  AuthKey : list Z;
  Incoming : bool;
  Status : AuthStatus;
  TGID : Z;
  id : list Z;
  Token : list Z;
  Last : Last.t;
  UnlinkOnAuthFailure : bool;
  PacketReceived : option PacketFunc
}.
Definition set_Config (x : option RepeaterConfiguration.t) (p : t) : t :=
  {| ID := ID p; Addr := Addr p; Config := x; AuthKey := AuthKey p;
     Incoming := Incoming p; Status := Status p; TGID := TGID p;
     id := id p; Token := Token p; Last := Last p;
     UnlinkOnAuthFailure := UnlinkOnAuthFailure p;
     PacketReceived := PacketReceived p |}.
Definition set_Status (x : AuthStatus) (p : t) : t :=
  {| ID := ID p; Addr := Addr p; Config := Config p; AuthKey := AuthKey p;
     Incoming := Incoming p; Status := x; TGID := TGID p;
     id := id p; Token := Token p; Last := Last p;
     UnlinkOnAuthFailure := UnlinkOnAuthFailure p;
     PacketReceived := PacketReceived p |}.
Definition set_TGID (x : Z) (p : t) : t :=
  {| ID := ID p; Addr := Addr p; Config := Config p; AuthKey := AuthKey p;
     Incoming := Incoming p; Status := Status p; TGID := x;
     id := id p; Token := Token p; Last := Last p;
     UnlinkOnAuthFailure := UnlinkOnAuthFailure p;
     PacketReceived := PacketReceived p |}.
Definition set_id (x : list Z) (p : t) : t :=
  {| ID := ID p; Addr := Addr p; Config := Config p; AuthKey := AuthKey p;
     Incoming := Incoming p; Status := Status p; TGID := TGID p;
     id := x; Token := Token p; Last := Last p;
     UnlinkOnAuthFailure := UnlinkOnAuthFailure p;
     PacketReceived := PacketReceived p |}.
Definition set_Token (x : list Z) (p : t) : t :=
  {| ID := ID p; Addr := Addr p; Config := Config p; AuthKey := AuthKey p;
     Incoming := Incoming p; Status := Status p; TGID := TGID p;
     id := id p; Token := x; Last := Last p;
     UnlinkOnAuthFailure := UnlinkOnAuthFailure p;
     PacketReceived := PacketReceived p |}.
Definition upd_Last (f : Last.t → Last.t) (p : t) : t :=
  {| ID := ID p; Addr := Addr p; Config := Config p; AuthKey := AuthKey p;
     Incoming := Incoming p; Status := Status p; TGID := TGID p;
     id := id p; Token := Token p; Last := f (Last p);
     UnlinkOnAuthFailure := UnlinkOnAuthFailure p;
     PacketReceived := PacketReceived p |}.

(** Modelled from the spec: [UpdateToken(nonce)] stores the token derived
    from the auth key and the nonce. *)
Definition UpdateToken `{!PeerMethods} (nonce : list Z) (p : t) : t :=
  set_Token (token_of (AuthKey p) nonce) p.

(** Modelled from the spec: [CheckRepeaterID(bytes)] answers whether the
    bytes name this peer. *)
Definition CheckRepeaterID `{!PeerMethods} (p : t) (id : list Z) : bool :=
  check_id (ID p) id.
End Peer.

(** The [Homebrew] struct: the configuration it points to, the two
    indexes, the packet callback, the packed id and the time of the last
    frame. The indexes hold pointers to peer objects. *)
Module Homebrew.
Record t : Type := {
  Config : RepeaterConfiguration.t;
  Peer : gmap string nat;
  PeerID : gmap Z nat;
  pf : option PacketFunc;
  id : list Z;
  last : Time
}.
End Homebrew.

(** The endpoint with what it shares with the rest of the program: the
    peer objects, addressed by pointer, and the datagrams handed to the
    socket, most recent last. *)
Record World : Type := {
  h : Homebrew.t;
  heap : list Peer.t;
  wire : list (list Z * option UDPAddr)
}.

(** What a call finds outside the program: the clock, the random source
    (four bytes, or a failure) and the socket's verdict on a write. *)
Record Env : Type := {
  now : Time;
  rand_Read : option (Z * Z * Z * Z);
  WriteTo_fails : list Z → option UDPAddr → bool
}.

(** A received datagram [data[:n]] of a larger buffer: the [n] bytes
    read, and the bytes of the buffer behind them, which a slice
    expression reaches up to the capacity. *)
Record datagram : Type := {
  elts : list Z;
  spare : list Z
}.

Definition len (d : datagram) : nat := length (elts d).
Definition cap (d : datagram) : nat := (length (elts d) + length (spare d))%nat.

(** [data[:hi]] *)
Definition slice_to (d : datagram) (hi : nat) : result (list Z) :=
  if (hi <=? cap d)%nat then Ok (take hi (elts d ++ spare d)) else Panic.

(** [data[lo:]] *)
Definition slice_from (d : datagram) (lo : nat) : result (list Z) :=
  if (lo <=? len d)%nat then Ok (drop lo (elts d)) else Panic.

(** [data[lo:hi]] *)
Definition slice (d : datagram) (lo hi : nat) : result (list Z) :=
  if (lo <=? hi)%nat && (hi <=? cap d)%nat
  then Ok (take (hi - lo) (drop lo (elts d ++ spare d)))
  else Panic.

(** ** Package homebrew: the endpoint's methods *)

(** A method runs on the world and either panics ([None]) or returns a
    value and the world it leaves. *)
Definition M (A : Type) : Type := World → option (A * World).

#[global] Instance M_ret : MRet M := fun A a w => Some (a, w).
#[global] Instance M_bind : MBind M := fun A B f m w =>
  match m w with
  | Some (a, w') => f a w'
  | None => None
  end.

Definition panic {A : Type} : M A := fun _ => None.

(** A slice or index expression inside a method: its value, or the panic. *)
Definition eval {A : Type} (r : result A) : M A :=
  match r with
  | Ok a => mret a
  | _ => panic
  end.

Definition get : M World := fun w => Some (w, w).

(** [*peer] *)
Definition deref (ptr : nat) : M Peer.t := fun w =>
  match heap w !! ptr with
  | Some o => Some (o, w)
  | None => None
  end.

(** The world after an assignment through a pointer, after an assignment
    to a field of the endpoint, after an allocation and after a write to
    the socket. *)
Definition upd (ptr : nat) (f : Peer.t → Peer.t) (w : World) : World :=
  {| h := h w; heap := alter f ptr (heap w); wire := wire w |}.
Definition upd_h (f : Homebrew.t → Homebrew.t) (w : World) : World :=
  {| h := f (h w); heap := heap w; wire := wire w |}.
Definition push_heap (o : Peer.t) (w : World) : World :=
  {| h := h w; heap := heap w ++ [o]; wire := wire w |}.
Definition push_wire (b : list Z) (a : option UDPAddr) (w : World) : World :=
  {| h := h w; heap := heap w; wire := wire w ++ [(b, a)] |}.

(** An assignment through the pointer. *)
Definition modify (ptr : nat) (f : Peer.t → Peer.t) : M unit := fun w =>
  match heap w !! ptr with
  | Some _ => Some ((), upd ptr f w)
  | None => None
  end.

(** [&Peer{...}] *)
Definition alloc (o : Peer.t) : M nat := fun w =>
  Some (length (heap w), push_heap o w).

Definition modify_h (f : Homebrew.t → Homebrew.t) : M unit := fun w =>
  Some ((), upd_h f w).

Definition conn_WriteTo (env : Env) (b : list Z) (a : option UDPAddr)
  : M (option error) := fun w =>
  Some (if WriteTo_fails env b a then Some ErrConn else None,
        push_wire b a w).

Definition set_Peer (x : gmap string nat) (hb : Homebrew.t) : Homebrew.t :=
  {| Homebrew.Config := Homebrew.Config hb; Homebrew.Peer := x;
     Homebrew.PeerID := Homebrew.PeerID hb; Homebrew.pf := Homebrew.pf hb;
     Homebrew.id := Homebrew.id hb; Homebrew.last := Homebrew.last hb |}.
Definition set_PeerID (x : gmap Z nat) (hb : Homebrew.t) : Homebrew.t :=
  {| Homebrew.Config := Homebrew.Config hb; Homebrew.Peer := Homebrew.Peer hb;
     Homebrew.PeerID := x; Homebrew.pf := Homebrew.pf hb;
     Homebrew.id := Homebrew.id hb; Homebrew.last := Homebrew.last hb |}.
Definition set_HConfig (x : RepeaterConfiguration.t) (hb : Homebrew.t)
  : Homebrew.t :=
  {| Homebrew.Config := x; Homebrew.Peer := Homebrew.Peer hb;
     Homebrew.PeerID := Homebrew.PeerID hb; Homebrew.pf := Homebrew.pf hb;
     Homebrew.id := Homebrew.id hb; Homebrew.last := Homebrew.last hb |}.
Definition set_last (x : Time) (hb : Homebrew.t) : Homebrew.t :=
  {| Homebrew.Config := Homebrew.Config hb; Homebrew.Peer := Homebrew.Peer hb;
     Homebrew.PeerID := Homebrew.PeerID hb; Homebrew.pf := Homebrew.pf hb;
     Homebrew.id := Homebrew.id hb; Homebrew.last := x |}.

(** [New]: the endpoint over a configuration, with empty indexes. *)
Definition New (config : RepeaterConfiguration.t) : Homebrew.t :=
  {| Homebrew.Config := config; Homebrew.Peer := ∅; Homebrew.PeerID := ∅;
     Homebrew.pf := None; Homebrew.id := packRepeaterID (ID config);
     Homebrew.last := time_zero |}.

Definition WriteToPeer (env : Env) (b : list Z) (peer : option nat)
  : M (option error) :=
  match peer with
  | None => mret (Some ErrWriteNilPeer)
  | Some ptr =>
      modify ptr (Peer.upd_Last (Last.set_PacketSent (now env)));;
      o ← deref ptr;
      conn_WriteTo env b (Peer.Addr o)
  end.

(** [checkRepeaterID]; the slices it is called on are never nil. *)
Definition checkRepeaterID `{!GoLib} (hb : Homebrew.t) (id : list Z) : bool :=
  EqualFold id (Homebrew.id hb).

Definition getPeer (id : Z) : M (option nat) :=
  w ← get; mret (Homebrew.PeerID (h w) !! id).

Definition getPeerByAddr (addr : UDPAddr) : M (option nat) :=
  w ← get; mret (Homebrew.Peer (h w) !! addr).

(** [getPeers]: the peers of the address index, in the order the map
    yields them. *)
Definition getPeers : M (list nat) :=
  w ← get; mret ((map_to_list (Homebrew.Peer (h w))).*2).

Definition handleAuth (env : Env) (ptr : nat) : M (option error) :=
  peer ← deref ptr;
  if negb (Peer.Incoming peer) then
    modify ptr (Peer.upd_Last (Last.set_PacketReceived (now env)));;
    w ← get;
    match Peer.Status peer with
    | AuthNone =>
        modify ptr (Peer.upd_Last (Last.set_AuthSent (now env)));;
        WriteToPeer env (RepeaterLogin ++ Homebrew.id (h w)) (Some ptr)
    | AuthBegin =>
        WriteToPeer env
          ((RepeaterKey ++ Homebrew.id (h w)) ++ Peer.Token peer) (Some ptr)
    | _ => mret None
    end
  else mret None.

Definition Link (env : Env) (peer : option nat) : M (option error) :=
  match peer with
  | None => mret (Some ErrPeerNil)
  | Some ptr =>
      o ← deref ptr;
      match Peer.Addr o with
      | None => mret (Some ErrPeerAddrNil)
      | Some addr =>
          if (length (Peer.AuthKey o) =? 0)%nat
          then mret (Some ErrPeerAuthKeyNil)
          else
            modify ptr (Peer.upd_Last (Last.set_PacketSent time_zero));;
            modify ptr (Peer.upd_Last (Last.set_PacketReceived time_zero));;
            modify ptr (Peer.upd_Last (Last.set_PingSent time_zero));;
            modify ptr (Peer.upd_Last (Last.set_PongReceived time_zero));;
            modify ptr (Peer.set_id (packRepeaterID (Peer.ID o)));;
            modify_h (fun hb =>
              set_Peer (<[addr := ptr]> (Homebrew.Peer hb)) hb);;
            modify_h (fun hb =>
              set_PeerID (<[Peer.ID o := ptr]> (Homebrew.PeerID hb)) hb);;
            if Peer.Incoming o then mret None
            else handleAuth env ptr
      end
  end.

Definition Unlink (id : Z) : M (option error) :=
  w ← get;
  match Homebrew.PeerID (h w) !! id with
  | None => mret (Some (ErrNotLinked id))
  | Some ptr =>
      peer ← deref ptr;
      modify_h (fun hb =>
        set_Peer (delete (Addr_String (Peer.Addr peer)) (Homebrew.Peer hb)) hb);;
      modify_h (fun hb =>
        set_PeerID (delete id (Homebrew.PeerID hb)) hb);;
      mret None
  end.

(** The loop of [SendTG] over the peers [getPeers] returned. *)
Fixpoint SendTG_loop (env : Env) (data : list Z) (dst : Z) (peer : nat)
    (peers : list nat) : M (option error) :=
  match peers with
  | [] => mret None
  | toPtr :: rest =>
      toPeer ← deref toPtr;
      origin ← deref peer;
      if Peer.ID toPeer =? Peer.ID origin
      then SendTG_loop env data dst peer rest
      else if Peer.TGID toPeer =? dst
      then
        err ← WriteToPeer env data (Some toPtr);
        match err with
        | Some e => mret (Some e)
        | None => SendTG_loop env data dst peer rest
        end
      else SendTG_loop env data dst peer rest
  end.

Definition SendTG `{!DmrModule} (env : Env) (p : Packet.t) (peer : nat)
  : M (option error) :=
  w ← get;
  let data := buildData p (ID (Homebrew.Config (h w))) in
  peers ← getPeers;
  SendTG_loop env data (Packet.DstID p) peer peers.

Definition handlePacket `{!DmrModule} (env : Env) (p : Packet.t) (ptr : nat)
  : M (option error) :=
  modify_h (set_last (now env));;
  peer ← deref ptr;
  match Peer.PacketReceived peer with
  | Some f => mret (f p)
  | None =>
      w ← get;
      match Homebrew.pf (h w) with
      | None =>
          if Packet.CallType p =? CallTypeGroup then
            modify ptr (Peer.set_TGID (Packet.DstID p));;
            modify ptr (Peer.upd_Last (Last.set_TGSubscribed (now env)));;
            SendTG env p ptr
          else mret None
      | Some f => mret (f p)
      end
  end.

(** A [case bytes.Equal(data[:n], verb):] of a switch, with the cases
    below it. *)
Definition case_verb {A : Type} (data : datagram) (n : nat) (verb : list Z)
    (body rest : M A) : M A :=
  pre ← eval (slice_to data n);
  if bytes_Equal pre verb then body else rest.

(** A [case len(data) == l && bytes.Equal(data[:n], verb):]. *)
Definition case_len_verb {A : Type} (data : datagram) (l n : nat)
    (verb : list Z) (body rest : M A) : M A :=
  if (len data =? l)%nat then case_verb data n verb body rest else rest.

(** [handle], incoming peer, authentication not done. The repeater id
    check only logs. *)
Definition handle_auth_incoming `{!PeerMethods} (env : Env) (data : datagram)
    (ptr : nat) : M (option error) :=
  peer ← deref ptr;
  w ← get;
  match Peer.Status peer with
  | AuthNone =>
      case_verb data 4 RepeaterLogin
        (id48 ← eval (slice data 4 8);
         let _ := Peer.CheckRepeaterID peer id48 in
         match rand_Read env with
         | None => WriteToPeer env (MasterNAK ++ Homebrew.id (h w)) (Some ptr)
         | Some (n0, n1, n2, n3) =>
             let nonce := [n0; n1; n2; n3] in
             modify ptr (Peer.UpdateToken nonce);;
             modify ptr (Peer.set_Status AuthBegin);;
             WriteToPeer env (RepeaterACK ++ nonce) (Some ptr)
         end)
        (mret None)
  | AuthBegin =>
      case_verb data 4 RepeaterKey
        (id48 ← eval (slice data 4 8);
         let _ := Peer.CheckRepeaterID peer id48 in
         if negb (len data =? 40)%nat then
           modify ptr (Peer.set_Status AuthNone);;
           WriteToPeer env (MasterNAK ++ Homebrew.id (h w)) (Some ptr)
         else
           token ← eval (slice_from data 8);
           if negb (bytes_Equal token (Peer.Token peer)) then
             modify ptr (Peer.set_Status AuthNone);;
             WriteToPeer env (MasterNAK ++ Homebrew.id (h w)) (Some ptr)
           else
             modify ptr (Peer.set_Status AuthDone);;
             modify ptr (Peer.upd_Last (Last.set_PingReceived (now env)));;
             modify ptr (Peer.upd_Last (Last.set_PongReceived (now env)));;
             WriteToPeer env (RepeaterACK ++ Homebrew.id (h w)) (Some ptr))
        (mret None)
  | _ => mret None
  end.

(** The two arms of the outgoing role that end the login in failure. *)
Definition refused (ptr : nat) : M (option error) :=
  peer ← deref ptr;
  modify ptr (Peer.set_Status AuthFailed);;
  (if Peer.UnlinkOnAuthFailure peer
   then Unlink (Peer.ID peer);; mret ()
   else mret ());;
  mret None.

(** The two arms of the outgoing role that complete the login: the
    configuration the endpoint points to is encoded, and keeps what the
    encoder assigned to it. *)
Definition accepted `{!DmrModule, !GoLib} (env : Env) (ptr : nat)
  : M (option error) :=
  modify ptr (Peer.set_Status AuthDone);;
  modify ptr (Peer.upd_Last (Last.set_PingSent (now env)));;
  modify ptr (Peer.upd_Last (Last.set_PongReceived (now env)));;
  w ← get;
  let cb := buildConfigData (Homebrew.Config (h w)) in
  modify_h (set_HConfig cb.1);;
  WriteToPeer env cb.2 (Some ptr).

(** [handle], outgoing peer, authentication not done. The repeater id
    check at [data[6:10]] only logs. *)
Definition handle_auth_outgoing `{!DmrModule, !GoLib, !PeerMethods}
    (env : Env) (data : datagram) (ptr : nat) : M (option error) :=
  peer ← deref ptr;
  w ← get;
  id610 ← eval (slice data 6 10);
  let _ := checkRepeaterID (h w) id610 in
  match Peer.Status peer with
  | AuthNone =>
      case_verb data 6 RepeaterACK
        (modify ptr (Peer.set_Status AuthBegin);;
         nonce ← eval (slice data 6 10);
         modify ptr (Peer.UpdateToken nonce);;
         handleAuth env ptr)
      (case_verb data 6 MasterNAK
        (refused ptr)
      (mret None))
  | AuthBegin =>
      case_verb data 6 MasterACK
        (accepted env ptr)
      (case_verb data 6 MasterNAK
        (refused ptr)
      (case_verb data 6 RepeaterACK
        (accepted env ptr)
      (mret None)))
  | _ => mret None
  end.

(** The [DMRData] arm of either role once authentication is done. *)
Definition handle_dmrd `{!DmrModule} (env : Env) (data : datagram) (ptr : nat)
  : M (option error) :=
  match parseData (elts data) with
  | Ok p => handlePacket env p ptr
  | Err e => mret (Some e)
  | Panic => panic
  end.

(** [handle], incoming peer, authentication done. A configuration frame
    of the wrong length leaves [peer.Config] nil, which [printConfig]
    then dereferences. *)
Definition handle_done_incoming `{!DmrModule, !GoLib} (env : Env)
    (data : datagram) (ptr : nat) : M (option error) :=
  w ← get;
  case_verb data 4 DMRData
    (handle_dmrd env data ptr)
  (case_len_verb data 10 6 MasterACK
    (mret None)
  (case_len_verb data 11 7 MasterPing
    (modify ptr (Peer.upd_Last (Last.set_PingReceived (now env)));;
     rest ← eval (slice_from data 7);
     WriteToPeer env (RepeaterPong ++ rest) (Some ptr))
  (case_len_verb data 11 7 RepeaterPing
    (modify ptr (Peer.upd_Last (Last.set_PingReceived (now env)));;
     rest ← eval (slice_from data 7);
     WriteToPeer env (MasterPong ++ rest) (Some ptr))
  (case_verb data 4 RepeaterConfig
    (match parseConfigData (elts data) with
     | Ok c =>
         modify ptr (Peer.set_Config (Some c));;
         WriteToPeer env (RepeaterACK ++ Homebrew.id (h w)) (Some ptr)
     | _ =>
         modify ptr (Peer.set_Config None);;
         panic
     end)
  (mret None))))).

(** The arms of the outgoing role, authentication done, first check the
    repeater id carried at [data[lo:hi]] and return on a mismatch. *)
Definition checked `{!GoLib} (data : datagram) (lo hi : nat)
    (k : M (option error)) : M (option error) :=
  w ← get;
  rid ← eval (slice data lo hi);
  if negb (checkRepeaterID (h w) rid) then mret None else k.

(** [handle], outgoing peer, authentication done. *)
Definition handle_done_outgoing `{!DmrModule, !GoLib} (env : Env)
    (data : datagram) (ptr : nat) : M (option error) :=
  w ← get;
  let ping : M (option error) :=
    modify ptr (Peer.upd_Last (Last.set_PingSent (now env)));;
    WriteToPeer env (MasterPing ++ Homebrew.id (h w)) (Some ptr) in
  let pong : M (option error) :=
    modify ptr (Peer.upd_Last (Last.set_PongReceived (now env)));;
    mret None in
  case_verb data 4 DMRData
    (handle_dmrd env data ptr)
  (case_len_verb data 10 6 MasterACK
    (checked data 6 10 ping)
  (case_len_verb data 10 6 MasterNAK
    (checked data 6 10
       (modify ptr (Peer.set_Status AuthFailed);; handleAuth env ptr))
  (case_len_verb data 10 6 RepeaterACK
    (checked data 6 10 ping)
  (case_len_verb data 11 7 MasterPong
    (checked data 7 11 pong)
  (case_len_verb data 11 7 RepeaterPong
    (checked data 7 11 pong)
  (mret None)))))).

(** [handle] from the length check on, for the peer found or created. *)
Definition handle_peer `{!DmrModule, !GoLib, !PeerMethods} (env : Env)
    (data : datagram) (peer : option nat) : M (option error) :=
  if (len data <? 8)%nat then mret None
  else
    match peer with
    | None => panic
    | Some ptr =>
        modify ptr (Peer.upd_Last (Last.set_PacketReceived (now env)));;
        o ← deref ptr;
        if negb (bool_decide (Peer.Status o = AuthDone)) then
          case_verb data 4 DMRData
            (mret None)
            (if Peer.Incoming o
             then handle_auth_incoming env data ptr
             else handle_auth_outgoing env data ptr)
        else if Peer.Incoming o
        then handle_done_incoming env data ptr
        else handle_done_outgoing env data ptr
    end.

(** [handle]: the peer is looked up by address; an unknown address that
    sends a login is given a new incoming peer, linked at once. *)
Definition handle `{!DmrModule, !GoLib, !PeerMethods} (env : Env)
    (remote : UDPAddr) (data : datagram) : M (option error) :=
  peer ← getPeerByAddr remote;
  match peer with
  | Some ptr => handle_peer env data (Some ptr)
  | None =>
      case_verb data 4 RepeaterLogin
        (rest ← eval (slice_from data 4);
         repeaterID ← eval (unpackRepeaterID rest);
         newPeer ← alloc
           {| Peer.ID := repeaterID;
              Peer.Addr := Some remote;
              Peer.Config := None;
              Peer.AuthKey := bytes_of "passw0rd";
              Peer.Incoming := true;
              Peer.Status := AuthNone;
              Peer.TGID := 446;
              Peer.id := [];
              Peer.Token := [];
              Peer.Last :=
                {| Last.PacketSent := time_zero;
                   Last.PacketReceived := time_zero;
                   Last.PingSent := time_zero;
                   Last.PingReceived := time_zero;
                   Last.PongReceived := time_zero;
                   Last.AuthSent := time_zero;
                   Last.TGSubscribed := time_zero |};
              Peer.UnlinkOnAuthFailure := false;
              Peer.PacketReceived := None |};
         Link env (Some newPeer);;
         peer ← getPeerByAddr remote;
         handle_peer env data peer)
        (mret None)
  end.

(** ** Package homebrew: sending *)

Definition WriteToPeerWithID (env : Env) (b : list Z) (id : Z)
  : M (option error) :=
  peer ← getPeer id;
  WriteToPeer env b peer.

(** The loop of [Send] over the peers [getPeers] returned. *)
Fixpoint Send_loop (env : Env) (data : list Z) (peers : list nat)
  : M (option error) :=
  match peers with
  | [] => mret None
  | peer :: rest =>
      err ← WriteToPeer env data (Some peer);
      match err with
      | Some e => mret (Some e)
      | None => Send_loop env data rest
      end
  end.

Definition Send `{!DmrModule} (env : Env) (p : Packet.t) : M (option error) :=
  w ← get;
  let data := buildData p (ID (Homebrew.Config (h w))) in
  peers ← getPeers;
  Send_loop env data peers.

(** ** Package homebrew: the keepalive, the listener and closing *)

(** Durations count nanoseconds, as [time.Duration] does, and so do the
    times a difference is taken of. [t.Sub(u)] is the difference kept
    within the range of a duration. *)
Definition Second : Z := 1000000000.
Definition AuthTimeout : Z := Second * 15.
Definition PingInterval : Z := Second * 5.
Definition PingTimeout : Z := Second * 15.

Definition minDuration : Z := - 2 ^ 63.
Definition maxDuration : Z := 2 ^ 63 - 1.

Definition Sub (t u : Time) : Z :=
  Z.max minDuration (Z.min maxDuration (t - u)).

(** What a tick of [keepalive] does with one peer; [now] is the time
    read at the tick. The arm of the incoming role is empty: its code
    is commented out. Errors of the calls are logged only. *)
Definition keepalive_peer (env : Env) (now : Time) (ptr : nat) : M unit :=
  peer ← deref ptr;
  w ← get;
  if Peer.Incoming peer then mret ()
  else
    match Peer.Status peer with
    | AuthFailed =>
        if AuthTimeout <? Sub now (Last.AuthSent (Peer.Last peer)) then
          modify ptr (Peer.set_Status AuthNone);;
          handleAuth env ptr;;
          mret ()
        else mret ()
    | AuthNone | AuthBegin =>
        if AuthTimeout <? Sub now (Last.PacketReceived (Peer.Last peer)) then
          modify ptr (Peer.set_Status AuthFailed)
        else mret ()
    | AuthDone =>
        if PingTimeout <? Sub now (Last.PongReceived (Peer.Last peer)) then
          modify ptr (Peer.set_Status AuthNone);;
          WriteToPeer env (RepeaterClosing ++ Homebrew.id (h w)) (Some ptr);;
          handleAuth env ptr;;
          mret ()
        else if PingInterval <? Sub now (Last.PingSent (Peer.Last peer)) then
          modify ptr (Peer.upd_Last (Last.set_PingSent now));;
          WriteToPeer env (RepeaterPing ++ Homebrew.id (h w)) (Some ptr);;
          mret ()
        else mret ()
    end.

Fixpoint keepalive_loop (env : Env) (now : Time) (peers : list nat) : M unit :=
  match peers with
  | [] => mret ()
  | ptr :: rest => keepalive_peer env now ptr;; keepalive_loop env now rest
  end.

(** One tick of [keepalive], a second after the one before. *)
Definition keepalive_tick (env : Env) (now : Time) : M unit :=
  peers ← getPeers;
  keepalive_loop env now peers.





(** What [ReadFromUDP] returns: a datagram and its sender, or an
    error. *)
Inductive read : Type :=
| Datagram (payload : list Z) (from : UDPAddr)
| ReadError.

(** The read buffer after a datagram was read into it, and the slice
    [data[:n]] handed to [handle]: what arrived beyond the buffer's
    length is cut, and behind the [n] bytes read the buffer holds what
    earlier datagrams left. *)
Definition read_into (buf payload : list Z) : datagram :=
  let got := take (length buf) payload in
  {| elts := got; spare := drop (length got) buf |}.

(** How far [ListenAndServe] got: it waits for the next datagram, or
    it returned. *)
Inductive served : Type :=
| Serving
| Returned (err : option error).

(** The loop of [ListenAndServe] on the reads that follow, as long as
    no [Close] comes in from elsewhere, so that [closed] stays false and
    every error of [handle] is returned. The buffer is the one made
    before the loop; an error of the socket is [ErrConn]. The ticks of
    [keepalive] run beside the loop, between two of its turns. *)
Fixpoint ListenAndServe_loop `{!DmrModule, !GoLib, !PeerMethods}
    (reads : list (Env * read)) (buf : list Z) : M served :=
  match reads with
  | [] => mret Serving
  | (env, ReadError) :: _ => mret (Returned (Some ErrConn))
  | (env, Datagram payload from) :: rest =>
      let data := read_into buf payload in
      err ← handle env from data;
      match err with
      | Some e => mret (Returned (Some e))
      | None => ListenAndServe_loop rest (elts data ++ spare data)
      end
  end.

Definition ListenAndServe `{!DmrModule, !GoLib, !PeerMethods}
    (reads : list (Env * read)) : M served :=
  ListenAndServe_loop reads (replicate 302 0).

(** ** The Go library on floats, as far as the codec meets it *)

Module Float32.

Definition sign (x : float32) : bool := Z.testbit x 31.
Definition expo (x : float32) : Z := Z.land (Z.shiftr x 23) 255.
Definition frac (x : float32) : Z := Z.land x 8388607.

(** A finite [x] is [mant x * 2 ^ bexp x], up to its sign. *)
Definition mant (x : float32) : Z :=
  if expo x =? 0 then frac x else 8388608 + frac x.
Definition bexp (x : float32) : Z :=
  if expo x =? 0 then -149 else expo x - 150.

(** [n / d] rounded to the nearest integer, ties to even. *)
Definition round_half_even (n d : Z) : Z :=
  let q := n / d in
  let r := n mod d in
  if 2 * r <? d then q
  else if d <? 2 * r then q + 1
  else if Z.even q then q else q + 1.

(** [fmt.Sprintf("%f", x)]: six decimals of the exact value, rounded to
    nearest even; [+Inf], [-Inf] and [NaN] by name. *)
Definition format_f (x : float32) : list Z :=
  if expo x =? 255 then
    if frac x =? 0
    then (if sign x then bytes_of "-Inf" else bytes_of "+Inf")
    else bytes_of "NaN"
  else
    let n :=
      if 0 <=? bexp x then mant x * 2 ^ bexp x * 1000000
      else round_half_even (mant x * 1000000) (2 ^ (- bexp x)) in
    (if sign x then [45] else [])
      ++ itoa (n / 1000000) ++ [46] ++ Sprintf_0d 6 (n mod 1000000).

(** The leading decimal digits of [s]: their value on top of [acc], how
    many there are, and what follows them. *)
Fixpoint read_digits (s : list Z) (acc : Z) (count : nat)
  : Z * nat * list Z :=
  match s with
  | c :: s' =>
      if (48 <=? c) && (c <=? 57)
      then read_digits s' (acc * 10 + (c - 48)) (S count)
      else (acc, count, s)
  | [] => (acc, count, [])
  end.

(** A plain decimal, [[+-]digits[.digits]] with at least one digit:
    its sign, and [n] and [k] for the value [n / 10 ^ k]. *)
Definition parse_decimal (s : list Z) : option (bool * Z * nat) :=
  let '(neg, s1) :=
    match s with
    | 43 :: t => (false, t)
    | 45 :: t => (true, t)
    | _ => (false, s)
    end in
  let '(ip, ni, s2) := read_digits s1 0 0 in
  let '(fp, nf, s3) :=
    match s2 with
    | 46 :: t => read_digits t ip 0
    | _ => (ip, 0%nat, s2)
    end in
  if (ni + nf =? 0)%nat then None
  else match s3 with
       | [] => Some (neg, fp, nf)
       | _ => None
       end.

(** [n / d > 0] rounded to [p] bits with exponent at least [emin]:
    mantissa and exponent of the nearest such number, ties to even. *)
Definition round_bin (p emin n d : Z) : Z * Z :=
  if n =? 0 then (0, emin)
  else
    let scaled (e : Z) : Z * Z :=
      if 0 <=? e then (n, d * 2 ^ e) else (n * 2 ^ (- e), d) in
    let e0 := Z.log2 n - Z.log2 d - p in
    let e1 := if (scaled e0).1 / (scaled e0).2 <? 2 ^ p then e0 else e0 + 1 in
    let e := Z.max e1 emin in
    let m := round_half_even (scaled e).1 (scaled e).2 in
    if m =? 2 ^ p then (2 ^ (p - 1), e + 1) else (m, e).

(** The bits of the [float32] nearest to the [float64] nearest to
    [n / 10 ^ k], with the sign given; infinite on overflow. *)
Definition of_decimal (neg : bool) (n : Z) (k : nat) : float32 :=
  let s := if neg then 2147483648 else 0 in
  let '(m64, e64) := round_bin 53 (-1074) n (10 ^ Z.of_nat k) in
  if 971 <? e64 then s + 2139095040
  else
    let '(m, e) :=
      if 0 <=? e64 then round_bin 24 (-149) (m64 * 2 ^ e64) 1
      else round_bin 24 (-149) m64 (2 ^ (- e64)) in
    if 104 <? e then s + 2139095040
    else if m <? 8388608 then s + m
    else s + (e + 150) * 8388608 + (m - 8388608).

(** [float32(v)] for [v, _ := strconv.ParseFloat(s, 64)], on plain
    decimals; on any other text the value of a syntax error, zero. The
    exponent, hexadecimal, underscore and [Inf]/[NaN] spellings that
    [ParseFloat] also reads are left out. *)
Definition parse (s : list Z) : float32 :=
  match parse_decimal s with
  | Some (neg, n, k) => of_decimal neg n k
  | None => 0
  end.

(** ASCII case folding, which is what [bytes.EqualFold] does on bytes
    below 128. *)
Definition fold_ascii (c : Z) : Z :=
  if (65 <=? c) && (c <=? 90) then c + 32 else c.

Definition equal_fold (a b : list Z) : bool :=
  bool_decide (fold_ascii <$> a = fold_ascii <$> b).

End Float32.

(** The library functions as modelled above. *)
Definition plain_lib : GoLib :=
  {| Sprintf_f := Float32.format_f;
     ParseFloat32 := Float32.parse;
     EqualFold := Float32.equal_fold |}.

(** Sample values for the constants of the [dmr] module: the data-type
    enumeration with the voice bursts at 10 to 15. *)
Definition sample_dmr : DmrModule :=
  {| VoiceBurstA := 10; VoiceBurstB := 11; VoiceBurstC := 12;
     VoiceBurstD := 13; VoiceBurstE := 14; VoiceBurstF := 15;
     CallTypeGroup := 1; CallTypePrivate := 0;
     dmr_SoftwareID := bytes_of "go-dmr";
     dmr_PackageID := bytes_of "linux/amd64" |}.

(** A sample token derivation, 32 bytes from key and nonce, and the id
    check against the packed id. *)
Definition sample_peer : PeerMethods :=
  {| token_of := fun key nonce => take 32 (nonce ++ key ++ replicate 32 0);
     check_id := fun id b => bytes_Equal b (packRepeaterID id) |}.

(** * What the specification asks *)

(** ** The DMR frame *)

Definition is_burst `{!DmrModule} (dt : Z) : Prop :=
  dt = VoiceBurstA ∨ dt = VoiceBurstB ∨ dt = VoiceBurstC ∨
  dt = VoiceBurstD ∨ dt = VoiceBurstE ∨ dt = VoiceBurstF.

(** A valid packet: every field within its width, a payload of 33 bytes,
    and a data type that is a voice burst or a data-sync value below 16. *)
Definition valid_packet `{!DmrModule} (p : Packet.t) : Prop :=
  0 ≤ Packet.Sequence p < 256 ∧
  0 ≤ Packet.SrcID p < 2 ^ 24 ∧
  0 ≤ Packet.DstID p < 2 ^ 24 ∧
  (Packet.Timeslot p = 0 ∨ Packet.Timeslot p = 1) ∧
  (Packet.CallType p = 0 ∨ Packet.CallType p = 1) ∧
  0 ≤ Packet.StreamID p < 2 ^ 32 ∧
  0 ≤ Packet.BER p < 256 ∧
  0 ≤ Packet.RSSI p < 256 ∧
  length (Packet.Data p) = 33%nat ∧
  (is_burst (Packet.DataType p) ∨ 0 ≤ Packet.DataType p < 16).

(** [p] with [RepeaterID := rid]. *)
Definition with_RepeaterID (rid : Z) (p : Packet.t) : Packet.t :=
  {| Packet.Sequence := Packet.Sequence p; Packet.SrcID := Packet.SrcID p;
     Packet.DstID := Packet.DstID p; Packet.RepeaterID := rid;
     Packet.Timeslot := Packet.Timeslot p;
     Packet.CallType := Packet.CallType p;
     Packet.StreamID := Packet.StreamID p;
     Packet.DataType := Packet.DataType p; Packet.BER := Packet.BER p;
     Packet.RSSI := Packet.RSSI p; Packet.Data := Packet.Data p |}.

(** A group-call voice burst C on timeslot 2, for the sample module. *)
Definition sample_packet : Packet.t :=
  {| Packet.Sequence := 7; Packet.SrcID := 2041234; Packet.DstID := 204;
     Packet.RepeaterID := 0; Packet.Timeslot := 1; Packet.CallType := 1;
     Packet.StreamID := 3735928559; Packet.DataType := 12;
     Packet.BER := 3; Packet.RSSI := 40;
     Packet.Data := [ 1; 2; 3; 4; 5; 6; 7; 8; 9; 10; 11; 12; 13; 14; 15; 16;
                      17; 18; 19; 20; 21; 22; 23; 24; 25; 26; 27; 28; 29; 30;
                      31; 32; 255 ] |}.

(** ** The configuration record *)

(** A repeater at 52.5 N, 1.5 E; every field is within its width. *)
Definition sample_config : RepeaterConfiguration.t :=
  {| ID := 204099; Callsign := bytes_of "PD0MZ";
     RXFreq := 438200000; TXFreq := 430600000;
     TXPower := 25; ColorCode := 1;
     Latitude := 1112670208; Longitude := 1069547520;
     Height := 12; Location := bytes_of "Norwich";
     Description := bytes_of "go-dmr repeater"; Slots := 2;
     URL := bytes_of "https://example.org";
     SoftwareID := bytes_of "sw-1"; PackageID := bytes_of "pkg-1" |}.

(** A field of the configuration is out of the range the encoder keeps. *)
Definition out_of_range (c : RepeaterConfiguration.t) : Prop :=
  ColorCode c < 1 ∨ 15 < ColorCode c ∨ 99 < TXPower c ∨ 4 < Slots c.

(** ** Runs of the endpoint *)

(** [runs m w a w']: from [w], the call [m] returns [a] and leaves [w']. *)
Definition runs {A : Type} (m : M A) (w : World) (a : A) (w' : World) : Prop :=
  m w = Some (a, w').

(** ** Samples for the endpoint *)

(** [data[:n]] as [ListenAndServe] hands it to [handle] after reading
    [payload] into its 302-byte buffer, here a buffer fresh from [make]. *)
Definition received (payload : list Z) : datagram :=
  {| elts := payload; spare := replicate (302 - length payload) 0 |}.

Definition sample_env : Env :=
  {| now := 1700000000;
     rand_Read := Some (222, 173, 190, 239);
     WriteTo_fails := fun _ _ => false |}.

Definition sample_last : Last.t :=
  {| Last.PacketSent := 11; Last.PacketReceived := 12; Last.PingSent := 13;
     Last.PingReceived := 14; Last.PongReceived := 15; Last.AuthSent := 16;
     Last.TGSubscribed := 17 |}.

(** A master we log in to (outgoing) and a repeater that logs in to us
    (incoming), both in None. *)
Definition sample_master : Peer.t :=
  {| Peer.ID := 2042; Peer.Addr := Some "203.0.113.5:62030"%string;
     Peer.Config := None; Peer.AuthKey := bytes_of "s3cret";
     Peer.Incoming := false; Peer.Status := AuthNone; Peer.TGID := 0;
     Peer.id := packRepeaterID 2042; Peer.Token := [];
     Peer.Last := sample_last; Peer.UnlinkOnAuthFailure := false;
     Peer.PacketReceived := None |}.

Definition sample_repeater : Peer.t :=
  {| Peer.ID := 204123; Peer.Addr := Some "198.51.100.7:50000"%string;
     Peer.Config := None; Peer.AuthKey := bytes_of "passw0rd";
     Peer.Incoming := true; Peer.Status := AuthNone; Peer.TGID := 446;
     Peer.id := packRepeaterID 204123; Peer.Token := [];
     Peer.Last := sample_last; Peer.UnlinkOnAuthFailure := false;
     Peer.PacketReceived := None |}.

(** The endpoint just made, with the two peer objects not yet linked,
    and the endpoint with both registered. *)
Definition sample_fresh : World :=
  {| h := New sample_config;
     heap := [sample_master; sample_repeater];
     wire := [] |}.

Definition sample_world : World :=
  {| h := set_PeerID {[ 2042 := 0%nat; 204123 := 1%nat ]}
            (set_Peer {[ "203.0.113.5:62030"%string := 0%nat;
                         "198.51.100.7:50000"%string := 1%nat ]}
               (New sample_config));
     heap := [sample_master; sample_repeater];
     wire := [] |}.

(** ** The registry *)

(** The timestamps as [Link] leaves them when it registers the peer. *)
Definition reset_four (l : Last.t) : Last.t :=
  {| Last.PacketSent := time_zero;
     Last.PacketReceived := time_zero;
     Last.PingSent := time_zero;
     Last.PingReceived := Last.PingReceived l;
     Last.PongReceived := time_zero;
     Last.AuthSent := Last.AuthSent l;
     Last.TGSubscribed := Last.TGSubscribed l |}.

(** The operations on the registry, and a sequence of them run from a
    world; each comes with what it finds outside the program. *)
Inductive op : Type :=
| OpLink (peer : option nat)
| OpUnlink (id : Z)
| OpHandle (remote : UDPAddr) (data : datagram).

Definition step `{!DmrModule, !GoLib, !PeerMethods} (env : Env) (o : op)
  : M (option error) :=
  match o with
  | OpLink peer => Link env peer
  | OpUnlink id => Unlink id
  | OpHandle remote data => handle env remote data
  end.

Fixpoint run `{!DmrModule, !GoLib, !PeerMethods} (ops : list (Env * op))
    (w : World) : option World :=
  match ops with
  | [] => Some w
  | (env, o) :: rest =>
      match step env o w with
      | Some (_, w') => run rest w'
      | None => None
      end
  end.

Definition in_Peer (w : World) (ptr : nat) : Prop :=
  ∃ a, Homebrew.Peer (h w) !! a = Some ptr.
Definition in_PeerID (w : World) (ptr : nat) : Prop :=
  ∃ i, Homebrew.PeerID (h w) !! i = Some ptr.

(** A peer object is in the address index iff it is in the id index. *)
Definition registry_bijection (w : World) : Prop :=
  ∀ ptr, in_Peer w ptr ↔ in_PeerID w ptr.

(** The address and the id of the peer to link are not registered to
    another peer object. *)
Definition no_clash (w : World) (ptr : nat) : Prop :=
  ∀ o, heap w !! ptr = Some o →
       (∀ q, Homebrew.Peer (h w) !! Addr_String (Peer.Addr o) = Some q →
             q = ptr) ∧
       (∀ q, Homebrew.PeerID (h w) !! Peer.ID o = Some q → q = ptr).

(** An operation links no peer under a key taken by another: an
    explicit [Link] without a clash, or a login from an unknown address
    whose id is not registered. *)
Definition fresh_op (w : World) (o : op) : Prop :=
  match o with
  | OpLink (Some ptr) => no_clash w ptr
  | OpHandle remote d =>
      Homebrew.Peer (h w) !! remote = None →
      ∀ rest id, slice_to d 4 = Ok RepeaterLogin →
                 slice_from d 4 = Ok rest →
                 unpackRepeaterID rest = Ok id →
                 Homebrew.PeerID (h w) !! id = None
  | _ => True
  end.

Fixpoint fresh_run `{!DmrModule, !GoLib, !PeerMethods}
    (ops : list (Env * op)) (w : World) : Prop :=
  match ops with
  | [] => True
  | (env, o) :: rest =>
      fresh_op w o ∧
      match step env o w with
      | Some (_, w') => fresh_run rest w'
      | None => True
      end
  end.

(** Every index entry is filed under the peer's own address or id, and
    a peer in one index is in the other under its own key. *)
Definition indexes_agree (w : World) : Prop :=
  (∀ a ptr, Homebrew.Peer (h w) !! a = Some ptr →
     ∃ o, heap w !! ptr = Some o ∧ Peer.Addr o = Some a ∧
          Homebrew.PeerID (h w) !! Peer.ID o = Some ptr) ∧
  (∀ i ptr, Homebrew.PeerID (h w) !! i = Some ptr →
     ∃ o a, heap w !! ptr = Some o ∧ Peer.ID o = i ∧
            Peer.Addr o = Some a ∧ Homebrew.Peer (h w) !! a = Some ptr).

(** [w'] has the indexes of [w], and the peer objects of [w] with their
    id and address. *)
Definition same_registry (w w' : World) : Prop :=
  Homebrew.Peer (h w') = Homebrew.Peer (h w) ∧
  Homebrew.PeerID (h w') = Homebrew.PeerID (h w) ∧
  ∀ ptr o, heap w !! ptr = Some o →
    ∃ o', heap w' !! ptr = Some o' ∧
          Peer.ID o' = Peer.ID o ∧ Peer.Addr o' = Peer.Addr o.

(** A method that leaves the registry as it found it. *)
Definition keeps {A : Type} (m : M A) : Prop :=
  ∀ w a w', runs m w a w' → same_registry w w'.

(** A method that keeps the indexes in agreement. *)
Definition agrees {A : Type} (m : M A) : Prop :=
  ∀ w a w', indexes_agree w → runs m w a w' → indexes_agree w'.

(** An assignment to a peer that leaves its id and address alone, and
    one to the endpoint that leaves its indexes alone. *)
Definition stable (f : Peer.t → Peer.t) : Prop :=
  ∀ o, Peer.ID (f o) = Peer.ID o ∧ Peer.Addr (f o) = Peer.Addr o.
Definition stable_h (f : Homebrew.t → Homebrew.t) : Prop :=
  ∀ hb, Homebrew.Peer (f hb) = Homebrew.Peer hb ∧
        Homebrew.PeerID (f hb) = Homebrew.PeerID hb.

(** The value of a string of decimal digits, read after [acc]. *)
Definition digits_value (acc : Z) (ds : list Z) : Z :=
  foldl (fun a d => a * 10 + (d - 48)) acc ds.

Definition is_digit (c : Z) : Prop := 48 ≤ c ≤ 57.

(** A configuration whose fields fit the record: strings no longer than
    their fields, numbers of no more digits than theirs and within
    their Go types. *)
Definition fits (c : RepeaterConfiguration.t) : Prop :=
  0 ≤ ID c < 2 ^ 32 ∧
  (length (Callsign c) ≤ 8)%nat ∧
  0 ≤ RXFreq c < 10 ^ 9 ∧
  0 ≤ TXFreq c < 10 ^ 9 ∧
  0 ≤ TXPower c ≤ 99 ∧
  0 ≤ ColorCode c ≤ 99 ∧
  0 ≤ Height c < 10 ^ 3 ∧
  (length (Location c) ≤ 20)%nat ∧
  (length (Description c) ≤ 19)%nat ∧
  0 ≤ Slots c ≤ 9 ∧
  (length (URL c) ≤ 124)%nat ∧
  (length (SoftwareID c) ≤ 40)%nat ∧
  (length (PackageID c) ≤ 40)%nat.

(** ** Bytes *)

(** A value a [byte] holds. *)
Definition is_byte (b : Z) : Prop := 0 ≤ b < 256.

(** A string with no space at either end. *)
Definition no_space_at_ends (s : list Z) : Prop :=
  head s ≠ Some 32 ∧ last s ≠ Some 32.

(** ** Sending *)

(** Every pointer the address index holds is to a peer object. *)
Definition registry_allocated (w : World) : Prop :=
  ∀ a ptr, Homebrew.Peer (h w) !! a = Some ptr → is_Some (heap w !! ptr).

(** No write to the socket fails. *)
Definition never_fails (env : Env) : Prop :=
  ∀ b a, WriteTo_fails env b a = false.

(** The datagram a write of [data] to the peer at [ptr] hands to the
    socket. *)
Definition datagram_to (w : World) (data : list Z) (ptr : nat)
  : list Z * option UDPAddr :=
  (data, heap w !! ptr ≫= Peer.Addr).

(** The peers of a list that [SendTG] writes to: those subscribed to the
    talk group whose id is not the sender's. *)
Definition is_target (w : World) (sender dst : Z) (ptr : nat) : bool :=
  match heap w !! ptr with
  | Some o => negb (Peer.ID o =? sender) && (Peer.TGID o =? dst)
  | None => false
  end.

Definition tg_targets (w : World) (sender dst : Z) (peers : list nat)
  : list nat :=
  List.filter (is_target w sender dst) peers.

(** [w'] holds the peer objects of [w], each with its id, address, talk
    group, role and status. *)
Definition same_peers (w w' : World) : Prop :=
  length (heap w') = length (heap w) ∧
  ∀ ptr o, heap w !! ptr = Some o →
    ∃ o', heap w' !! ptr = Some o' ∧
          Peer.ID o' = Peer.ID o ∧ Peer.Addr o' = Peer.Addr o ∧
          Peer.TGID o' = Peer.TGID o ∧ Peer.Incoming o' = Peer.Incoming o ∧
          Peer.Status o' = Peer.Status o.

(** The sample endpoint with both links up: the master subscribed to
    talk group 204, the repeater to 446. *)
Definition sample_done : World :=
  upd 0 (Peer.set_TGID 204)
    (upd 0 (Peer.set_Status AuthDone)
       (upd 1 (Peer.set_Status AuthDone) sample_world)).

(** [o] with the packet callback [f], and the sample endpoint with a
    callback on the repeater that refuses every packet. *)
Definition with_callback (f : PacketFunc) (o : Peer.t) : Peer.t :=
  {| Peer.ID := Peer.ID o; Peer.Addr := Peer.Addr o;
     Peer.Config := Peer.Config o; Peer.AuthKey := Peer.AuthKey o;
     Peer.Incoming := Peer.Incoming o; Peer.Status := Peer.Status o;
     Peer.TGID := Peer.TGID o; Peer.id := Peer.id o;
     Peer.Token := Peer.Token o; Peer.Last := Peer.Last o;
     Peer.UnlinkOnAuthFailure := Peer.UnlinkOnAuthFailure o;
     Peer.PacketReceived := Some f |}.

Definition sample_callback : World :=
  upd 1 (with_callback (fun _ => Some ErrCallback)) sample_done.

(** ** The keepalive, the listener and closing *)


(** An endpoint with the sample master as its one link, in a given
    state. *)
Definition sample_link (st : AuthStatus) : World :=
  {| h := set_PeerID {[ 2042 := 0%nat ]}
            (set_Peer {[ "203.0.113.5:62030"%string := 0%nat ]}
               (New sample_config));
     heap := [Peer.set_Status st sample_master];
     wire := [] |}.

(** An endpoint with nothing linked and the sample master allocated. *)
Definition sample_unlinked : World :=
  {| h := New sample_config; heap := [sample_master]; wire := [] |}.

(** * Properties *)

(** ** The model on small inputs *)

Example packRepeaterID_sample : packRepeaterID 204099 = [0; 3; 29; 67].
Proof. reflexivity. Qed.

Example unpackRepeaterID_sample : unpackRepeaterID [0; 3; 29; 67] = Ok 204099.
Proof. reflexivity. Qed.

Example Sprintf_0d_pads : Sprintf_0d 3 12 = bytes_of "012".
Proof. reflexivity. Qed.

Example Sprintf_0d_overflows_width :
  Sprintf_0d 9 4294967295 = bytes_of "4294967295".
Proof. reflexivity. Qed.

Example Sprintf_ls_pads : Sprintf_ls 8 (bytes_of "PD0MZ") = bytes_of "PD0MZ   ".
Proof. reflexivity. Qed.

Example Trim_both_ends : Trim (bytes_of "  ab c  ") = bytes_of "ab c".
Proof. reflexivity. Qed.

Example ParseUint_digits : ParseUint (bytes_of "000012345") 32 = (12345, false).
Proof. reflexivity. Qed.

Example ParseUint_out_of_range : ParseUint (bytes_of "999") 8 = (255, true).
Proof. reflexivity. Qed.

Example ParseUint_not_a_number : ParseUint (bytes_of "12 ") 8 = (0, true).
Proof. reflexivity. Qed.

Example format_f_sample : Float32.format_f 1112670208 = bytes_of "52.500000".
Proof. vm_compute. reflexivity. Qed.

Example format_f_negative : Float32.format_f 3217031168 = bytes_of "-1.500000".
Proof. vm_compute. reflexivity. Qed.

Example parse_float_sample : Float32.parse (bytes_of "52.50000") = 1112670208.
Proof. vm_compute. reflexivity. Qed.

Example parse_float_rounds : Float32.parse (bytes_of "52.37021") = 1112636184.
Proof. vm_compute. reflexivity. Qed.

Example header_8bit_sample :
  TalkerAlias.ParseTalkerAliasHeaderPDU [78; 71; 79; 32; 68; 77; 82] =
  Ok {| TalkerAlias.DataFormat := 1; TalkerAlias.Length := 7;
        TalkerAlias.Data := [71; 79; 32; 68; 77] |}.
Proof. reflexivity. Qed.

Example header_all_ones_sample :
  TalkerAlias.ParseTalkerAliasHeaderPDU [1; 255; 255; 255; 255; 255; 255] =
  Ok {| TalkerAlias.DataFormat := 0; TalkerAlias.Length := 0;
        TalkerAlias.Data := [127; 127; 127; 127; 127; 127; 127] |}.
Proof. vm_compute. reflexivity. Qed.

Example buildData_sample :
  @buildData sample_dmr sample_packet 204099 =
  bytes_of "DMRD" ++
  [ 7; 31; 37; 146; 0; 0; 204; 0; 3; 29; 67; 194; 222; 173; 190; 239 ] ++
  Packet.Data sample_packet ++ [3; 40].
Proof. vm_compute. reflexivity. Qed.

(** ** Talker alias *)

Lemma for_range_panic {S : Type} (body : Z → S → result S) (l : list Z) :
  foldl (fun acc i => acc ≫= body i) Panic l = Panic.
Proof. induction l as [|i l IH]; simpl; auto. Qed.

Lemma index_neg {A : Type} (s : list A) (i : Z) : i < 0 → index s i = Panic.
Proof.
  intros Hi. unfold index.
  destruct (Z.ltb_spec i 0) as [_|Hge]; [reflexivity | lia].
Qed.

Lemma index_cases {A : Type} (s : list A) (i : Z) :
  index s i = Panic ∨ ∃ x, index s i = Ok x.
Proof.
  unfold index. destruct (i <? 0); [by left |].
  destruct (s !! Z.to_nat i) as [x|]; [right; by exists x | by left].
Qed.

Lemma movebit_dst_neg (src : list Z) (srcByte srcBit : Z) (dst : list Z)
    (dstByte dstBit : Z) :
  dstByte < 0 → TalkerAlias.movebit src srcByte srcBit dst dstByte dstBit = Panic.
Proof.
  intros Hneg. unfold TalkerAlias.movebit.
  destruct (index_cases src srcByte) as [-> | [s ->]]; simpl; [reflexivity |].
  rewrite (index_neg dst dstByte Hneg). reflexivity.
Qed.

Lemma for_range_first_panic {S : Type} (lo hi : Z) (body : Z → S → result S)
    (s : S) :
  lo < hi → body lo s = Panic → for_range lo hi body s = Panic.
Proof.
  intros Hlt Hfirst. unfold for_range.
  rewrite seqZ_cons by lia. cbn [foldl].
  change (Ok s ≫= body lo) with (body lo s).
  rewrite Hfirst. apply for_range_panic.
Qed.

(** C1. The 7-bit round trip cannot hold: encoding a header whose format
    is 7-bit never returns. The first bit moved, [i = 7], is written to
    [out[(7/8) - 1]], that is [out[-1]], and the encoder panics whatever
    the length and the payload are. *)
Theorem Bytes_7bit_panics (length : Z) (data : list Z) :
  TalkerAlias.Bytes
    {| TalkerAlias.DataFormat := TalkerAlias.Format7Bit;
       TalkerAlias.Length := length;
       TalkerAlias.Data := data |} = Panic.
Proof.
  unfold TalkerAlias.Bytes.
  cbn [TalkerAlias.DataFormat TalkerAlias.Data].
  change (TalkerAlias.Format7Bit =? TalkerAlias.Format7Bit) with true.
  cbv iota.
  rewrite for_range_first_panic; [reflexivity | lia |].
  apply movebit_dst_neg. vm_compute. reflexivity.
Qed.

(** C2. The header parser does not perform the documented bit mapping.
    On the header carrying the character 65 (bits 1000001) in the first
    seven payload bits, every zero bit moved clears the whole output
    byte, so the decoded character is 1, not 65: bit 6 of output byte 0
    differs from stream bit 7. *)
Theorem parse_7bit_clears_written_bits :
  TalkerAlias.ParseTalkerAliasHeaderPDU [1; 4; 0; 0; 0; 0; 0] =
    Ok {| TalkerAlias.DataFormat := 0; TalkerAlias.Length := 0;
          TalkerAlias.Data := [1; 0; 0; 0; 0; 0; 0] |}
  ∧ ¬ TalkerAlias.bit_mapping [1; 4; 0; 0; 0; 0; 0] [1; 0; 0; 0; 0; 0; 0].
Proof.
  split; [vm_compute; reflexivity |].
  intros (_ & Hbits & _).
  specialize (Hbits 7 ltac:(lia)).
  vm_compute in Hbits. discriminate.
Qed.

Lemma for_range_invariant {S : Type} (P : S → Prop) (lo hi : Z)
    (body : Z → S → result S) (s : S) :
  (∀ i s, lo ≤ i < hi → P s → ∃ s', body i s = Ok s' ∧ P s') →
  P s → ∃ s', for_range lo hi body s = Ok s' ∧ P s'.
Proof.
  unfold for_range. intros Hbody.
  remember (Z.to_nat (hi - lo)) as n eqn:Hn.
  revert lo s Hn Hbody. induction n as [|n IH]; intros lo s Hn Hbody Hs.
  - rewrite seqZ_nil by lia. by exists s.
  - rewrite seqZ_cons by lia. cbn [foldl].
    change (Ok s ≫= body lo) with (body lo s).
    destruct (Hbody lo s ltac:(lia) Hs) as (s1 & -> & Hs1).
    replace (Z.pred (hi - lo)) with (hi - Z.succ lo) by lia.
    apply IH; [lia | | exact Hs1].
    intros i s0 Hi. apply Hbody. lia.
Qed.

(** What holds of the 7-bit parser: it returns, and every byte of the
    seven it returns has bit 7 clear. *)
Lemma parse_7bit_high_bit_clear (data : list Z) :
  length data = 7%nat →
  Z.shiftr (Z.land (data !!! 0%nat) TalkerAlias.B11000000) 6
    = TalkerAlias.Format7Bit →
  ∃ t, TalkerAlias.ParseTalkerAliasHeaderPDU data = Ok t ∧
       length (TalkerAlias.Data t) = 7%nat ∧
       Forall (fun b => 0 ≤ b < 128) (TalkerAlias.Data t).
Proof.
  intros Hlen Hfmt.
  destruct data as [|d0 [|d1 [|d2 [|d3 [|d4 [|d5 [|d6 [|]]]]]]]];
    try discriminate Hlen.
  unfold TalkerAlias.ParseTalkerAliasHeaderPDU.
  cbn [length Nat.eqb negb]. change (index [d0; d1; d2; d3; d4; d5; d6] 0)
    with (Ok (A := Z) d0).
  cbn [mbind result_bind].
  change ([d0; d1; d2; d3; d4; d5; d6] !!! 0%nat) with d0 in Hfmt.
  rewrite Hfmt. change (TalkerAlias.Format7Bit =? TalkerAlias.Format7Bit) with true.
  cbv iota.
  destruct (for_range_invariant
              (fun out => length out = 7%nat ∧ Forall (fun b => 0 ≤ b < 128) out)
              7 56
              (fun i out =>
                 TalkerAlias.movebit [d0; d1; d2; d3; d4; d5; d6]
                   (Z.quot i 8) (7 - Z.rem i 8) out
                   (Z.quot (i - 7) 7) (6 - Z.rem i 7))
              (replicate 7 0)) as (out & -> & Hout7 & Hsmall).
  - intros i out Hi [Hol Hos].
    assert (Hq8 : 0 ≤ Z.quot i 8 < 7).
    { rewrite Z.quot_div_nonneg by lia.
      split; [apply Z.div_pos; lia | apply Z.div_lt_upper_bound; lia]. }
    assert (Hq7 : 0 ≤ Z.quot (i - 7) 7 < 7).
    { rewrite Z.quot_div_nonneg by lia.
      split; [apply Z.div_pos; lia | apply Z.div_lt_upper_bound; lia]. }
    assert (Hr7 : 0 ≤ 6 - Z.rem i 7 ≤ 6).
    { rewrite Z.rem_mod_nonneg by lia.
      pose proof (Z.mod_pos_bound i 7 ltac:(lia)). lia. }
    unfold TalkerAlias.movebit, index.
    destruct (Z.ltb_spec (Z.quot i 8) 0) as [? | _]; [lia |].
    destruct (lookup_lt_is_Some_2 [d0; d1; d2; d3; d4; d5; d6]
                (Z.to_nat (Z.quot i 8)) ltac:(simpl; lia)) as [sb ->].
    cbn [mbind result_bind].
    destruct (Z.ltb_spec (Z.quot (i - 7) 7) 0) as [? | _]; [lia |].
    destruct (lookup_lt_is_Some_2 out (Z.to_nat (Z.quot (i - 7) 7))
                ltac:(lia)) as [db Hdb].
    rewrite Hdb. cbn [mbind result_bind].
    assert (Hdbs : 0 ≤ db < 128).
    { eapply (proj1 (Forall_lookup _ _) Hos). exact Hdb. }
    assert (Hbit : ∀ k, 0 ≤ k ≤ 6 →
              0 ≤ Z.lor db (uint8 (Z.shiftl 1 (uint8 k))) < 128).
    { intros k Hk.
      assert (Hcases : db < 128) by lia.
      assert (k = 0 ∨ k = 1 ∨ k = 2 ∨ k = 3 ∨ k = 4 ∨ k = 5 ∨ k = 6) by lia.
      assert (Hpow : 0 ≤ uint8 (Z.shiftl 1 (uint8 k)) < 2 ^ 7)
        by (repeat (destruct H as [-> | H]; [vm_compute; split; congruence |]);
            subst k; vm_compute; split; congruence).
      split.
      - apply Z.lor_nonneg. lia.
      - change 128 with (2 ^ 7).
        destruct (Z.eq_dec (Z.lor db (uint8 (Z.shiftl 1 (uint8 k)))) 0)
          as [-> | Hnz]; [reflexivity |].
        apply Z.log2_lt_pow2; [pose proof (proj2 (Z.lor_nonneg db _)
                                 (conj (proj1 Hdbs) (proj1 Hpow))); lia |].
        rewrite Z.log2_lor by lia.
        apply Z.max_lub_lt.
        + destruct (Z.eq_dec db 0) as [-> | ?]; [reflexivity |].
          apply Z.log2_lt_pow2; lia.
        + destruct (Z.eq_dec (uint8 (Z.shiftl 1 (uint8 k))) 0) as [-> | ?];
            [reflexivity |].
          apply Z.log2_lt_pow2; lia. }
    destruct (1 <=? Z.land (Z.shiftr sb (uint8 (7 - Z.rem i 8)))
                       TalkerAlias.B00000001);
      eexists; (split; [reflexivity |]); unfold store;
      (split; [by rewrite length_insert |]);
      apply Forall_insert; try exact Hos.
    + apply Hbit. exact Hr7.
    + rewrite Z.shiftl_0_l. change (uint8 0) with 0. rewrite Z.land_0_r. lia.
  - split; [reflexivity |]. repeat constructor; lia.
  - eexists. split; [reflexivity |]. by split.
Qed.

(** ** The DMR frame codec *)

Lemma testbit_uint8 (x n : Z) :
  Z.testbit (uint8 x) n = if n <? 8 then Z.testbit x n else false.
Proof.
  unfold uint8. change 256 with (2 ^ 8).
  destruct (Z.ltb_spec n 8) as [Hlt|Hge].
  - destruct (Z.lt_ge_cases n 0) as [Hneg|Hpos].
    + by rewrite !Z.testbit_neg_r.
    + apply Z.mod_pow2_bits_low. lia.
  - apply Z.mod_pow2_bits_high. lia.
Qed.

Lemma testbit_above (x k n : Z) : 0 ≤ x < 2 ^ k → k ≤ n → Z.testbit x n = false.
Proof.
  intros [Hx0 Hxk] Hkn.
  destruct (Z.eq_dec x 0) as [->|Hne]; [apply Z.bits_0 |].
  apply Z.bits_above_log2; [lia |].
  assert (Z.log2 x < k); [| lia].
  apply Z.log2_lt_pow2; lia.
Qed.

Lemma testbit_shiftl_uint8_shiftr (x k n : Z) :
  0 ≤ k → 0 ≤ n →
  Z.testbit (Z.shiftl (uint8 (Z.shiftr x k)) k) n =
  if (k <=? n) && (n <? k + 8) then Z.testbit x n else false.
Proof.
  intros Hk Hn. rewrite Z.shiftl_spec by lia. rewrite testbit_uint8.
  destruct (Z.leb_spec k n) as [Hle|Hgt]; simpl.
  - rewrite Z.shiftr_spec by lia.
    replace (n - k + k) with n by lia.
    destruct (Z.ltb_spec (n - k) 8), (Z.ltb_spec n (k + 8)); auto; lia.
  - rewrite Z.testbit_neg_r by lia. by destruct (n - k <? 8).
Qed.

Lemma be24 (x : Z) : 0 ≤ x < 2 ^ 24 →
  Z.lor (Z.lor (Z.shiftl (uint8 (Z.shiftr x 16)) 16)
               (Z.shiftl (uint8 (Z.shiftr x 8)) 8)) (uint8 x) = x.
Proof.
  intros Hx. apply Z.bits_inj'. intros n Hn.
  rewrite !Z.lor_spec, !testbit_shiftl_uint8_shiftr, testbit_uint8 by lia.
  destruct (Z.lt_ge_cases n 24) as [Hlt|Hge].
  - repeat match goal with
    | |- context [?a <=? ?b] => destruct (Z.leb_spec a b)
    | |- context [?a <? ?b] => destruct (Z.ltb_spec a b)
    end; simpl; try lia; by rewrite ?orb_false_r.
  - rewrite (testbit_above x 24 n) by lia.
    repeat match goal with
    | |- context [?a <=? ?b] => destruct (Z.leb_spec a b)
    | |- context [?a <? ?b] => destruct (Z.ltb_spec a b)
    end; simpl; try lia; auto.
Qed.

Lemma be32 (x : Z) : 0 ≤ x < 2 ^ 32 →
  Z.lor (Z.lor (Z.lor (Z.shiftl (uint8 (Z.shiftr x 24)) 24)
                      (Z.shiftl (uint8 (Z.shiftr x 16)) 16))
               (Z.shiftl (uint8 (Z.shiftr x 8)) 8)) (uint8 x) = x.
Proof.
  intros Hx. apply Z.bits_inj'. intros n Hn.
  rewrite !Z.lor_spec, !testbit_shiftl_uint8_shiftr, testbit_uint8 by lia.
  destruct (Z.lt_ge_cases n 32) as [Hlt|Hge].
  - repeat match goal with
    | |- context [?a <=? ?b] => destruct (Z.leb_spec a b)
    | |- context [?a <? ?b] => destruct (Z.ltb_spec a b)
    end; simpl; try lia; by rewrite ?orb_false_r.
  - rewrite (testbit_above x 32 n) by lia.
    repeat match goal with
    | |- context [?a <=? ?b] => destruct (Z.leb_spec a b)
    | |- context [?a <? ?b] => destruct (Z.ltb_spec a b)
    end; simpl; try lia; auto.
Qed.

Lemma uint8_id (x : Z) : 0 ≤ x < 256 → uint8 x = x.
Proof. intros Hx. unfold uint8. apply Z.mod_small. lia. Qed.

Section Frame.
Context `{!DmrModule}.

Ltac frame_cbv :=
  cbv -[Z.lor Z.land Z.shiftl Z.shiftr uint8 Z.eqb Z.sub Z.add
        VoiceBurstA VoiceBurstB VoiceBurstC VoiceBurstD VoiceBurstE
        VoiceBurstF].

(** The packed byte, written and read back: the three ways [buildData]
    fills it, for one-bit timeslot and call type. *)
Lemma packed_burst (ts ct k : Z) :
  (ts = 0 ∨ ts = 1) → (ct = 0 ∨ ct = 1) → 1 ≤ k ≤ 5 →
  let b := Z.lor (Z.lor (Z.lor (uint8 (Z.shiftl (Z.land ts 1) 7))
                               (uint8 (Z.shiftl (Z.land ct 1) 6)))
                        (uint8 (Z.shiftl 0 4)))
                 (uint8 k) in
  Z.land (Z.shiftr b 4) 3 = 0 ∧ Z.land b 15 = k ∧
  Z.land (Z.shiftr b 7) 1 = ts ∧ Z.land (Z.shiftr b 6) 1 = ct.
Proof.
  intros [-> | ->] [-> | ->] Hk;
    assert (k = 1 ∨ k = 2 ∨ k = 3 ∨ k = 4 ∨ k = 5) as Hcases by lia;
    destruct Hcases as [-> | [-> | [-> | [-> | ->]]]];
    vm_compute; auto.
Qed.

Lemma packed_sync_A (ts ct : Z) :
  (ts = 0 ∨ ts = 1) → (ct = 0 ∨ ct = 1) →
  let b := Z.lor (Z.lor (uint8 (Z.shiftl (Z.land ts 1) 7))
                        (uint8 (Z.shiftl (Z.land ct 1) 6)))
                 (uint8 (Z.shiftl 1 4)) in
  Z.land (Z.shiftr b 4) 3 = 1 ∧ Z.land b 15 = 0 ∧
  Z.land (Z.shiftr b 7) 1 = ts ∧ Z.land (Z.shiftr b 6) 1 = ct.
Proof. intros [-> | ->] [-> | ->]; vm_compute; auto. Qed.

Lemma packed_data (ts ct dt : Z) :
  (ts = 0 ∨ ts = 1) → (ct = 0 ∨ ct = 1) → 0 ≤ dt < 16 →
  let b := Z.lor (Z.lor (Z.lor (uint8 (Z.shiftl (Z.land ts 1) 7))
                               (uint8 (Z.shiftl (Z.land ct 1) 6)))
                        (uint8 (Z.shiftl 2 4)))
                 dt in
  Z.land (Z.shiftr b 4) 3 = 2 ∧ Z.land b 15 = dt ∧
  Z.land (Z.shiftr b 7) 1 = ts ∧ Z.land (Z.shiftr b 6) 1 = ct.
Proof.
  intros [-> | ->] [-> | ->] Hdt;
    assert (dt = 0 ∨ dt = 1 ∨ dt = 2 ∨ dt = 3 ∨ dt = 4 ∨ dt = 5 ∨ dt = 6 ∨
            dt = 7 ∨ dt = 8 ∨ dt = 9 ∨ dt = 10 ∨ dt = 11 ∨ dt = 12 ∨
            dt = 13 ∨ dt = 14 ∨ dt = 15) as Hcases by lia;
    repeat (destruct Hcases as [-> | Hcases]; [vm_compute; auto |]);
    subst dt; vm_compute; auto.
Qed.

(** C4. Decoding an encoded valid packet succeeds and gives the packet
    back with its repeater id set to the one encoded: sequence, source
    and destination ids, timeslot, call type, stream id, data type, BER,
    RSSI and the 33 payload bytes are all preserved. The data-type
    enumeration is that of the external module, with the bursts A to F
    in order. *)
Theorem DMR_frame_roundtrip (p : Packet.t) (rid : Z) :
  burst_order → valid_packet p → 0 ≤ rid < 2 ^ 32 →
  parseData (buildData p rid) = Ok (with_RepeaterID rid p).
Proof.
  intros (HA0 & HF & HB & HC & HD & HE & HFv)
         (Hsq & Hsrc & Hdst & Hts & Hct & Hsid & Hber & Hrssi & Hlen & Hdt) Hrid.
  destruct p as [sq src dst r ts ct sid dt ber rssi data].
  cbn [Packet.Sequence Packet.SrcID Packet.DstID Packet.RepeaterID
       Packet.Timeslot Packet.CallType Packet.StreamID Packet.DataType
       Packet.BER Packet.RSSI Packet.Data] in *.
  do 33 (destruct data as [|? data]; [discriminate Hlen |]).
  destruct data; [| discriminate Hlen]. clear Hlen.
  unfold with_RepeaterID, buildData, parseData.
  cbn [Packet.Sequence Packet.SrcID Packet.DstID Packet.RepeaterID
       Packet.Timeslot Packet.CallType Packet.StreamID Packet.DataType
       Packet.BER Packet.RSSI Packet.Data].
  assert (Hbf : (dt =? VoiceBurstB) || (dt =? VoiceBurstC)
                || (dt =? VoiceBurstD) || (dt =? VoiceBurstE)
                || (dt =? VoiceBurstF) = true
                ∧ 1 ≤ dt - VoiceBurstA ≤ 5
              ∨ (dt =? VoiceBurstB) || (dt =? VoiceBurstC)
                || (dt =? VoiceBurstD) || (dt =? VoiceBurstE)
                || (dt =? VoiceBurstF) = false
                ∧ (dt = VoiceBurstA ∨ dt ≠ VoiceBurstA ∧ 0 ≤ dt < 16)).
  { unfold is_burst in Hdt.
    repeat match goal with
    | |- context [dt =? ?c] => destruct (Z.eqb_spec dt c)
    end; simpl; lia. }
  destruct Hbf as [[-> Hk] | [-> HAd]].
  - frame_cbv.
    destruct (packed_burst ts ct (dt - VoiceBurstA) Hts Hct Hk)
      as (Hkind & Hlow & Hslot & Hcall).
    cbv zeta in Hkind, Hlow, Hslot, Hcall.
    rewrite Hkind, Hlow, Hslot, Hcall. simpl.
    rewrite be24, be24, be32, be32 by assumption.
    rewrite !uint8_id by lia.
    do 2 f_equal. lia.
  - destruct HAd as [-> | [Hne Hlt]].
    + rewrite Z.eqb_refl. frame_cbv.
      destruct (packed_sync_A ts ct Hts Hct) as (Hkind & Hlow & Hslot & Hcall).
      cbv zeta in Hkind, Hlow, Hslot, Hcall.
      rewrite Hkind, Hlow, Hslot, Hcall. simpl.
      rewrite be24, be24, be32, be32 by assumption.
      rewrite !uint8_id by lia.
      do 2 f_equal. lia.
    + destruct (Z.eqb_spec dt VoiceBurstA) as [Heq | _]; [contradiction |].
      frame_cbv.
      destruct (packed_data ts ct dt Hts Hct Hlt)
        as (Hkind & Hlow & Hslot & Hcall).
      cbv zeta in Hkind, Hlow, Hslot, Hcall.
      rewrite Hkind, Hlow, Hslot, Hcall. simpl.
      rewrite be24, be24, be32, be32 by assumption.
      rewrite !uint8_id by lia.
      reflexivity.
Qed.

End Frame.

Lemma DMR_frame_roundtrip_witness :
  @parseData sample_dmr (@buildData sample_dmr sample_packet 204099) =
  Ok (with_RepeaterID 204099 sample_packet).
Proof.
  apply (@DMR_frame_roundtrip sample_dmr sample_packet 204099).
  - unfold burst_order. simpl. lia.
  - unfold valid_packet, is_burst. simpl. lia.
  - lia.
Defined.

(** ** Running the endpoint's methods *)

Lemma runs_ret {A : Type} (a : A) (w : World) : runs (mret a) w a w.
Proof. reflexivity. Qed.

Lemma runs_bind {A B : Type} (m : M A) (f : A → M B) (w w1 w2 : World)
    (a : A) (b : B) :
  runs m w a w1 → runs (f a) w1 b w2 → runs (m ≫= f) w b w2.
Proof.
  unfold runs. intros Hm Hf.
  change ((m ≫= f) w) with (match m w with
                            | Some (a, w') => f a w'
                            | None => None
                            end).
  by rewrite Hm.
Qed.

Lemma runs_bind_inv {A B : Type} (m : M A) (f : A → M B) (w w2 : World)
    (b : B) :
  runs (m ≫= f) w b w2 → ∃ a w1, runs m w a w1 ∧ runs (f a) w1 b w2.
Proof.
  unfold runs.
  change ((m ≫= f) w) with (match m w with
                            | Some (a, w') => f a w'
                            | None => None
                            end).
  destruct (m w) as [[a w1]|]; [| discriminate].
  intros Hf. by exists a, w1.
Qed.

Lemma bind_panics {A B : Type} (m : M A) (f : A → M B) (w : World) :
  m w = None → (m ≫= f) w = None.
Proof.
  intros Hm.
  change ((m ≫= f) w) with (match m w with
                            | Some (a, w') => f a w'
                            | None => None
                            end).
  by rewrite Hm.
Qed.

Lemma bind_runs_eq {A B : Type} (m : M A) (f : A → M B) (w w1 : World) (a : A) :
  runs m w a w1 → (m ≫= f) w = f a w1.
Proof.
  unfold runs. intros Hm.
  change ((m ≫= f) w) with (match m w with
                            | Some (a, w') => f a w'
                            | None => None
                            end).
  by rewrite Hm.
Qed.

Lemma runs_get (w : World) : runs get w w w.
Proof. reflexivity. Qed.

Lemma runs_deref (ptr : nat) (o : Peer.t) (w : World) :
  heap w !! ptr = Some o → runs (deref ptr) w o w.
Proof. unfold runs, deref. by intros ->. Qed.

Lemma runs_modify (ptr : nat) (f : Peer.t → Peer.t) (o : Peer.t) (w : World) :
  heap w !! ptr = Some o → runs (modify ptr f) w () (upd ptr f w).
Proof. unfold runs, modify. by intros ->. Qed.

Lemma runs_modify_h (f : Homebrew.t → Homebrew.t) (w : World) :
  runs (modify_h f) w () (upd_h f w).
Proof. reflexivity. Qed.

Lemma runs_eval {A : Type} (r : result A) (a : A) (w : World) :
  r = Ok a → runs (eval r) w a w.
Proof. by intros ->. Qed.

Lemma heap_upd_eq (ptr : nat) (f : Peer.t → Peer.t) (o : Peer.t) (w : World) :
  heap w !! ptr = Some o → heap (upd ptr f w) !! ptr = Some (f o).
Proof. intros Ho. unfold upd; simpl. by rewrite list_lookup_alter_eq, Ho. Qed.

Lemma heap_upd_ne (ptr q : nat) (f : Peer.t → Peer.t) (w : World) :
  ptr ≠ q → heap (upd ptr f w) !! q = heap w !! q.
Proof. intros Hne. unfold upd; simpl. by rewrite list_lookup_alter_ne. Qed.

Lemma runs_WriteToPeer (env : Env) (b : list Z) (ptr : nat) (o : Peer.t)
    (w : World) :
  heap w !! ptr = Some o →
  runs (WriteToPeer env b (Some ptr)) w
    (if WriteTo_fails env b (Peer.Addr o) then Some ErrConn else None)
    (push_wire b (Peer.Addr o)
       (upd ptr (Peer.upd_Last (Last.set_PacketSent (now env))) w)).
Proof.
  intros Ho. unfold WriteToPeer.
  eapply runs_bind; [eapply runs_modify; exact Ho |].
  eapply runs_bind; [eapply runs_deref; apply heap_upd_eq; exact Ho |].
  reflexivity.
Qed.
(** ** Slices of a datagram *)

Lemma slice_to_elts (d : datagram) (n : nat) :
  (n ≤ len d)%nat → slice_to d n = Ok (take n (elts d)).
Proof.
  intros Hn. unfold slice_to, cap, len in *.
  destruct (Nat.leb_spec n (length (elts d) + length (spare d))) as [_|Hgt];
    [| lia].
  by rewrite take_app_le.
Qed.

Lemma slice_elts (d : datagram) (lo hi : nat) :
  (lo ≤ hi)%nat → (hi ≤ len d)%nat →
  slice d lo hi = Ok (take (hi - lo) (drop lo (elts d))).
Proof.
  intros Hlo Hhi. unfold slice, cap, len in *.
  destruct (Nat.leb_spec lo hi) as [_|Hgt]; [| lia].
  destruct (Nat.leb_spec hi (length (elts d) + length (spare d))) as [_|Hgt];
    [| lia].
  simpl. f_equal. rewrite drop_app_le by lia.
  rewrite take_app_le; [done |]. rewrite length_drop. lia.
Qed.

Lemma slice_from_elts (d : datagram) (lo : nat) :
  (lo ≤ len d)%nat → slice_from d lo = Ok (drop lo (elts d)).
Proof.
  intros Hlo. unfold slice_from.
  by destruct (Nat.leb_spec lo (len d)) as [_|Hgt]; [| lia].
Qed.

Lemma runs_case_verb {A : Type} (d : datagram) (n : nat) (verb : list Z)
    (body rest : M A) (w w' : World) (a : A) :
  (n ≤ len d)%nat →
  runs (if bytes_Equal (take n (elts d)) verb then body else rest) w a w' →
  runs (case_verb d n verb body rest) w a w'.
Proof.
  intros Hn Hrun. unfold case_verb.
  eapply runs_bind; [apply runs_eval, slice_to_elts, Hn |]. exact Hrun.
Qed.

Ltac heap_lookup H :=
  cbn [heap push_wire upd_h upd push_heap];
  rewrite ?list_lookup_alter_eq; rewrite H; reflexivity.

Section Handshake.
Context `{!DmrModule, !GoLib, !PeerMethods}.

(** C3. In state None an outgoing peer does not accept [MSTACK‖nonce]:
    the datagram only stamps the time of the last packet received.
    Nothing is sent, the token is not derived and the peer stays in
    None. Only [RPTACK‖nonce] starts the key exchange. *)
Theorem outgoing_none_ignores_MSTACK (env : Env) (w : World) (remote : UDPAddr)
    (ptr : nat) (o : Peer.t) (d : datagram) (nonce : list Z) :
  Homebrew.Peer (h w) !! remote = Some ptr →
  heap w !! ptr = Some o →
  Peer.Incoming o = false →
  Peer.Status o = AuthNone →
  elts d = MasterACK ++ nonce →
  length nonce = 4%nat →
  ∃ w', runs (handle env remote d) w None w' ∧
        wire w' = wire w ∧
        ∃ o', heap w' !! ptr = Some o' ∧
              Peer.Status o' = AuthNone ∧ Peer.Token o' = Peer.Token o.
Proof.
  intros Hreg Ho Hout Hst Hd Hlen.
  assert (Hl : len d = 10%nat).
  { unfold len. rewrite Hd, length_app, Hlen. reflexivity. }
  eexists. split; [| split].
  - unfold handle.
    eapply runs_bind.
    { unfold getPeerByAddr. eapply runs_bind; [apply runs_get |]. apply runs_ret. }
    rewrite Hreg. unfold handle_peer. rewrite Hl. cbn [Nat.ltb Nat.leb].
    eapply runs_bind; [eapply runs_modify; exact Ho |].
    eapply runs_bind; [eapply runs_deref; heap_lookup Ho |].
    cbn [Peer.upd_Last Peer.Status Peer.Incoming]. rewrite Hst, Hout.
    cbn [bool_decide decide_rel negb].
    simpl bool_decide. cbv iota.
    apply runs_case_verb; [lia |].
    rewrite Hd. change (bytes_Equal (take 4 (MasterACK ++ nonce)) DMRData) with false.
    cbv iota.
    unfold handle_auth_outgoing.
    eapply runs_bind; [eapply runs_deref; heap_lookup Ho |].
    eapply runs_bind; [apply runs_get |].
    eapply runs_bind; [apply runs_eval, slice_elts; lia |].
    cbn [Peer.upd_Last Peer.Status]. rewrite Hst.
    apply runs_case_verb; [lia |].
    rewrite Hd. change (bytes_Equal (take 6 (MasterACK ++ nonce)) RepeaterACK) with false.
    cbv iota.
    apply runs_case_verb; [lia |].
    rewrite Hd. change (bytes_Equal (take 6 (MasterACK ++ nonce)) MasterNAK) with false.
    cbv iota. apply runs_ret.
  - reflexivity.
  - eexists. split; [heap_lookup Ho |]. split; [exact Hst | reflexivity].
Qed.

Lemma runs_getPeerByAddr (remote : UDPAddr) (w : World) :
  runs (getPeerByAddr remote) w (Homebrew.Peer (h w) !! remote) w.
Proof.
  unfold getPeerByAddr. eapply runs_bind; [apply runs_get |]. apply runs_ret.
Qed.

(** The accepted spelling: [RPTACK‖nonce] moves an outgoing peer from
    None to Begin, stores the token derived from the nonce and sends
    [RPTK‖id‖token]. *)
Lemma outgoing_none_accepts_RPTACK (env : Env) (w : World) (remote : UDPAddr)
    (ptr : nat) (o : Peer.t) (d : datagram) (nonce : list Z) :
  Homebrew.Peer (h w) !! remote = Some ptr →
  heap w !! ptr = Some o →
  Peer.Incoming o = false →
  Peer.Status o = AuthNone →
  elts d = RepeaterACK ++ nonce →
  length nonce = 4%nat →
  ∃ e w', runs (handle env remote d) w e w' ∧
        wire w' = wire w ++
          [((RepeaterKey ++ Homebrew.id (h w))
              ++ token_of (Peer.AuthKey o) nonce, Peer.Addr o)] ∧
        ∃ o', heap w' !! ptr = Some o' ∧
              Peer.Status o' = AuthBegin ∧
              Peer.Token o' = token_of (Peer.AuthKey o) nonce.
Proof.
  intros Hreg Ho Hout Hst Hd Hlen.
  assert (Hl : len d = 10%nat).
  { unfold len. rewrite Hd, length_app, Hlen. reflexivity. }
  assert (Hn : take 4 (drop 6 (elts d)) = nonce).
  { rewrite Hd. change (drop 6 (RepeaterACK ++ nonce)) with nonce.
    apply take_ge. lia. }
  do 2 eexists. split; [| split].
  - unfold handle.
    eapply runs_bind; [apply runs_getPeerByAddr |].
    rewrite Hreg. unfold handle_peer. rewrite Hl. cbn [Nat.ltb Nat.leb].
    eapply runs_bind; [eapply runs_modify; exact Ho |].
    eapply runs_bind; [eapply runs_deref; heap_lookup Ho |].
    cbn [Peer.upd_Last Peer.Status Peer.Incoming]. rewrite Hst, Hout.
    simpl bool_decide. cbv iota.
    apply runs_case_verb; [lia |].
    rewrite Hd.
    change (bytes_Equal (take 4 (RepeaterACK ++ nonce)) DMRData) with false.
    cbv iota.
    unfold handle_auth_outgoing.
    eapply runs_bind; [eapply runs_deref; heap_lookup Ho |].
    eapply runs_bind; [apply runs_get |].
    eapply runs_bind; [apply runs_eval, slice_elts; lia |].
    cbn [Peer.upd_Last Peer.Status]. rewrite Hst.
    apply runs_case_verb; [lia |].
    rewrite Hd.
    change (bytes_Equal (take 6 (RepeaterACK ++ nonce)) RepeaterACK) with true.
    cbv iota.
    eapply runs_bind; [eapply runs_modify; heap_lookup Ho |].
    eapply runs_bind; [apply runs_eval, slice_elts; lia |].
    eapply runs_bind; [eapply runs_modify; heap_lookup Ho |].
    unfold handleAuth.
    eapply runs_bind; [eapply runs_deref; heap_lookup Ho |].
    cbn [Peer.UpdateToken Peer.set_Token Peer.set_Status Peer.upd_Last
         Peer.Incoming Peer.Status Peer.Token Peer.AuthKey].
    rewrite Hout. cbn [negb].
    eapply runs_bind; [eapply runs_modify; heap_lookup Ho |].
    eapply runs_bind; [apply runs_get |].
    eapply runs_WriteToPeer. heap_lookup Ho.
  - cbn [wire push_wire upd upd_h h Peer.Addr Peer.upd_Last Peer.set_Status
         Peer.UpdateToken Peer.set_Token Peer.AuthKey].
    change (10 - 6)%nat with 4%nat. by rewrite Hn.
  - eexists. split; [heap_lookup Ho |]. split; [reflexivity |].
    cbn [Peer.Token Peer.upd_Last Peer.UpdateToken Peer.set_Token
         Peer.set_Status Peer.AuthKey].
    change (10 - 6)%nat with 4%nat. by rewrite Hn.
Qed.

(** ** The incoming handshake *)




End Handshake.

(** ** Witnesses of the handshake properties on the sample endpoint *)

Lemma outgoing_none_ignores_MSTACK_witness :
  ∃ w', runs (@handle sample_dmr plain_lib sample_peer sample_env
                "203.0.113.5:62030"
                (received (MasterACK ++ [222; 173; 190; 239])))
             sample_world None w' ∧
        wire w' = [].
Proof.
  destruct (@outgoing_none_ignores_MSTACK sample_dmr plain_lib sample_peer
              sample_env sample_world "203.0.113.5:62030" 0 sample_master
              (received (MasterACK ++ [222; 173; 190; 239]))
              [222; 173; 190; 239]
              eq_refl eq_refl eq_refl eq_refl eq_refl eq_refl)
    as (w' & Hrun & Hwire & _).
  exists w'. split; [exact Hrun | exact Hwire].
Defined.


(** ** Short datagrams *)

Lemma unpackRepeaterID_short (data : list Z) :
  (length data < 4)%nat → unpackRepeaterID data = Panic.
Proof.
  intros Hlen. unfold unpackRepeaterID.
  destruct data as [|d0 [|d1 [|d2 [|d3 data]]]]; simpl in *;
    try reflexivity; lia.
Qed.

Section Short.
Context `{!DmrModule, !GoLib, !PeerMethods}.

(** A datagram shorter than 8 bytes from the address of a linked peer is
    dropped: nothing is sent and nothing changes. *)
Lemma short_datagram_known_peer_dropped (env : Env) (w : World)
    (remote : UDPAddr) (ptr : nat) (d : datagram) :
  Homebrew.Peer (h w) !! remote = Some ptr →
  (len d < 8)%nat →
  runs (handle env remote d) w None w.
Proof.
  intros Hreg Hlen. unfold handle.
  eapply runs_bind; [apply runs_getPeerByAddr |].
  rewrite Hreg. unfold handle_peer.
  destruct (Nat.ltb_spec (len d) 8) as [_|Hge]; [| lia].
  apply runs_ret.
Qed.

(** So is one from an unknown address whose first four bytes are not a
    login. *)
Lemma short_datagram_unknown_dropped (env : Env) (w : World)
    (remote : UDPAddr) (d : datagram) (pre : list Z) :
  Homebrew.Peer (h w) !! remote = None →
  slice_to d 4 = Ok pre → pre ≠ RepeaterLogin →
  runs (handle env remote d) w None w.
Proof.
  intros Hreg Hpre Hne. unfold handle.
  eapply runs_bind; [apply runs_getPeerByAddr |].
  rewrite Hreg. unfold case_verb.
  eapply runs_bind; [apply runs_eval, Hpre |].
  unfold bytes_Equal. rewrite bool_decide_eq_false_2 by exact Hne.
  apply runs_ret.
Qed.

(** C6. A short datagram is not always dropped: a login verb followed by
    fewer than four bytes, from an address with no linked peer, reaches
    [unpackRepeaterID(data[4:])] before the length check and the handler
    panics on the index. *)
Theorem short_login_from_unknown_address_panics (env : Env) (w : World)
    (remote : UDPAddr) (d : datagram) (rest : list Z) :
  Homebrew.Peer (h w) !! remote = None →
  elts d = RepeaterLogin ++ rest →
  (length rest < 4)%nat →
  (len d < 8)%nat ∧ handle env remote d w = None.
Proof.
  intros Hreg Hd Hrest.
  assert (Hl : len d = (4 + length rest)%nat).
  { unfold len. rewrite Hd, length_app. reflexivity. }
  split; [lia |].
  unfold handle.
  rewrite (bind_runs_eq _ _ _ _ _ (runs_getPeerByAddr remote w)).
  rewrite Hreg. unfold case_verb.
  rewrite (bind_runs_eq _ _ w w (take 4 (elts d)))
    by (apply runs_eval, slice_to_elts; lia).
  rewrite Hd.
  change (bytes_Equal (take 4 (RepeaterLogin ++ rest)) RepeaterLogin) with true.
  cbv iota.
  rewrite (bind_runs_eq _ _ w w rest).
  - apply bind_panics. by rewrite unpackRepeaterID_short.
  - apply runs_eval. rewrite slice_from_elts by lia. by rewrite Hd.
Qed.

End Short.

Lemma short_login_from_unknown_address_panics_witness :
  @handle sample_dmr plain_lib sample_peer sample_env "192.0.2.9:4000"
    (received (bytes_of "RPTL")) sample_world = None.
Proof.
  apply (@short_login_from_unknown_address_panics sample_dmr plain_lib
           sample_peer sample_env sample_world "192.0.2.9:4000"
           (received (bytes_of "RPTL")) []);
    [reflexivity | reflexivity | simpl; lia].
Defined.

(** ** Link *)

Section Linking.
Context `{!DmrModule, !GoLib, !PeerMethods}.

(** What [Link] does to a peer with an address and a key: the world in
    which the peer is registered, and how the call goes on from it. *)
Lemma Link_registers (env : Env) (w : World) (ptr : nat) (o : Peer.t)
    (addr : UDPAddr) :
  heap w !! ptr = Some o →
  Peer.Addr o = Some addr →
  Peer.AuthKey o ≠ [] →
  ∃ w1,
    heap w1 !! ptr =
      Some (Peer.set_id (packRepeaterID (Peer.ID o))
              (Peer.upd_Last reset_four o)) ∧
    (∀ q, q ≠ ptr → heap w1 !! q = heap w !! q) ∧
    Homebrew.Peer (h w1) = <[addr := ptr]> (Homebrew.Peer (h w)) ∧
    Homebrew.PeerID (h w1) = <[Peer.ID o := ptr]> (Homebrew.PeerID (h w)) ∧
    wire w1 = wire w ∧
    Link env (Some ptr) w =
      if Peer.Incoming o then Some (None, w1) else handleAuth env ptr w1.
Proof.
  intros Ho Haddr Hkey.
  eexists. split; [| split; [| split; [| split; [| split]]]]; cycle 5.
  - unfold Link.
    rewrite (bind_runs_eq _ _ _ _ _ (runs_deref ptr o w Ho)).
    rewrite Haddr.
    destruct (Nat.eqb_spec (length (Peer.AuthKey o)) 0) as [Hz | _].
    { destruct (Peer.AuthKey o); [contradiction | discriminate Hz]. }
    rewrite (bind_runs_eq _ _ _ _ _ (runs_modify ptr _ o w Ho)).
    erewrite bind_runs_eq by (eapply runs_modify; heap_lookup Ho).
    erewrite bind_runs_eq by (eapply runs_modify; heap_lookup Ho).
    erewrite bind_runs_eq by (eapply runs_modify; heap_lookup Ho).
    erewrite bind_runs_eq by (eapply runs_modify; heap_lookup Ho).
    erewrite bind_runs_eq by apply runs_modify_h.
    erewrite bind_runs_eq by apply runs_modify_h.
    destruct (Peer.Incoming o); reflexivity.
  - heap_lookup Ho.
  - intros q Hne. cbn [heap upd_h upd].
    by rewrite !list_lookup_alter_ne.
  - reflexivity.
  - reflexivity.
  - reflexivity.
Qed.


End Linking.



(** ** The configuration encoder and its argument *)

Section ConfigEffect.
Context `{!DmrModule, !GoLib, !PeerMethods}.

Ltac ltb_decide :=
  repeat match goal with
  | |- context [?a <? ?b] =>
      first [ rewrite (proj2 (Z.ltb_lt a b)) by lia
            | rewrite (proj2 (Z.ltb_ge a b)) by lia ]
  end.

Ltac colour_cases cc :=
  let Hc := fresh "Hc" in
  assert (Hc : cc < 1 ∨ 1 ≤ cc ≤ 15 ∨ 15 < cc) by lia;
  destruct Hc as [Hc | [Hc | Hc]]; ltb_decide; try lia; try reflexivity.

Lemma clamp_idempotent (c : RepeaterConfiguration.t) :
  clamp (clamp c) = clamp c.
Proof.
  unfold clamp. destruct c as [i cs rx tx pw cc la lo hg lc ds sl u sw pk].
  cbn [ID Callsign RXFreq TXFreq TXPower ColorCode Latitude Longitude Height
       Location Description Slots URL SoftwareID PackageID].
  f_equal.
  - destruct (Z.ltb_spec 99 pw); [reflexivity |].
    destruct (Z.ltb_spec 99 pw); [lia | reflexivity].
  - colour_cases cc.
  - destruct (Z.ltb_spec 4 sl); [reflexivity |].
    destruct (Z.ltb_spec 4 sl); [lia | reflexivity].
  - destruct (decide (sw = [])) as [-> | Hsw].
    + rewrite (bool_decide_eq_true_2 ([] = [])) by reflexivity.
      destruct (bool_decide (dmr_SoftwareID = [])) eqn:Hd; [| reflexivity].
      by apply bool_decide_eq_true_1 in Hd.
    + by rewrite !(bool_decide_eq_false_2 (sw = [])).
  - destruct (decide (pk = [])) as [-> | Hpk].
    + rewrite (bool_decide_eq_true_2 ([] = [])) by reflexivity.
      destruct (bool_decide (dmr_PackageID = [])) eqn:Hd; [| reflexivity].
      by apply bool_decide_eq_true_1 in Hd.
    + by rewrite !(bool_decide_eq_false_2 (pk = [])).
Qed.

(** A login accepted in Begin ([MSTACK] or [RPTACK]) encodes the
    endpoint's configuration, which keeps what the encoder wrote to it. *)
Lemma accepted_login_rewrites_Config (env : Env) (w : World)
    (remote : UDPAddr) (ptr : nat) (o : Peer.t) (d : datagram)
    (verb rest : list Z) :
  Homebrew.Peer (h w) !! remote = Some ptr →
  heap w !! ptr = Some o →
  Peer.Incoming o = false →
  Peer.Status o = AuthBegin →
  verb = MasterACK ∨ verb = RepeaterACK →
  elts d = verb ++ rest → (4 ≤ length rest)%nat →
  ∃ e w',
    runs (handle env remote d) w e w' ∧
    Homebrew.Config (h w') = (buildConfigData (Homebrew.Config (h w))).1 ∧
    wire w' = wire w ++
      [((buildConfigData (Homebrew.Config (h w))).2, Peer.Addr o)].
Proof.
  intros Hreg Ho Hout Hst Hverb Hd Hrest.
  assert (Hv : length verb = 6%nat) by (destruct Hverb as [-> | ->]; reflexivity).
  assert (Hl : (10 ≤ len d)%nat).
  { unfold len. rewrite Hd, length_app. lia. }
  assert (Hacc : ∀ e w',
    runs (accepted env ptr)
      (upd ptr (Peer.upd_Last (Last.set_PacketReceived (now env))) w) e w' →
    runs (handle env remote d) w e w').
  { intros e w' Hk. unfold handle.
    eapply runs_bind; [apply runs_getPeerByAddr |].
    rewrite Hreg. unfold handle_peer.
    destruct (Nat.ltb_spec (len d) 8) as [Hlt|_]; [lia |].
    eapply runs_bind; [eapply runs_modify; exact Ho |].
    eapply runs_bind; [eapply runs_deref; heap_lookup Ho |].
    cbn [Peer.upd_Last Peer.Status Peer.Incoming].
    rewrite Hst, Hout. simpl bool_decide. cbv iota.
    apply runs_case_verb; [lia |].
    replace (bytes_Equal (take 4 (elts d)) DMRData) with false
      by (rewrite Hd; destruct Hverb as [-> | ->]; reflexivity).
    unfold handle_auth_outgoing.
    eapply runs_bind; [eapply runs_deref; heap_lookup Ho |].
    eapply runs_bind; [apply runs_get |].
    eapply runs_bind; [apply runs_eval, slice_elts; lia |].
    cbn [Peer.upd_Last Peer.Status]. rewrite Hst.
    apply runs_case_verb; [lia |].
    destruct Hverb as [-> | ->].
    - replace (bytes_Equal (take 6 (elts d)) MasterACK) with true
        by (rewrite Hd; reflexivity).
      exact Hk.
    - replace (bytes_Equal (take 6 (elts d)) MasterACK) with false
        by (rewrite Hd; reflexivity).
      apply runs_case_verb; [lia |].
      replace (bytes_Equal (take 6 (elts d)) MasterNAK) with false
        by (rewrite Hd; reflexivity).
      apply runs_case_verb; [lia |].
      replace (bytes_Equal (take 6 (elts d)) RepeaterACK) with true
        by (rewrite Hd; reflexivity).
      exact Hk. }
  eexists _, _. split; [| split].
  - apply Hacc. unfold accepted.
    eapply runs_bind; [eapply runs_modify; heap_lookup Ho |].
    eapply runs_bind; [eapply runs_modify; heap_lookup Ho |].
    eapply runs_bind; [eapply runs_modify; heap_lookup Ho |].
    eapply runs_bind; [apply runs_get |].
    eapply runs_bind; [apply runs_modify_h |].
    eapply runs_WriteToPeer. heap_lookup Ho.
  - reflexivity.
  - reflexivity.
Qed.

(** C10. Encoding a configuration assigns to it: the colour code is
    forced into 1..15, TX power above 99 becomes 99, slots above 4
    become 4, and an empty software or package id becomes the module's
    default; every other field is left alone. A configuration with a
    field out of range is therefore changed by the call and stays so
    under further calls, and the endpoint's own configuration is the one
    changed when a login is accepted. *)
Theorem buildConfigData_mutates_its_argument (c : RepeaterConfiguration.t) :
  let c' := (buildConfigData c).1 in
  (1 ≤ ColorCode c' ≤ 15 ∧
   (ColorCode c < 1 → ColorCode c' = 1) ∧
   (15 < ColorCode c → ColorCode c' = 15) ∧
   (1 ≤ ColorCode c ≤ 15 → ColorCode c' = ColorCode c)) ∧
  TXPower c' = Z.min (TXPower c) 99 ∧
  Slots c' = Z.min (Slots c) 4 ∧
  SoftwareID c' = (if bool_decide (SoftwareID c = []) then dmr_SoftwareID
                   else SoftwareID c) ∧
  PackageID c' = (if bool_decide (PackageID c = []) then dmr_PackageID
                  else PackageID c) ∧
  (ID c' = ID c ∧ Callsign c' = Callsign c ∧ RXFreq c' = RXFreq c ∧
   TXFreq c' = TXFreq c ∧ Latitude c' = Latitude c ∧
   Longitude c' = Longitude c ∧ Height c' = Height c ∧
   Location c' = Location c ∧ Description c' = Description c ∧
   URL c' = URL c) ∧
  (out_of_range c → c' ≠ c) ∧
  (buildConfigData c').1 = c' ∧
  (∀ env w remote ptr o d rest,
     Homebrew.Config (h w) = c →
     Homebrew.Peer (h w) !! remote = Some ptr →
     heap w !! ptr = Some o →
     Peer.Incoming o = false →
     Peer.Status o = AuthBegin →
     elts d = MasterACK ++ rest → (4 ≤ length rest)%nat →
     ∃ e w', runs (handle env remote d) w e w' ∧
             Homebrew.Config (h w') = c').
Proof.
  intros c'. subst c'. unfold buildConfigData. cbn [fst].
  repeat split.
  - unfold clamp; cbn [ColorCode]. colour_cases (ColorCode c).
  - unfold clamp; cbn [ColorCode]. colour_cases (ColorCode c).
  - unfold clamp; cbn [ColorCode]. intros Hlt. colour_cases (ColorCode c).
  - unfold clamp; cbn [ColorCode]. intros Hlt. colour_cases (ColorCode c).
  - unfold clamp; cbn [ColorCode]. intros Hlt. colour_cases (ColorCode c).
  - unfold clamp; cbn [TXPower]. destruct (Z.ltb_spec 99 (TXPower c)); lia.
  - unfold clamp; cbn [Slots]. destruct (Z.ltb_spec 4 (Slots c)); lia.
  - intros Hout Heq.
    assert (Hcc : ColorCode (clamp c) = ColorCode c) by (by rewrite Heq).
    assert (Hpw : TXPower (clamp c) = TXPower c) by (by rewrite Heq).
    assert (Hsl : Slots (clamp c) = Slots c) by (by rewrite Heq).
    unfold clamp in Hcc, Hpw, Hsl. cbn [ColorCode TXPower Slots] in Hcc, Hpw, Hsl.
    unfold out_of_range in Hout.
    destruct (Z.ltb_spec 99 (TXPower c)); [lia |].
    destruct (Z.ltb_spec 4 (Slots c)); [lia |].
    revert Hcc. colour_cases (ColorCode c).
  - apply clamp_idempotent.
  - intros env w remote ptr o d rest Hc Hreg Ho Hout Hst Hd Hrest.
    destruct (accepted_login_rewrites_Config env w remote ptr o d MasterACK
                rest Hreg Ho Hout Hst (or_introl eq_refl) Hd Hrest)
      as (e & w' & Hrun & Hcfg & _).
    exists e, w'. split; [exact Hrun |]. by rewrite Hcfg, Hc.
Qed.

End ConfigEffect.

Lemma buildConfigData_mutates_its_argument_witness :
  ∃ e w',
    runs (@handle sample_dmr plain_lib sample_peer sample_env
            "203.0.113.5:62030"
            (received (MasterACK ++ packRepeaterID 204099)))
         (upd 0 (Peer.set_Status AuthBegin)
            (upd_h (set_HConfig
               {| ID := 204099; Callsign := bytes_of "PD0MZ";
                  RXFreq := 438200000; TXFreq := 430600000;
                  TXPower := 250; ColorCode := 0;
                  Latitude := 1112670208; Longitude := 1069547520;
                  Height := 12; Location := bytes_of "Norwich";
                  Description := []; Slots := 9; URL := [];
                  SoftwareID := []; PackageID := [] |}) sample_world))
         e w' ∧
    Homebrew.Config (h w') =
      {| ID := 204099; Callsign := bytes_of "PD0MZ";
         RXFreq := 438200000; TXFreq := 430600000;
         TXPower := 99; ColorCode := 1;
         Latitude := 1112670208; Longitude := 1069547520;
         Height := 12; Location := bytes_of "Norwich";
         Description := []; Slots := 4; URL := [];
         SoftwareID := bytes_of "go-dmr";
         PackageID := bytes_of "linux/amd64" |}.
Proof.
  pose proof (@buildConfigData_mutates_its_argument sample_dmr plain_lib
                sample_peer
                {| ID := 204099; Callsign := bytes_of "PD0MZ";
                   RXFreq := 438200000; TXFreq := 430600000;
                   TXPower := 250; ColorCode := 0;
                   Latitude := 1112670208; Longitude := 1069547520;
                   Height := 12; Location := bytes_of "Norwich";
                   Description := []; Slots := 9; URL := [];
                   SoftwareID := []; PackageID := [] |}) as Hall.
  cbv zeta in Hall.
  destruct Hall as (_ & _ & _ & _ & _ & _ & _ & _ & Hhandle).
  destruct (Hhandle sample_env
              (upd 0 (Peer.set_Status AuthBegin)
                 (upd_h (set_HConfig
                    {| ID := 204099; Callsign := bytes_of "PD0MZ";
                       RXFreq := 438200000; TXFreq := 430600000;
                       TXPower := 250; ColorCode := 0;
                       Latitude := 1112670208; Longitude := 1069547520;
                       Height := 12; Location := bytes_of "Norwich";
                       Description := []; Slots := 9; URL := [];
                       SoftwareID := []; PackageID := [] |}) sample_world))
              "203.0.113.5:62030"%string 0%nat
              (Peer.set_Status AuthBegin sample_master)
              (received (MasterACK ++ packRepeaterID 204099))
              (packRepeaterID 204099)
              eq_refl eq_refl eq_refl eq_refl eq_refl eq_refl
              ltac:(simpl; lia))
    as (e & w' & Hrun & Hcfg).
  exists e, w'. split; [exact Hrun |]. rewrite Hcfg. reflexivity.
Defined.

(** ** The configuration record, field by field *)

Lemma length_copy_at (dst src : list Z) (lo n : nat) :
  (lo + n ≤ length dst)%nat → length (copy_at dst lo n src) = length dst.
Proof.
  intros Hfit. unfold copy_at.
  rewrite !length_app, !length_take, length_drop. lia.
Qed.

Lemma length_store (dst : list Z) (i x : Z) :
  length (store dst i x) = length dst.
Proof. unfold store. apply length_insert. Qed.

Lemma field_copy_at_same (dst src : list Z) (lo n : nat) :
  (lo + n ≤ length dst)%nat → (n ≤ length src)%nat →
  field (copy_at dst lo n src) lo n = take n src.
Proof.
  intros Hfit Hsrc. unfold field, copy_at.
  rewrite Nat.min_l by exact Hsrc.
  rewrite drop_app_length' by (rewrite length_take; lia).
  rewrite take_app_length' by (rewrite length_take; lia).
  reflexivity.
Qed.

Lemma field_copy_at_other (dst src : list Z) (lo n lo' n' : nat) :
  (lo + n ≤ length dst)%nat → (n ≤ length src)%nat →
  (lo' + n' ≤ lo ∨ lo + n ≤ lo')%nat →
  field (copy_at dst lo n src) lo' n' = field dst lo' n'.
Proof.
  intros Hfit Hsrc Hdisj. unfold field, copy_at.
  rewrite Nat.min_l by exact Hsrc.
  apply list_eq. intros i.
  rewrite !lookup_take, !lookup_drop.
  destruct (decide (i < n')%nat) as [Hi | Hi]; [| reflexivity].
  destruct Hdisj as [Hbefore | Hafter].
  - rewrite lookup_app_l by (rewrite length_take; lia).
    rewrite lookup_take. destruct (decide (lo' + i < lo)%nat); [done | lia].
  - rewrite lookup_app_r by (rewrite length_take; lia).
    rewrite length_take, Nat.min_l by lia.
    rewrite lookup_app_r by (rewrite length_take; lia).
    rewrite length_take, Nat.min_l by lia.
    rewrite lookup_drop. f_equal. lia.
Qed.

Lemma field_store_other (dst : list Z) (i x : Z) (lo' n' : nat) :
  (Z.to_nat i < lo' ∨ lo' + n' ≤ Z.to_nat i)%nat →
  field (store dst i x) lo' n' = field dst lo' n'.
Proof.
  intros Hdisj. unfold field, store.
  apply list_eq. intros j.
  rewrite !lookup_take, !lookup_drop.
  destruct (decide (j < n')%nat) as [Hj | Hj]; [| reflexivity].
  apply list_lookup_insert_ne. lia.
Qed.

Lemma at_copy_at_other (dst src : list Z) (lo n j : nat) :
  (lo + n ≤ length dst)%nat → (n ≤ length src)%nat →
  (j < lo ∨ lo + n ≤ j)%nat →
  at_ (copy_at dst lo n src) j = at_ dst j.
Proof.
  intros Hfit Hsrc Hdisj.
  pose proof (field_copy_at_other dst src lo n j 1 Hfit Hsrc) as Hf.
  unfold at_. rewrite !list_lookup_total_alt.
  assert (Hl : ∀ l : list Z, l !! j = field l j 1 !! 0%nat).
  { intros l. unfold field. rewrite lookup_take, lookup_drop.
    destruct (decide (0 < 1)%nat); [| lia]. f_equal. lia. }
  rewrite (Hl (copy_at dst lo n src)), (Hl dst), Hf by lia. reflexivity.
Qed.

Lemma at_store_same (dst : list Z) (i : nat) (x : Z) :
  (i < length dst)%nat → at_ (store dst (Z.of_nat i) x) i = x.
Proof.
  intros Hi. unfold at_, store. rewrite Nat2Z.id.
  rewrite list_lookup_total_alt, list_lookup_insert_eq by exact Hi.
  reflexivity.
Qed.

Lemma at_store_other (dst : list Z) (i : Z) (j : nat) (x : Z) :
  Z.to_nat i ≠ j → at_ (store dst i x) j = at_ dst j.
Proof.
  intros Hne. unfold at_, store.
  rewrite !list_lookup_total_alt, list_lookup_insert_ne by exact Hne.
  reflexivity.
Qed.

Lemma copy_at_whole (data : list Z) (n : nat) :
  length data = n → copy_at (replicate n 0) 0 n data = data.
Proof.
  intros Hlen. unfold copy_at.
  rewrite Hlen, Nat.min_id. simpl.
  rewrite drop_ge by (rewrite length_replicate; lia).
  rewrite app_nil_r. apply take_ge. lia.
Qed.

(** *** Padded strings *)

Lemma TrimLeft_spaces (k : nat) (s : list Z) :
  TrimLeft (replicate k 32 ++ s) = TrimLeft s.
Proof. induction k as [|k IH]; [reflexivity | exact IH]. Qed.

Lemma TrimLeft_app_spaces (s : list Z) (k : nat) :
  TrimLeft (s ++ replicate k 32) =
  match TrimLeft s with
  | [] => []
  | t => t ++ replicate k 32
  end.
Proof.
  induction s as [|c s IH]; simpl.
  - rewrite <- (app_nil_r (replicate k 32)). by rewrite TrimLeft_spaces.
  - destruct (c =? 32); [exact IH | reflexivity].
Qed.

Lemma Trim_app_spaces (s : list Z) (k : nat) :
  Trim (s ++ replicate k 32) = Trim s.
Proof.
  unfold Trim. rewrite TrimLeft_app_spaces.
  destruct (TrimLeft s) as [|c t]; [reflexivity |].
  rewrite rev_app_distr.
  replace (rev (replicate k 32)) with (replicate k 32).
  - by rewrite TrimLeft_spaces.
  - symmetry. rewrite rev_alt. apply reverse_replicate.
Qed.

Lemma length_Sprintf_ls (w : nat) (s : list Z) :
  (w ≤ length (Sprintf_ls w s))%nat.
Proof. unfold Sprintf_ls. rewrite length_app, length_replicate. lia. Qed.

Lemma take_Sprintf_ls (w : nat) (s : list Z) :
  (length s ≤ w)%nat → take w (Sprintf_ls w s) = Sprintf_ls w s.
Proof.
  intros Hs. apply take_ge. unfold Sprintf_ls.
  rewrite length_app, length_replicate. lia.
Qed.

Lemma Trim_padded (w : nat) (s : list Z) :
  (length s ≤ w)%nat → Trim (take w (Sprintf_ls w s)) = Trim s.
Proof.
  intros Hs. rewrite take_Sprintf_ls by exact Hs.
  unfold Sprintf_ls. apply Trim_app_spaces.
Qed.

(** *** Decimal numbers *)

Lemma digits_value_app (acc : Z) (ds1 ds2 : list Z) :
  digits_value acc (ds1 ++ ds2) = digits_value (digits_value acc ds1) ds2.
Proof. unfold digits_value. apply foldl_app. Qed.

Lemma digits_value_zeros (k : nat) (ds : list Z) :
  digits_value 0 (replicate k 48 ++ ds) = digits_value 0 ds.
Proof. induction k as [|k IH]; [reflexivity | exact IH]. Qed.

Lemma digits_value_ge (acc : Z) (ds : list Z) :
  0 ≤ acc → Forall is_digit ds → acc ≤ digits_value acc ds.
Proof.
  intros Hacc Hds. revert acc Hacc.
  induction Hds as [|d ds Hd Hds IH]; intros acc Hacc; [simpl; lia |].
  cbn [digits_value foldl]. unfold is_digit in Hd.
  etransitivity; [| apply IH; lia]. lia.
Qed.

Lemma dec_digits_S (fuel : nat) (n : Z) (acc : list Z) :
  dec_digits (S fuel) n acc =
  if n / 10 =? 0 then (48 + n mod 10) :: acc
  else dec_digits fuel (n / 10) ((48 + n mod 10) :: acc).
Proof. reflexivity. Qed.

Lemma is_digit_last (n : Z) : is_digit (48 + n mod 10).
Proof.
  unfold is_digit. pose proof (Z.mod_pos_bound n 10 ltac:(lia)). lia.
Qed.

(** The digits [dec_digits] puts in front of [acc] are digits, read
    back as the number, and are no more than the number needs. *)
Lemma dec_digits_spec (fuel : nat) (n : Z) (acc : list Z) :
  0 ≤ n < 10 ^ Z.of_nat (S fuel) →
  ∃ ds, dec_digits (S fuel) n acc = ds ++ acc ∧
        Forall is_digit ds ∧
        (∀ a, digits_value a ds = a * 10 ^ Z.of_nat (length ds) + n) ∧
        (∀ k : nat, (0 < k)%nat → n < 10 ^ Z.of_nat k → (length ds ≤ k)%nat).
Proof.
  revert n acc. induction fuel as [|fuel IH]; intros n acc Hn;
    rewrite dec_digits_S.
  - assert (Hq : n / 10 = 0) by (apply Z.div_small; simpl in Hn; lia).
    exists [48 + n mod 10]. rewrite Hq. cbn [Z.eqb].
    split; [reflexivity |].
    split; [constructor; [apply is_digit_last | constructor] |].
    split; [| intros k Hk _; simpl; lia].
    intros a. cbn [digits_value foldl length].
    rewrite Z.mod_small by (simpl in Hn; lia).
    change (10 ^ Z.of_nat 1) with 10. lia.
  - destruct (Z.eqb_spec (n / 10) 0) as [Hq | Hq].
    + exists [48 + n mod 10].
      split; [reflexivity |].
      split; [constructor; [apply is_digit_last | constructor] |].
      split; [| intros k Hk _; simpl; lia].
      intros a. cbn [digits_value foldl length].
      change (10 ^ Z.of_nat 1) with 10.
      pose proof (Z.div_mod n 10 ltac:(lia)). lia.
    + assert (Hdiv : ∀ k : nat, n < 10 ^ Z.of_nat (S k) →
                       n / 10 < 10 ^ Z.of_nat k).
      { intros k Hk. apply Z.div_lt_upper_bound; [lia |].
        replace (Z.of_nat (S k)) with (1 + Z.of_nat k) in Hk by lia.
        rewrite Z.pow_add_r in Hk by lia. lia. }
      assert (Hn' : 0 ≤ n / 10 < 10 ^ Z.of_nat (S fuel)).
      { split; [apply Z.div_pos; lia | apply Hdiv; lia]. }
      destruct (IH (n / 10) ((48 + n mod 10) :: acc) Hn')
        as (ds & Heq & Hds & Hval & Hlen).
      exists (ds ++ [48 + n mod 10]).
      split; [rewrite Heq; by rewrite <- app_assoc |].
      split.
      { apply Forall_app. split; [exact Hds |].
        constructor; [apply is_digit_last | constructor]. }
      split.
      * intros a. rewrite digits_value_app, Hval.
        cbn [digits_value foldl]. rewrite length_app. cbn [length].
        replace (Z.of_nat (length ds + 1)) with (Z.of_nat (length ds) + 1)
          by lia.
        rewrite Z.pow_add_r by lia.
        pose proof (Z.div_mod n 10 ltac:(lia)). lia.
      * intros k Hk Hnk. rewrite length_app. cbn [length].
        destruct k as [|[|k]]; [lia | |].
        -- exfalso. apply Hq. apply Z.div_small. simpl in Hnk. lia.
        -- specialize (Hlen (S k) ltac:(lia) (Hdiv (S k) Hnk)). lia.
Qed.

Lemma itoa_spec (n : Z) :
  0 ≤ n →
  Forall is_digit (itoa n) ∧
  (∀ a, digits_value a (itoa n) = a * 10 ^ Z.of_nat (length (itoa n)) + n) ∧
  (∀ k : nat, (0 < k)%nat → n < 10 ^ Z.of_nat k → (length (itoa n) ≤ k)%nat).
Proof.
  intros Hn. unfold itoa.
  destruct (dec_digits_spec (Z.to_nat (Z.log2 n)) n []) as
    (ds & Heq & Hds & Hval & Hlen).
  { split; [exact Hn |].
    destruct (Z.eq_dec n 0) as [-> | Hne]; [simpl; lia |].
    pose proof (Z.log2_nonneg n) as Hl.
    pose proof (Z.log2_spec n ltac:(lia)) as [_ Hhi].
    eapply Z.lt_le_trans; [exact Hhi |].
    rewrite Nat2Z.inj_succ, Z2Nat.id by exact Hl.
    apply Z.pow_le_mono_l. lia. }
  rewrite Heq, app_nil_r. by repeat split.
Qed.

(** The loop of [ParseUint] on digits whose value fits the size. *)
Lemma ParseUint_loop_digits (maxVal acc : Z) (ds : list Z) :
  0 ≤ acc → maxVal < 2 ^ 32 →
  Forall is_digit ds → digits_value acc ds ≤ maxVal →
  ParseUint_loop maxVal acc ds = (digits_value acc ds, false).
Proof.
  intros Hacc Hmax Hds. revert acc Hacc.
  induction Hds as [|d ds Hd Hds IH]; intros acc Hacc Hfit; [reflexivity |].
  cbn [ParseUint_loop digits_value foldl] in *. unfold is_digit in Hd.
  fold (digits_value (acc * 10 + (d - 48)) ds) in *.
  pose proof (digits_value_ge (acc * 10 + (d - 48)) ds ltac:(lia) Hds) as Hge.
  destruct (Z.leb_spec 48 d) as [_ | ?]; [| lia].
  destruct (Z.leb_spec d 57) as [_ | ?]; [| lia].
  cbn [andb].
  change (18446744073709551615 / 10 + 1) with 1844674407370955162.
  change (2 ^ 32) with 4294967296 in Hmax.
  destruct (Z.leb_spec 1844674407370955162 acc) as [? | _]; [lia |].
  rewrite (Z.mod_small (acc * 10 + (d - 48))) by lia.
  destruct (Z.ltb_spec (acc * 10 + (d - 48)) (acc * 10)) as [? | _]; [lia |].
  destruct (Z.ltb_spec maxVal (acc * 10 + (d - 48))) as [? | _]; [lia |].
  cbn [orb]. apply IH; lia.
Qed.

(** A number printed with ["%0wd"] and cut to its field reads back as
    itself when it has no more than [w] digits and fits the size. *)
Lemma ParseUint_Sprintf_0d (w : nat) (n bits : Z) :
  0 ≤ n < 10 ^ Z.of_nat w → (0 < w)%nat →
  0 ≤ bits ≤ 32 → n < 2 ^ bits →
  ParseUint (take w (Sprintf_0d w n)) bits = (n, false).
Proof.
  intros Hn Hw Hbits Hfit.
  destruct (itoa_spec n ltac:(lia)) as (Hds & Hval & Hlen).
  specialize (Hlen w Hw ltac:(lia)).
  assert (Hpad : length (Sprintf_0d w n) = w).
  { unfold Sprintf_0d. rewrite length_app, length_replicate. lia. }
  rewrite take_ge by lia.
  assert (Hall : Forall is_digit (Sprintf_0d w n)).
  { unfold Sprintf_0d. apply Forall_app. split; [| exact Hds].
    apply Forall_replicate. unfold is_digit. lia. }
  assert (Hv : digits_value 0 (Sprintf_0d w n) = n).
  { unfold Sprintf_0d. rewrite digits_value_zeros, Hval. lia. }
  unfold ParseUint.
  destruct (Sprintf_0d w n) as [|c s] eqn:Hs; [simpl in Hpad; lia |].
  rewrite Z.shiftl_1_l.
  assert (Hmax : 2 ^ bits - 1 < 2 ^ 32).
  { assert (2 ^ bits ≤ 2 ^ 32) by (apply Z.pow_le_mono_r; lia). lia. }
  rewrite ParseUint_loop_digits; [by rewrite Hv | lia | exact Hmax | exact Hall |].
  rewrite Hv. lia.
Qed.

(** *** The record an encoder call leaves *)

Lemma length_Sprintf_0d (w : nat) (n : Z) : (w ≤ length (Sprintf_0d w n))%nat.
Proof. unfold Sprintf_0d. rewrite length_app, length_replicate. lia. Qed.

Lemma take_cut (w : nat) (l : list Z) :
  take w (if (w <? length l)%nat then take w l else l) = take w l.
Proof. destruct (w <? length l)%nat; [| reflexivity]. by rewrite take_take, Nat.min_id. Qed.

Lemma length_cut (w : nat) (l : list Z) :
  (w ≤ length l)%nat →
  (w ≤ length (if (w <? length l)%nat then take w l else l))%nat.
Proof.
  intros Hl. destruct (w <? length l)%nat; [| exact Hl].
  rewrite length_take. lia.
Qed.

Lemma length302_copy_at (dst src : list Z) (lo n : nat) :
  length dst = 302%nat → (lo + n ≤ 302)%nat →
  length (copy_at dst lo n src) = 302%nat.
Proof. intros Hd Hfit. rewrite length_copy_at; [exact Hd | lia]. Qed.

Lemma length302_store (dst : list Z) (i x : Z) :
  length dst = 302%nat → length (store dst i x) = 302%nat.
Proof. intros Hd. by rewrite length_store. Qed.

Ltac len302 :=
  repeat first
    [ apply length302_store
    | apply length302_copy_at; [| simpl; lia]
    | apply length_replicate ].

Ltac src_len :=
  first [ apply length_Sprintf_ls | apply length_Sprintf_0d
        | apply length_cut; apply length_Sprintf_ls
        | simpl; lia ].

Ltac fits302 :=
  match goal with
  | |- (_ ≤ length ?d)%nat =>
      replace (length d) with 302%nat by (symmetry; len302); simpl; lia
  end.

(** Read a field of the encoded record: skip the writes that follow the
    one to the field, then take what that one wrote. *)
Ltac read_field :=
  repeat first
    [ rewrite field_copy_at_other by first [fits302 | src_len | (simpl; lia)]
    | rewrite field_store_other by (simpl; lia) ];
  rewrite field_copy_at_same by first [fits302 | src_len].

Ltac read_byte :=
  repeat first
    [ rewrite at_copy_at_other by first [fits302 | src_len | (simpl; lia)]
    | rewrite at_store_other by (simpl; lia) ].

(** Closed powers, in the goal and in the hypotheses, as numerals. *)
Ltac eval_pows :=
  repeat match goal with
  | |- context [?b ^ ?e] =>
      let v := eval vm_compute in (b ^ e) in change (b ^ e) with v
  | H : context [?b ^ ?e] |- _ =>
      let v := eval vm_compute in (b ^ e) in change (b ^ e) with v in H
  end.

Section ConfigFields.
Context `{!DmrModule, !GoLib}.

Lemma buildConfigData_length (c : RepeaterConfiguration.t) :
  length (buildConfigData c).2 = 302%nat.
Proof. unfold buildConfigData. cbn [snd]. len302. Qed.

Lemma buildConfigData_fields (c : RepeaterConfiguration.t) :
  let c1 := (buildConfigData c).1 in
  let data := (buildConfigData c).2 in
  (at_ data 4 = uint8 (Z.shiftr (ID c1) 24) ∧
   at_ data 5 = uint8 (Z.shiftr (ID c1) 16) ∧
   at_ data 6 = uint8 (Z.shiftr (ID c1) 8) ∧
   at_ data 7 = uint8 (ID c1)) ∧
  field data 8 8 = take 8 (Sprintf_ls 8 (Callsign c1)) ∧
  field data 16 9 = take 9 (Sprintf_0d 9 (RXFreq c1)) ∧
  field data 25 9 = take 9 (Sprintf_0d 9 (TXFreq c1)) ∧
  field data 34 2 = take 2 (Sprintf_0d 2 (TXPower c1)) ∧
  field data 36 2 = take 2 (Sprintf_0d 2 (ColorCode c1)) ∧
  field data 38 8 = take 8 (Sprintf_lf 8 (Latitude c1)) ∧
  field data 46 9 = take 9 (Sprintf_lf 9 (Longitude c1)) ∧
  field data 55 3 = take 3 (Sprintf_0d 3 (Height c1)) ∧
  field data 58 20 = take 20 (Sprintf_ls 20 (Location c1)) ∧
  field data 78 19 = take 19 (Sprintf_ls 19 (Description c1)) ∧
  field data 97 1 = take 1 (Sprintf_0d 1 (Slots c1)) ∧
  field data 98 124 = take 124 (Sprintf_ls 124 (URL c1)) ∧
  field data 222 40 = take 40 (Sprintf_ls 40 (SoftwareID c1)) ∧
  field data 262 40 = take 40 (Sprintf_ls 40 (PackageID c1)).
Proof.
  unfold buildConfigData. cbn [fst snd]. unfold Sprintf_lf.
  set (c1 := clamp c).
  split; [repeat split; read_byte; apply at_store_same; len302 |].
  repeat split; read_field; rewrite ?take_cut; reflexivity.
Qed.

(** A configuration that fits the record is read back from its
    encoding field by field: the id, the numbers, and the strings up to
    trimming; the two coordinates are whatever [ParseFloat] makes of the
    eight and nine bytes their text was cut or padded to. *)
Theorem config_roundtrip_fields (c : RepeaterConfiguration.t) :
  let c1 := (buildConfigData c).1 in
  fits c1 →
  parseConfigData (buildConfigData c).2 =
  Ok {| ID := ID c1;
        Callsign := Trim (Callsign c1);
        RXFreq := RXFreq c1;
        TXFreq := TXFreq c1;
        TXPower := TXPower c1;
        ColorCode := ColorCode c1;
        Latitude := ParseFloat32 (take 8 (Sprintf_lf 8 (Latitude c1)));
        Longitude := ParseFloat32 (take 9 (Sprintf_lf 9 (Longitude c1)));
        Height := Height c1;
        Location := Trim (Location c1);
        Description := Trim (Description c1);
        Slots := Slots c1;
        URL := Trim (URL c1);
        SoftwareID := Trim (SoftwareID c1);
        PackageID := Trim (PackageID c1) |}.
Proof.
  intros c1 (Hid & Hcs & Hrx & Htx & Hpw & Hcc & Hhg & Hlc & Hds & Hsl & Hurl
             & Hsw & Hpk).
  pose proof (buildConfigData_fields c) as Hf. cbv zeta in Hf. fold c1 in Hf.
  destruct Hf as ((Hb4 & Hb5 & Hb6 & Hb7) & Fcs & Frx & Ftx & Fpw & Fcc & Fla
                  & Flo & Fhg & Flc & Fds & Fsl & Furl & Fsw & Fpk).
  unfold parseConfigData.
  rewrite buildConfigData_length. cbn [Nat.eqb negb].
  rewrite (copy_at_whole _ 302 (buildConfigData_length c)).
  rewrite Hb4, Hb5, Hb6, Hb7, Fcs, Frx, Ftx, Fpw, Fcc, Fla, Flo, Fhg, Flc,
          Fds, Fsl, Furl, Fsw, Fpk.
  rewrite !Trim_padded by assumption.
  rewrite (ParseUint_Sprintf_0d 9 (RXFreq c1) 32) by (eval_pows; lia).
  rewrite (ParseUint_Sprintf_0d 9 (TXFreq c1) 32) by (eval_pows; lia).
  rewrite (ParseUint_Sprintf_0d 2 (TXPower c1) 8) by (eval_pows; lia).
  rewrite (ParseUint_Sprintf_0d 2 (ColorCode c1) 8) by (eval_pows; lia).
  rewrite (ParseUint_Sprintf_0d 3 (Height c1) 32) by (eval_pows; lia).
  rewrite (ParseUint_Sprintf_0d 1 (Slots c1) 8) by (eval_pows; lia).
  cbn [fst].
  rewrite be32 by exact Hid.
  unfold uint32, uint16. eval_pows. rewrite !Z.mod_small by lia.
  rewrite !uint8_id by lia.
  reflexivity.
Qed.


(** A longitude whose text is eight characters long is padded with one
    space to fill its nine bytes. *)
Lemma short_longitude_padded (x : float32) :
  length (Sprintf_f x) = 8%nat →
  take 9 (Sprintf_lf 9 x) = Sprintf_f x ++ [32].
Proof.
  intros Hlen. unfold Sprintf_lf, Sprintf_ls. rewrite Hlen.
  apply take_ge. rewrite length_app, Hlen. simpl. lia.
Qed.

End ConfigFields.

(** *** The plain-decimal reader and a trailing space *)

Lemma read_digits_keeps_space (s : list Z) (acc : Z) (count : nat) :
  ∃ t, (Float32.read_digits (s ++ [32]) acc count).2 = t ++ [32].
Proof.
  revert acc count. induction s as [|c s IH]; intros acc count.
  - by exists [].
  - cbn [app Float32.read_digits].
    destruct ((48 <=? c) && (c <=? 57)); [apply IH |].
    by exists (c :: s).
Qed.

Lemma parse_decimal_space (s : list Z) :
  Float32.parse_decimal (s ++ [32]) = None.
Proof.
  unfold Float32.parse_decimal.
  assert (Hend : ∀ (neg : bool) (ni nf : nat) (fp : Z) (u : list Z),
    (if (ni + nf =? 0)%nat then None
     else match u ++ [32] with
          | [] => Some (neg, fp, nf)
          | _ => None
          end) = None).
  { intros neg ni nf fp u. destruct (ni + nf =? 0)%nat; [reflexivity |].
    by destruct u. }
  assert (Hcore : ∀ (neg : bool) (s1 : list Z),
    (let '(ip, ni, s2) := Float32.read_digits (s1 ++ [32]) 0 0 in
     let '(fp, nf, s3) :=
       match s2 with
       | 46 :: t => Float32.read_digits t ip 0
       | _ => (ip, 0%nat, s2)
       end in
     if (ni + nf =? 0)%nat then None
     else match s3 with
          | [] => Some (neg, fp, nf)
          | _ => None
          end) = None).
  { intros neg s1.
    destruct (read_digits_keeps_space s1 0 0) as [t Ht].
    destruct (Float32.read_digits (s1 ++ [32]) 0 0) as [[ip ni] s2].
    cbn [snd] in Ht. subst s2.
    destruct t as [|c t].
    - exact (Hend neg ni 0%nat ip []).
    - destruct (decide (c = 46)) as [-> | Hne].
      + change ((46 :: t) ++ [32]) with (46 :: (t ++ [32])). cbv iota.
        destruct (read_digits_keeps_space t ip 0) as [u Hu].
        destruct (Float32.read_digits (t ++ [32]) ip 0) as [[fp nf] s3].
        cbn [snd] in Hu. subst s3. exact (Hend neg ni nf fp u).
      + assert (Hsame :
          match (c :: t) ++ [32] with
          | 46 :: t0 => Float32.read_digits t0 ip 0
          | _ => (ip, 0%nat, (c :: t) ++ [32])
          end = (ip, 0%nat, (c :: t) ++ [32])).
        { destruct c as [|p|p]; try reflexivity.
          do 6 (destruct p as [p|p|]; try reflexivity). congruence. }
        rewrite Hsame. exact (Hend neg ni 0%nat ip (c :: t)). }
  destruct s as [|c s].
  - reflexivity.
  - destruct (decide (c = 43)) as [-> | H43]; [exact (Hcore false s) |].
    destruct (decide (c = 45)) as [-> | H45]; [exact (Hcore true s) |].
    assert (Hsign :
      match (c :: s) ++ [32] with
      | 43 :: t => (false, t)
      | 45 :: t => (true, t)
      | _ => (false, (c :: s) ++ [32])
      end = (false, (c :: s) ++ [32])).
    { destruct c as [|p|p]; try reflexivity.
      do 6 (destruct p as [p|p|]; try reflexivity); congruence. }
    rewrite Hsign. exact (Hcore false (c :: s)).
Qed.

(** With the library as modelled, every such longitude comes back as
    zero: the nine bytes end in a space and are no number. *)
Lemma short_longitude_reads_zero (c : RepeaterConfiguration.t) :
  let c1 := (@buildConfigData sample_dmr plain_lib c).1 in
  fits c1 →
  length (Float32.format_f (Longitude c)) = 8%nat →
  match @parseConfigData plain_lib
          (@buildConfigData sample_dmr plain_lib c).2 with
  | Ok c2 => Longitude c2 = 0
  | _ => False
  end.
Proof.
  intros c1 Hfits Hlen.
  rewrite (@config_roundtrip_fields sample_dmr plain_lib c Hfits).
  cbn [Longitude].
  change (Longitude (@buildConfigData sample_dmr plain_lib c).1)
    with (Longitude c).
  rewrite (@short_longitude_padded plain_lib (Longitude c) Hlen).
  cbn [ParseFloat32 plain_lib Sprintf_f]. unfold Float32.parse.
  by rewrite parse_decimal_space.
Qed.

(** ** The configuration round trip *)

(** C9. The round trip loses the longitude of a valid configuration.
    For the sample repeater at 1.5 E, ["%-09f"] formats the longitude as
    the eight characters of 1.500000 and pads them on the right with a
    space; the decoder hands the nine bytes to [ParseFloat], which
    rejects them, and the longitude comes back as 0. Every other field
    of the sample is recovered. *)
Theorem config_roundtrip_loses_longitude :
  field (@buildConfigData sample_dmr plain_lib sample_config).2 46 9 =
    bytes_of "1.500000 "
  ∧ @parseConfigData plain_lib
      (@buildConfigData sample_dmr plain_lib sample_config).2 =
    Ok {| ID := 204099; Callsign := bytes_of "PD0MZ";
          RXFreq := 438200000; TXFreq := 430600000;
          TXPower := 25; ColorCode := 1;
          Latitude := 1112670208; Longitude := 0;
          Height := 12; Location := bytes_of "Norwich";
          Description := bytes_of "go-dmr repeater"; Slots := 2;
          URL := bytes_of "https://example.org";
          SoftwareID := bytes_of "sw-1"; PackageID := bytes_of "pkg-1" |}
  ∧ Longitude sample_config = 1069547520.
Proof. split; [| split]; vm_compute; reflexivity. Qed.

(** ** The registry invariant *)

Lemma same_registry_refl (w : World) : same_registry w w.
Proof. repeat split. intros ptr o Ho. by exists o. Qed.

Lemma same_registry_trans (w1 w2 w3 : World) :
  same_registry w1 w2 → same_registry w2 w3 → same_registry w1 w3.
Proof.
  intros (HP12 & HI12 & Hh12) (HP23 & HI23 & Hh23).
  split; [congruence |]. split; [congruence |].
  intros ptr o Ho.
  destruct (Hh12 ptr o Ho) as (o2 & Ho2 & Hid2 & Ha2).
  destruct (Hh23 ptr o2 Ho2) as (o3 & Ho3 & Hid3 & Ha3).
  exists o3. split; [exact Ho3 |]. split; congruence.
Qed.

Lemma same_registry_agree (w w' : World) :
  same_registry w w' → indexes_agree w → indexes_agree w'.
Proof.
  intros (HP & HI & Hh) [Haddr Hid]. split.
  - intros a ptr Hlook. rewrite HP in Hlook.
    destruct (Haddr a ptr Hlook) as (o & Ho & Ha & Hback).
    destruct (Hh ptr o Ho) as (o' & Ho' & Hid' & Ha').
    exists o'. split; [exact Ho' |]. split; [congruence |].
    rewrite HI, Hid'. exact Hback.
  - intros i ptr Hlook. rewrite HI in Hlook.
    destruct (Hid i ptr Hlook) as (o & a & Ho & Hi & Ha & Hback).
    destruct (Hh ptr o Ho) as (o' & Ho' & Hid' & Ha').
    exists o', a. split; [exact Ho' |]. split; [congruence |].
    split; [congruence |]. rewrite HP. exact Hback.
Qed.

Lemma keeps_ret {A : Type} (a : A) : keeps (mret a).
Proof. intros w a' w' Hrun. injection Hrun as _ <-. apply same_registry_refl. Qed.

Lemma keeps_panic {A : Type} : keeps (@panic A).
Proof. intros w a w' Hrun. discriminate Hrun. Qed.

Lemma keeps_bind {A B : Type} (m : M A) (f : A → M B) :
  keeps m → (∀ a, keeps (f a)) → keeps (m ≫= f).
Proof.
  intros Hm Hf w b w2 Hrun.
  apply runs_bind_inv in Hrun as (a & w1 & Hrun1 & Hrun2).
  eapply same_registry_trans; [eapply Hm | eapply Hf]; eassumption.
Qed.

Lemma keeps_get : keeps get.
Proof. intros w a w' Hrun. injection Hrun as _ <-. apply same_registry_refl. Qed.

Lemma keeps_eval {A : Type} (r : result A) : keeps (eval r).
Proof. destruct r; [apply keeps_ret | apply keeps_panic | apply keeps_panic]. Qed.

Lemma keeps_deref (ptr : nat) : keeps (deref ptr).
Proof.
  intros w a w' Hrun. unfold runs, deref in Hrun.
  destruct (heap w !! ptr); [| discriminate].
  injection Hrun as _ <-. apply same_registry_refl.
Qed.

Lemma keeps_modify (ptr : nat) (f : Peer.t → Peer.t) :
  stable f → keeps (modify ptr f).
Proof.
  intros Hf w a w' Hrun. unfold runs, modify in Hrun.
  destruct (heap w !! ptr) as [o|] eqn:Ho; [| discriminate].
  injection Hrun as _ <-. repeat split.
  intros q oq Hq. destruct (decide (ptr = q)) as [<- | Hne].
  - exists (f oq). rewrite (heap_upd_eq ptr f oq w Hq).
    split; [reflexivity |]. apply Hf.
  - exists oq. rewrite (heap_upd_ne ptr q f w Hne). by split.
Qed.

Lemma keeps_modify_h (f : Homebrew.t → Homebrew.t) :
  stable_h f → keeps (modify_h f).
Proof.
  intros Hf w a w' Hrun. injection Hrun as _ <-.
  split; [apply Hf |]. split; [apply Hf |].
  intros q oq Hq. by exists oq.
Qed.

Lemma keeps_alloc (o : Peer.t) : keeps (alloc o).
Proof.
  intros w a w' Hrun. injection Hrun as _ <-. repeat split.
  intros q oq Hq. exists oq. split; [| by split].
  cbn [heap push_heap]. by apply lookup_app_l_Some.
Qed.

Lemma keeps_conn_WriteTo (env : Env) (b : list Z) (a : option UDPAddr) :
  keeps (conn_WriteTo env b a).
Proof.
  intros w r w' Hrun. injection Hrun as _ <-. repeat split.
  intros q oq Hq. by exists oq.
Qed.

Lemma stable_upd_Last (f : Last.t → Last.t) : stable (Peer.upd_Last f).
Proof. by intros []. Qed.
Lemma stable_set_Status (x : AuthStatus) : stable (Peer.set_Status x).
Proof. by intros []. Qed.
Lemma stable_set_Token (x : list Z) : stable (Peer.set_Token x).
Proof. by intros []. Qed.
Lemma stable_set_TGID (x : Z) : stable (Peer.set_TGID x).
Proof. by intros []. Qed.
Lemma stable_set_id (x : list Z) : stable (Peer.set_id x).
Proof. by intros []. Qed.
Lemma stable_set_Config (x : option RepeaterConfiguration.t) :
  stable (Peer.set_Config x).
Proof. by intros []. Qed.
Lemma stable_UpdateToken `{!PeerMethods} (nonce : list Z) :
  stable (Peer.UpdateToken nonce).
Proof. by intros []. Qed.
Lemma stable_h_set_last (x : Time) : stable_h (set_last x).
Proof. by intros []. Qed.
Lemma stable_h_set_HConfig (x : RepeaterConfiguration.t) :
  stable_h (set_HConfig x).
Proof. by intros []. Qed.

Create HintDb keeps discriminated.
#[local] Hint Resolve keeps_ret keeps_panic keeps_get keeps_eval keeps_deref
  keeps_alloc keeps_conn_WriteTo stable_upd_Last stable_set_Status
  stable_set_Token stable_set_TGID stable_set_id stable_set_Config
  stable_h_set_last stable_h_set_HConfig : keeps.
#[local] Hint Resolve keeps_modify keeps_modify_h : keeps.

(** Walk down a method: binds, branches, then the hint base. *)
Ltac keeps_step :=
  match goal with
  | |- keeps (_ ≫= _) => apply keeps_bind; [| intros ?]
  | |- keeps (if ?b then _ else _) => destruct b
  | |- keeps (match ?x with _ => _ end) => destruct x
  | |- keeps (let '(_, _) := ?x in _) => destruct x
  | |- _ => solve [eauto with keeps]
  end.
Ltac keeps_tac := repeat keeps_step.

Section Registry.
Context `{!DmrModule, !GoLib, !PeerMethods}.

#[local] Hint Resolve stable_UpdateToken : keeps.

Lemma keeps_WriteToPeer (env : Env) (b : list Z) (peer : option nat) :
  keeps (WriteToPeer env b peer).
Proof. unfold WriteToPeer. keeps_tac. Qed.
#[local] Hint Resolve keeps_WriteToPeer : keeps.

Lemma keeps_getPeerByAddr (remote : UDPAddr) : keeps (getPeerByAddr remote).
Proof. unfold getPeerByAddr. keeps_tac. Qed.

Lemma keeps_getPeers : keeps getPeers.
Proof. unfold getPeers. keeps_tac. Qed.
#[local] Hint Resolve keeps_getPeerByAddr keeps_getPeers : keeps.

Lemma keeps_handleAuth (env : Env) (ptr : nat) : keeps (handleAuth env ptr).
Proof. unfold handleAuth. keeps_tac. Qed.
#[local] Hint Resolve keeps_handleAuth : keeps.

Lemma keeps_SendTG_loop (env : Env) (data : list Z) (dst : Z) (peer : nat)
    (peers : list nat) :
  keeps (SendTG_loop env data dst peer peers).
Proof.
  induction peers as [|toPtr rest IH]; cbn [SendTG_loop]; keeps_tac.
Qed.
#[local] Hint Resolve keeps_SendTG_loop : keeps.

Lemma keeps_SendTG (env : Env) (p : Packet.t) (peer : nat) :
  keeps (SendTG env p peer).
Proof. unfold SendTG. keeps_tac. Qed.
#[local] Hint Resolve keeps_SendTG : keeps.

Lemma keeps_handlePacket (env : Env) (p : Packet.t) (ptr : nat) :
  keeps (handlePacket env p ptr).
Proof. unfold handlePacket. keeps_tac. Qed.
#[local] Hint Resolve keeps_handlePacket : keeps.

Lemma keeps_case_verb {A : Type} (d : datagram) (n : nat) (verb : list Z)
    (body rest : M A) :
  keeps body → keeps rest → keeps (case_verb d n verb body rest).
Proof. intros Hb Hr. unfold case_verb. keeps_tac. Qed.

Lemma keeps_case_len_verb {A : Type} (d : datagram) (l n : nat)
    (verb : list Z) (body rest : M A) :
  keeps body → keeps rest → keeps (case_len_verb d l n verb body rest).
Proof.
  intros Hb Hr. unfold case_len_verb.
  destruct (len d =? l)%nat; [by apply keeps_case_verb | exact Hr].
Qed.

Lemma keeps_checked (d : datagram) (lo hi : nat) (k : M (option error)) :
  keeps k → keeps (checked d lo hi k).
Proof. intros Hk. unfold checked. keeps_tac. Qed.

Lemma keeps_accepted (env : Env) (ptr : nat) : keeps (accepted env ptr).
Proof. unfold accepted. keeps_tac. Qed.

Lemma keeps_handle_dmrd (env : Env) (d : datagram) (ptr : nat) :
  keeps (handle_dmrd env d ptr).
Proof. unfold handle_dmrd. keeps_tac. Qed.
#[local] Hint Resolve keeps_accepted keeps_handle_dmrd : keeps.

Ltac keeps_cases :=
  repeat first [ apply keeps_case_verb | apply keeps_case_len_verb
               | apply keeps_checked | progress keeps_tac ].

Lemma keeps_handle_auth_incoming (env : Env) (d : datagram) (ptr : nat) :
  keeps (handle_auth_incoming env d ptr).
Proof. unfold handle_auth_incoming. keeps_tac; keeps_cases. Qed.

Lemma keeps_handle_done_incoming (env : Env) (d : datagram) (ptr : nat) :
  keeps (handle_done_incoming env d ptr).
Proof. unfold handle_done_incoming. keeps_tac; keeps_cases. Qed.

Lemma keeps_handle_done_outgoing (env : Env) (d : datagram) (ptr : nat) :
  keeps (handle_done_outgoing env d ptr).
Proof. unfold handle_done_outgoing. keeps_tac. cbv zeta. keeps_cases. Qed.

Lemma keeps_handle_peer_branches (env : Env) (d : datagram) (ptr : nat) :
  keeps (handle_auth_incoming env d ptr) ∧
  keeps (handle_done_incoming env d ptr) ∧
  keeps (handle_done_outgoing env d ptr).
Proof.
  split; [apply keeps_handle_auth_incoming |].
  split; [apply keeps_handle_done_incoming | apply keeps_handle_done_outgoing].
Qed.

Lemma agrees_of_keeps {A : Type} (m : M A) : keeps m → agrees m.
Proof.
  intros Hm w a w' Hagree Hrun.
  eapply same_registry_agree; [eapply Hm |]; eassumption.
Qed.

Lemma agrees_bind {A B : Type} (m : M A) (f : A → M B) :
  agrees m → (∀ a, agrees (f a)) → agrees (m ≫= f).
Proof.
  intros Hm Hf w b w2 Hagree Hrun.
  apply runs_bind_inv in Hrun as (a & w1 & Hrun1 & Hrun2).
  eapply Hf; [eapply Hm |]; eassumption.
Qed.

(** [Unlink] deletes the two entries of the peer it finds under the id. *)
Lemma agrees_Unlink (id : Z) : agrees (Unlink id).
Proof.
  intros w e w' [Haddr Hid] Hrun. unfold runs, Unlink in Hrun.
  rewrite (bind_runs_eq _ _ _ _ _ (runs_get w)) in Hrun.
  destruct (Homebrew.PeerID (h w) !! id) as [ptr|] eqn:Hlook.
  2: { injection Hrun as _ <-. by split. }
  destruct (Hid id ptr Hlook) as (o & a & Ho & Hi & Ha & Hback).
  rewrite (bind_runs_eq _ _ _ _ _ (runs_deref ptr o w Ho)) in Hrun.
  injection Hrun as _ <-.
  rewrite Ha. cbn [Addr_String]. split.
  - intros a' q Hq. cbn [h upd_h set_Peer set_PeerID Homebrew.Peer
                         Homebrew.PeerID heap] in *.
    apply lookup_delete_Some in Hq as [Hne Hq].
    destruct (Haddr a' q Hq) as (oq & Hoq & Haq & Hbq).
    exists oq. split; [exact Hoq |]. split; [exact Haq |].
    apply lookup_delete_Some. split; [| exact Hbq].
    intros Heq. rewrite <- Heq, Hlook in Hbq. injection Hbq as <-.
    rewrite Ho in Hoq. injection Hoq as <-. congruence.
  - intros i q Hq. cbn [h upd_h set_Peer set_PeerID Homebrew.Peer
                        Homebrew.PeerID heap] in *.
    apply lookup_delete_Some in Hq as [Hne Hq].
    destruct (Hid i q Hq) as (oq & aq & Hoq & Hiq & Haq & Hbq).
    exists oq, aq. split; [exact Hoq |]. split; [exact Hiq |].
    split; [exact Haq |].
    apply lookup_delete_Some. split; [| exact Hbq].
    intros Heq. rewrite <- Heq, Hback in Hbq. injection Hbq as <-.
    rewrite Ho in Hoq. injection Hoq as <-. congruence.
Qed.

Lemma agrees_refused (ptr : nat) : agrees (refused ptr).
Proof.
  unfold refused.
  apply agrees_bind; [apply agrees_of_keeps; eauto with keeps | intros peer].
  apply agrees_bind; [apply agrees_of_keeps; eauto with keeps | intros _].
  apply agrees_bind; [| intros _; apply agrees_of_keeps; eauto with keeps].
  destruct (Peer.UnlinkOnAuthFailure peer).
  - apply agrees_bind; [apply agrees_Unlink |].
    intros _. apply agrees_of_keeps; eauto with keeps.
  - apply agrees_of_keeps; eauto with keeps.
Qed.

Lemma agrees_case_verb {A : Type} (d : datagram) (n : nat) (verb : list Z)
    (body rest : M A) :
  agrees body → agrees rest → agrees (case_verb d n verb body rest).
Proof.
  intros Hb Hr. unfold case_verb.
  apply agrees_bind; [apply agrees_of_keeps; eauto with keeps | intros pre].
  by destruct (bytes_Equal pre verb).
Qed.

Lemma agrees_handle_auth_outgoing (env : Env) (d : datagram) (ptr : nat) :
  agrees (handle_auth_outgoing env d ptr).
Proof.
  unfold handle_auth_outgoing.
  apply agrees_bind; [apply agrees_of_keeps; eauto with keeps | intros peer].
  apply agrees_bind; [apply agrees_of_keeps; eauto with keeps | intros w0].
  apply agrees_bind; [apply agrees_of_keeps; eauto with keeps | intros rid].
  destruct (Peer.Status peer);
    repeat first
      [ apply agrees_case_verb
      | apply agrees_refused
      | apply agrees_of_keeps; solve [keeps_tac] ].
Qed.

Lemma agrees_handle_peer (env : Env) (d : datagram) (peer : option nat) :
  agrees (handle_peer env d peer).
Proof.
  unfold handle_peer.
  destruct (len d <? 8)%nat; [apply agrees_of_keeps; eauto with keeps |].
  destruct peer as [ptr|]; [| apply agrees_of_keeps; eauto with keeps].
  apply agrees_bind; [apply agrees_of_keeps; eauto with keeps | intros _].
  apply agrees_bind; [apply agrees_of_keeps; eauto with keeps | intros o].
  destruct (keeps_handle_peer_branches env d ptr) as (Hai & Hdi & Hdo).
  destruct (negb (bool_decide (Peer.Status o = AuthDone))).
  - apply agrees_case_verb; [apply agrees_of_keeps; eauto with keeps |].
    destruct (Peer.Incoming o);
      [by apply agrees_of_keeps | apply agrees_handle_auth_outgoing].
  - destruct (Peer.Incoming o); by apply agrees_of_keeps.
Qed.

(** [Link] of a peer whose address and id are not another's keeps the
    indexes in agreement. *)
Lemma Link_fresh_agrees (env : Env) (w : World) (ptr : nat)
    (e : option error) (w' : World) :
  indexes_agree w → no_clash w ptr →
  runs (Link env (Some ptr)) w e w' → indexes_agree w'.
Proof.
  intros Hagree Hfresh Hrun.
  destruct (heap w !! ptr) as [o|] eqn:Ho.
  2: { unfold runs, Link in Hrun. rewrite bind_panics in Hrun; [discriminate |].
       unfold deref. by rewrite Ho. }
  destruct (Hfresh o Ho) as [HfreeA HfreeI].
  destruct (Peer.Addr o) as [addr|] eqn:Haddr.
  2: { unfold runs, Link in Hrun.
       rewrite (bind_runs_eq _ _ _ _ _ (runs_deref ptr o w Ho)), Haddr in Hrun.
       injection Hrun as _ <-. exact Hagree. }
  destruct (decide (Peer.AuthKey o = [])) as [Hkey | Hkey].
  { unfold runs, Link in Hrun.
    rewrite (bind_runs_eq _ _ _ _ _ (runs_deref ptr o w Ho)), Haddr, Hkey
      in Hrun.
    injection Hrun as _ <-. exact Hagree. }
  destruct (Link_registers env w ptr o addr Ho Haddr Hkey)
    as (w1 & Ho1 & Hframe & HP1 & HI1 & _ & Hlink).
  cbn [Addr_String] in HfreeA.
  assert (Hagree1 : indexes_agree w1).
  { destruct Hagree as [HA HI]. split.
    - intros a q Hq. rewrite HP1 in Hq.
      destruct (decide (addr = a)) as [<- | Hne].
      + rewrite lookup_insert_eq in Hq. injection Hq as <-.
        eexists. split; [exact Ho1 |]. split; [exact Haddr |].
        rewrite HI1. cbn [Peer.ID Peer.set_id Peer.upd_Last].
        apply lookup_insert_eq.
      + rewrite lookup_insert_ne in Hq by exact Hne.
        destruct (HA a q Hq) as (oq & Hoq & Haq & Hbq).
        assert (q ≠ ptr) by (intros ->; congruence).
        exists oq. split; [by rewrite Hframe |]. split; [exact Haq |].
        rewrite HI1, lookup_insert_ne; [exact Hbq |].
        intros Heq. rewrite Heq in HfreeI. by specialize (HfreeI q Hbq).
    - intros i q Hq. rewrite HI1 in Hq.
      destruct (decide (Peer.ID o = i)) as [<- | Hne].
      + rewrite lookup_insert_eq in Hq. injection Hq as <-.
        eexists _, addr. split; [exact Ho1 |]. split; [reflexivity |].
        split; [exact Haddr |]. rewrite HP1. apply lookup_insert_eq.
      + rewrite lookup_insert_ne in Hq by exact Hne.
        destruct (HI i q Hq) as (oq & aq & Hoq & Hiq & Haq & Hbq).
        assert (q ≠ ptr) by (intros ->; congruence).
        exists oq, aq. split; [by rewrite Hframe |]. split; [exact Hiq |].
        split; [exact Haq |].
        rewrite HP1, lookup_insert_ne; [exact Hbq |].
        intros ->. by specialize (HfreeA q Hbq). }
  unfold runs in Hrun. rewrite Hlink in Hrun.
  destruct (Peer.Incoming o).
  - injection Hrun as _ <-. exact Hagree1.
  - eapply (agrees_of_keeps _ (keeps_handleAuth env ptr)); eassumption.
Qed.

Lemma agrees_Link_nil (env : Env) : agrees (Link env None).
Proof. apply agrees_of_keeps. unfold Link. eauto with keeps. Qed.

(** [handle] keeps the indexes in agreement when the login it may
    register carries an id that is free. *)
Lemma handle_fresh_agrees (env : Env) (remote : UDPAddr) (d : datagram)
    (w : World) (e : option error) (w' : World) :
  indexes_agree w → fresh_op w (OpHandle remote d) →
  runs (handle env remote d) w e w' → indexes_agree w'.
Proof.
  intros Hagree Hfresh Hrun. unfold handle in Hrun.
  unfold runs in Hrun.
  rewrite (bind_runs_eq _ _ _ _ _ (runs_getPeerByAddr remote w)) in Hrun.
  destruct (Homebrew.Peer (h w) !! remote) as [ptr|] eqn:Hreg.
  { eapply agrees_handle_peer; eassumption. }
  cbn [fresh_op] in Hfresh. specialize (Hfresh Hreg).
  unfold case_verb in Hrun.
  apply runs_bind_inv in Hrun as (pre & w0 & Hpre & Hrun).
  unfold runs, eval in Hpre.
  destruct (slice_to d 4) as [pre'| |] eqn:Hslice; try discriminate Hpre.
  injection Hpre as <- <-.
  destruct (bytes_Equal pre' RepeaterLogin) eqn:Hverb.
  2: { injection Hrun as _ <-. exact Hagree. }
  apply bool_decide_eq_true_1 in Hverb. subst pre'.
  apply runs_bind_inv in Hrun as (rest & w0 & Hrest & Hrun).
  unfold runs, eval in Hrest.
  destruct (slice_from d 4) as [rest'| |] eqn:Hfrom; try discriminate Hrest.
  injection Hrest as <- <-.
  apply runs_bind_inv in Hrun as (id & w0 & Hid & Hrun).
  unfold runs, eval in Hid.
  destruct (unpackRepeaterID rest') as [id'| |] eqn:Hunpack;
    try discriminate Hid.
  injection Hid as <- <-.
  specialize (Hfresh rest' id' eq_refl eq_refl Hunpack).
  apply runs_bind_inv in Hrun as (newPeer & w1 & Halloc & Hrun).
  injection Halloc as <- <-.
  apply runs_bind_inv in Hrun as (e1 & w2 & Hlink & Hrun).
  apply runs_bind_inv in Hrun as (peer & w3 & Hget & Hrun).
  eapply agrees_handle_peer; [| exact Hrun].
  eapply (agrees_of_keeps _ (keeps_getPeerByAddr remote)); [| exact Hget].
  eapply Link_fresh_agrees; [| | exact Hlink].
  - eapply (agrees_of_keeps _ (keeps_alloc _)); [exact Hagree | reflexivity].
  - intros o Ho. cbn [heap push_heap] in Ho.
    rewrite lookup_app_r in Ho by lia.
    rewrite Nat.sub_diag in Ho. injection Ho as <-.
    cbn [Peer.Addr Peer.ID Addr_String h push_heap].
    split; intros q Hq; [rewrite Hreg in Hq | rewrite Hfresh in Hq];
      discriminate Hq.
Qed.

Lemma step_fresh_agrees (env : Env) (o : op) (w : World) (e : option error)
    (w' : World) :
  indexes_agree w → fresh_op w o → runs (step env o) w e w' →
  indexes_agree w'.
Proof.
  intros Hagree Hfresh Hrun. destruct o as [[ptr|] | id | remote d].
  - exact (Link_fresh_agrees env w ptr e w' Hagree Hfresh Hrun).
  - exact (agrees_Link_nil env w e w' Hagree Hrun).
  - exact (agrees_Unlink id w e w' Hagree Hrun).
  - exact (handle_fresh_agrees env remote d w e w' Hagree Hfresh Hrun).
Qed.

Lemma run_fresh_agrees (ops : list (Env * op)) (w w' : World) :
  indexes_agree w → fresh_run ops w → run ops w = Some w' →
  indexes_agree w'.
Proof.
  revert w. induction ops as [|[env o] ops IH]; intros w Hagree Hfresh Hrun.
  - injection Hrun as <-. exact Hagree.
  - cbn [run fresh_run] in Hrun, Hfresh. destruct Hfresh as [Hop Hrest].
    destruct (step env o w) as [[e w1]|] eqn:Hstep; [| discriminate].
    eapply IH; [| exact Hrest | exact Hrun].
    eapply step_fresh_agrees; eassumption.
Qed.

Lemma indexes_agree_bijection (w : World) :
  indexes_agree w → registry_bijection w.
Proof.
  intros [HA HI] ptr. split.
  - intros [a Ha]. destruct (HA a ptr Ha) as (o & _ & _ & Hback).
    by exists (Peer.ID o).
  - intros [i Hi]. destruct (HI i ptr Hi) as (o & a & _ & _ & _ & Hback).
    by exists a.
Qed.

(** C7, as the code has it. Starting from a new endpoint, after every
    sequence of [Link], [Unlink] and datagram handling that runs to its
    end and in which no peer is linked, by [Link] or by a login from an
    unknown address, under an address or an id registered to another
    peer, a peer object is in the address index iff it is in the id
    index. *)
Theorem registry_bijection_without_clash (config : RepeaterConfiguration.t)
    (peers : list Peer.t) (ops : list (Env * op)) (w' : World) :
  let w0 := {| h := New config; heap := peers; wire := [] |} in
  fresh_run ops w0 →
  run ops w0 = Some w' →
  registry_bijection w'.
Proof.
  intros w0 Hfresh Hrun. apply indexes_agree_bijection.
  eapply run_fresh_agrees; [| exact Hfresh | exact Hrun].
  split; intros k ptr Hlook; cbn in Hlook; by rewrite lookup_empty in Hlook.
Qed.

End Registry.

Lemma registry_bijection_without_clash_witness :
  ∃ w',
    @run sample_dmr plain_lib sample_peer
      [ (sample_env, OpLink (Some 0%nat));
        (sample_env, OpHandle "198.51.100.7:50000"
                       (received (RepeaterLogin ++ packRepeaterID 204123)));
        (sample_env, OpUnlink 2042) ]
      sample_fresh = Some w' ∧
    registry_bijection w'.
Proof.
  eexists. split; [vm_compute; reflexivity |].
  eapply (@registry_bijection_without_clash sample_dmr plain_lib
            sample_peer sample_config [sample_master; sample_repeater]
            [ (sample_env, OpLink (Some 0%nat));
              (sample_env, OpHandle "198.51.100.7:50000"
                             (received (RepeaterLogin
                                          ++ packRepeaterID 204123)));
              (sample_env, OpUnlink 2042) ]).
  - cbn [fresh_run]. split.
    + intros o Ho. injection Ho as <-.
      split; intros q Hq; vm_compute in Hq; discriminate Hq.
    + vm_compute. repeat split.
      intros _ rest id _ Hrest Hid.
      injection Hrest as <-. injection Hid as <-. reflexivity.
  - vm_compute. reflexivity.
Defined.

(** C7, as stated, fails: two logins carrying the same repeater id from
    two addresses leave the first peer object in the address index and
    out of the id index. *)
Lemma same_id_from_two_addresses_breaks_bijection :
  ∃ w',
    @run sample_dmr plain_lib sample_peer
      [ (sample_env, OpHandle "198.51.100.7:50000"
                       (received (RepeaterLogin ++ packRepeaterID 204123)));
        (sample_env, OpHandle "198.51.100.7:50001"
                       (received (RepeaterLogin ++ packRepeaterID 204123))) ]
      {| h := New sample_config; heap := []; wire := [] |} = Some w' ∧
    ¬ registry_bijection w'.
Proof.
  eexists. split; [vm_compute; reflexivity |].
  match goal with
  | |- ¬ registry_bijection ?x => set (w' := x)
  end.
  assert (HP : Homebrew.Peer (h w') !! "198.51.100.7:50000"%string
               = Some 0%nat) by (vm_compute; reflexivity).
  assert (HI : Homebrew.PeerID (h w') = {[ 204123 := 1%nat ]})
    by (vm_compute; reflexivity).
  intros Hbij.
  destruct (proj1 (Hbij 0%nat)) as [i Hi].
  - eexists. exact HP.
  - rewrite HI in Hi. apply lookup_singleton_Some in Hi as [_ Hi].
    discriminate Hi.
Qed.

(** * More of the two packages *)

(** ** Talker alias: every input *)

Lemma format_field (d0 : Z) :
  Z.shiftr (Z.land d0 TalkerAlias.B11000000) 6 = (d0 / 64) mod 4.
Proof.
  rewrite Z.shiftr_land.
  change (Z.shiftr TalkerAlias.B11000000 6) with (Z.ones 2).
  rewrite Z.land_ones by lia. by rewrite Z.shiftr_div_pow2 by lia.
Qed.

Lemma length_field (d0 : Z) :
  Z.shiftr (Z.land d0 TalkerAlias.B00111110) 1 = (d0 / 2) mod 32.
Proof.
  rewrite Z.shiftr_land.
  change (Z.shiftr TalkerAlias.B00111110 1) with (Z.ones 5).
  rewrite Z.land_ones by lia. by rewrite Z.shiftr_div_pow2 by lia.
Qed.

Lemma DataFormatName_known (f : Z) :
  0 ≤ f ≤ 3 → TalkerAlias.DataFormatName f ≠ [].
Proof.
  intros Hf.
  assert (f = 0 ∨ f = 1 ∨ f = 2 ∨ f = 3) as [-> | [-> | [-> | ->]]] by lia;
    discriminate.
Qed.

(** What the header parser returns on seven bytes. *)
Lemma header_parsed (data : list Z) :
  length data = 7%nat →
  ∃ t, TalkerAlias.ParseTalkerAliasHeaderPDU data = Ok t ∧
       TalkerAlias.DataFormat t = (data !!! 0%nat / 64) mod 4 ∧
       TalkerAlias.Length t = (data !!! 0%nat / 2) mod 32 ∧
       (TalkerAlias.DataFormat t = TalkerAlias.Format7Bit →
          length (TalkerAlias.Data t) = 7%nat ∧
          Forall (fun b => 0 ≤ b < 128) (TalkerAlias.Data t)) ∧
       (TalkerAlias.DataFormat t ≠ TalkerAlias.Format7Bit →
          TalkerAlias.Data t = take 5 (drop 1 data)).
Proof.
  intros Hlen.
  destruct (Z.eq_dec (Z.shiftr (Z.land (data !!! 0%nat) TalkerAlias.B11000000) 6)
              TalkerAlias.Format7Bit) as [H7 | H8].
  - destruct (parse_7bit_high_bit_clear data Hlen H7)
      as (t & Hparse & Hl & Hsmall).
    exists t. split; [exact Hparse |].
    destruct data as [|d0 [|d1 [|d2 [|d3 [|d4 [|d5 [|d6 [|]]]]]]]];
      try discriminate Hlen.
    unfold TalkerAlias.ParseTalkerAliasHeaderPDU in Hparse.
    cbn [length Nat.eqb negb] in Hparse.
    change (index [d0; d1; d2; d3; d4; d5; d6] 0) with (Ok (A := Z) d0)
      in Hparse.
    cbn [mbind result_bind] in Hparse.
    change ([d0; d1; d2; d3; d4; d5; d6] !!! 0%nat) with d0 in *.
    destruct (if _ =? _ then _ else _) as [out| |] in Hparse;
      try discriminate Hparse.
    cbn [mbind result_bind] in Hparse. injection Hparse as <-.
    cbn [TalkerAlias.DataFormat TalkerAlias.Length TalkerAlias.Data] in *.
    rewrite format_field, length_field in *.
    split; [reflexivity |]. split; [reflexivity |].
    split; [intros _; by split | intros Hne; contradiction].
  - destruct data as [|d0 [|d1 [|d2 [|d3 [|d4 [|d5 [|d6 [|]]]]]]]];
      try discriminate Hlen.
    change ([d0; d1; d2; d3; d4; d5; d6] !!! 0%nat) with d0 in *.
    unfold TalkerAlias.ParseTalkerAliasHeaderPDU.
    cbn [length Nat.eqb negb].
    change (index [d0; d1; d2; d3; d4; d5; d6] 0) with (Ok (A := Z) d0).
    cbn [mbind result_bind].
    destruct (Z.eqb_spec (Z.shiftr (Z.land d0 TalkerAlias.B11000000) 6)
                TalkerAlias.Format7Bit) as [? | _]; [contradiction |].
    cbn [mbind result_bind].
    eexists. split; [reflexivity |].
    cbn [TalkerAlias.DataFormat TalkerAlias.Length TalkerAlias.Data].
    rewrite format_field, length_field in *.
    split; [reflexivity |]. split; [reflexivity |].
    split; [intros Heq; contradiction | reflexivity].
Qed.

(** X1. The header parser on any input. Off seven bytes it returns the
    length error. On seven bytes it returns a header: the format is the
    top two bits of byte 0, one of the four named formats; the length
    is the next five bits; the data are seven characters below 128 for
    the 7-bit format and the five bytes [data[1:6]] for the others. *)
Theorem ParseTalkerAliasHeaderPDU_outcomes (data : list Z) :
  (length data ≠ 7%nat →
   TalkerAlias.ParseTalkerAliasHeaderPDU data
     = Err (ErrExpectedLength 7 (length data))) ∧
  (length data = 7%nat →
   ∃ t, TalkerAlias.ParseTalkerAliasHeaderPDU data = Ok t ∧
        TalkerAlias.DataFormat t = (data !!! 0%nat / 64) mod 4 ∧
        TalkerAlias.Length t = (data !!! 0%nat / 2) mod 32 ∧
        TalkerAlias.DataFormatName (TalkerAlias.DataFormat t) ≠ [] ∧
        (TalkerAlias.DataFormat t = TalkerAlias.Format7Bit →
           length (TalkerAlias.Data t) = 7%nat ∧
           Forall (fun b => 0 ≤ b < 128) (TalkerAlias.Data t)) ∧
        (TalkerAlias.DataFormat t ≠ TalkerAlias.Format7Bit →
           TalkerAlias.Data t = take 5 (drop 1 data))).
Proof.
  split.
  - intros Hlen. unfold TalkerAlias.ParseTalkerAliasHeaderPDU.
    destruct (Nat.eqb_spec (length data) 7) as [? | _];
      [contradiction | reflexivity].
  - intros Hlen.
    destruct (header_parsed data Hlen) as (t & Hparse & Hf & Hl & H7 & H8).
    exists t. split; [exact Hparse |].
    split; [exact Hf |]. split; [exact Hl |].
    split; [| by split].
    apply DataFormatName_known. rewrite Hf.
    pose proof (Z.mod_pos_bound (data !!! 0%nat / 64) 4 ltac:(lia)). lia.
Qed.

(** X2. Encoding a header the parser returned never returns. In the
    7-bit format the first bit moved is written to [out[-1]]; in the
    other formats the parser kept the five bytes [data[1:6]] and the
    encoder reads [out[5]]. *)
Theorem Bytes_of_parsed_header_panics (data : list Z) :
  length data = 7%nat →
  ∃ t, TalkerAlias.ParseTalkerAliasHeaderPDU data = Ok t ∧
       TalkerAlias.Bytes t = Panic.
Proof.
  intros Hlen.
  destruct (header_parsed data Hlen) as (t & Hparse & _ & _ & H7 & H8).
  exists t. split; [exact Hparse |].
  unfold TalkerAlias.Bytes.
  destruct (Z.eqb_spec (TalkerAlias.DataFormat t) TalkerAlias.Format7Bit)
    as [Heq | Hne].
  - rewrite for_range_first_panic; [reflexivity | lia |].
    apply movebit_dst_neg. vm_compute. reflexivity.
  - rewrite (H8 Hne).
    destruct data as [|d0 [|d1 [|d2 [|d3 [|d4 [|d5 [|d6 [|]]]]]]]];
      try discriminate Hlen.
    reflexivity.
Qed.

Lemma Bytes_of_parsed_header_panics_witness :
  ∃ t, TalkerAlias.ParseTalkerAliasHeaderPDU [78; 71; 79; 32; 68; 77; 82]
         = Ok t ∧
       TalkerAlias.Bytes t = Panic.
Proof.
  exact (Bytes_of_parsed_header_panics [78; 71; 79; 32; 68; 77; 82] eq_refl).
Defined.

(** The first byte of an encoded header, read back: format and length
    as [Bytes] packs them. *)
Lemma header_byte_fields (f l : Z) :
  1 ≤ f ≤ 3 → 0 ≤ l < 32 →
  let b := Z.lor (Z.lor (Z.land (uint8 (Z.shiftl f 6)) TalkerAlias.B11000000)
                        (Z.land (uint8 (Z.shiftl l 1)) TalkerAlias.B00111110))
                 (Z.land 0 TalkerAlias.B00000001) in
  Z.shiftr (Z.land b TalkerAlias.B11000000) 6 = f ∧
  Z.shiftr (Z.land b TalkerAlias.B00111110) 1 = l.
Proof.
  intros Hf Hl.
  set (ok := fun f l : Z =>
    let b := Z.lor (Z.lor (Z.land (uint8 (Z.shiftl f 6)) TalkerAlias.B11000000)
                          (Z.land (uint8 (Z.shiftl l 1)) TalkerAlias.B00111110))
                   (Z.land 0 TalkerAlias.B00000001) in
    (Z.shiftr (Z.land b TalkerAlias.B11000000) 6 =? f) &&
    (Z.shiftr (Z.land b TalkerAlias.B00111110) 1 =? l)).
  assert (Hall : forallb (fun f => forallb (ok f) (seqZ 0 32)) (seqZ 1 3) = true)
    by (vm_compute; reflexivity).
  rewrite forallb_forall in Hall.
  specialize (Hall f). rewrite <- list_elem_of_In, elem_of_seqZ in Hall.
  specialize (Hall ltac:(lia)). rewrite forallb_forall in Hall.
  specialize (Hall l). rewrite <- list_elem_of_In, elem_of_seqZ in Hall.
  specialize (Hall ltac:(lia)). unfold ok in Hall. cbv zeta in Hall.
  apply andb_true_iff in Hall as [H1 H2].
  split; by apply Z.eqb_eq.
Qed.

(** X3. A header of an 8-bit or Unicode format that holds six data bytes
    is encoded to seven bytes, and these parse to its format, its
    length and the first five of its data bytes: the parser drops the
    sixth. *)
Theorem parse_of_Bytes_drops_sixth_byte (t : TalkerAlias.TalkerAliasHeaderPDU) :
  1 ≤ TalkerAlias.DataFormat t ≤ 3 →
  0 ≤ TalkerAlias.Length t < 32 →
  (6 ≤ length (TalkerAlias.Data t))%nat →
  ∃ b, TalkerAlias.Bytes t = Ok b ∧
       drop 1 b = take 6 (TalkerAlias.Data t) ∧
       TalkerAlias.ParseTalkerAliasHeaderPDU b =
         Ok {| TalkerAlias.DataFormat := TalkerAlias.DataFormat t;
               TalkerAlias.Length := TalkerAlias.Length t;
               TalkerAlias.Data := take 5 (TalkerAlias.Data t) |}.
Proof.
  destruct t as [f l data].
  cbn [TalkerAlias.DataFormat TalkerAlias.Length TalkerAlias.Data].
  intros Hf Hl Hlen.
  destruct data as [|o0 [|o1 [|o2 [|o3 [|o4 [|o5 data]]]]]];
    try (simpl in Hlen; lia).
  destruct (header_byte_fields f l Hf Hl) as [Hfmt Hlng].
  cbv zeta in Hfmt, Hlng.
  unfold TalkerAlias.Bytes.
  cbn [TalkerAlias.DataFormat TalkerAlias.Length TalkerAlias.Data].
  destruct (Z.eqb_spec f TalkerAlias.Format7Bit) as [Heq | _].
  { unfold TalkerAlias.Format7Bit in Heq. lia. }
  eexists. split; [reflexivity |]. split; [reflexivity |].
  unfold TalkerAlias.ParseTalkerAliasHeaderPDU.
  cbn [length Nat.eqb negb].
  match goal with
  | |- context [index (?x :: ?r) 0] =>
      change (index (x :: r) 0) with (Ok (A := Z) x)
  end.
  cbn [mbind result_bind].
  rewrite Hfmt, Hlng.
  destruct (Z.eqb_spec f TalkerAlias.Format7Bit) as [Heq | _].
  { unfold TalkerAlias.Format7Bit in Heq. lia. }
  reflexivity.
Qed.

Lemma parse_of_Bytes_drops_sixth_byte_witness :
  ∃ b, TalkerAlias.Bytes
         {| TalkerAlias.DataFormat := TalkerAlias.FormatISO8Bit;
            TalkerAlias.Length := 6;
            TalkerAlias.Data := bytes_of "PD0MZ1" |} = Ok b ∧
       TalkerAlias.ParseTalkerAliasHeaderPDU b =
         Ok {| TalkerAlias.DataFormat := TalkerAlias.FormatISO8Bit;
               TalkerAlias.Length := 6;
               TalkerAlias.Data := bytes_of "PD0MZ" |}.
Proof.
  destruct (parse_of_Bytes_drops_sixth_byte
              {| TalkerAlias.DataFormat := TalkerAlias.FormatISO8Bit;
                 TalkerAlias.Length := 6;
                 TalkerAlias.Data := bytes_of "PD0MZ1" |})
    as (b & Hb & _ & Hparse);
    [ vm_compute; split; discriminate
    | vm_compute; split; [discriminate | reflexivity]
    | simpl; lia |].
  exists b. split; [exact Hb | exact Hparse].
Defined.

(** X4. A talker-alias block is seven bytes, of which the parser keeps
    six. What [Bytes] returns for a parsed block is those six bytes,
    which the parser rejects for their length: the seventh byte is not
    carried, and a block does not survive the round trip. *)
Theorem block_roundtrip_loses_a_byte (data : list Z) :
  length data = 7%nat →
  ∃ t, TalkerAlias.Block.ParseTalkerAliasBlockPDU data = Ok t ∧
       TalkerAlias.Block.Bytes t = take 6 data ∧
       TalkerAlias.Block.ParseTalkerAliasBlockPDU (TalkerAlias.Block.Bytes t)
         = Err (ErrExpectedLength 7 6).
Proof.
  intros Hlen. unfold TalkerAlias.Block.ParseTalkerAliasBlockPDU at 1.
  rewrite Hlen.
  eexists. split; [reflexivity |].
  cbn [TalkerAlias.Block.Bytes TalkerAlias.Block.Data].
  unfold TalkerAlias.subslice. rewrite drop_0. cbn [Nat.sub].
  split; [reflexivity |].
  unfold TalkerAlias.Block.ParseTalkerAliasBlockPDU.
  rewrite length_take, Hlen. reflexivity.
Qed.

Lemma block_roundtrip_loses_a_byte_witness :
  ∃ t, TalkerAlias.Block.ParseTalkerAliasBlockPDU (bytes_of "go-dmr!") = Ok t ∧
       TalkerAlias.Block.Bytes t = bytes_of "go-dmr".
Proof.
  destruct (block_roundtrip_loses_a_byte (bytes_of "go-dmr!") eq_refl)
    as (t & Ht & Hb & _).
  exists t. split; [exact Ht | exact Hb].
Defined.

(** ** The wire codec: every input *)

Lemma testbit_byte_high (b n : Z) : is_byte b → 8 ≤ n → Z.testbit b n = false.
Proof. intros Hb Hn. apply (testbit_above b 8 n); [exact Hb | exact Hn]. Qed.

(** Bit [n] of the big-endian word made of four bytes. *)
Lemma testbit_be32 (d0 d1 d2 d3 n : Z) :
  is_byte d0 → is_byte d1 → is_byte d2 → is_byte d3 → 0 ≤ n →
  Z.testbit (Z.lor (Z.lor (Z.lor (Z.shiftl d0 24) (Z.shiftl d1 16))
                          (Z.shiftl d2 8)) d3) n =
  if n <? 8 then Z.testbit d3 n
  else if n <? 16 then Z.testbit d2 (n - 8)
  else if n <? 24 then Z.testbit d1 (n - 16)
  else Z.testbit d0 (n - 24).
Proof.
  intros H0 H1 H2 H3 Hn.
  rewrite !Z.lor_spec, !Z.shiftl_spec by lia.
  destruct (Z.ltb_spec n 8).
  { rewrite !(Z.testbit_neg_r _ (n - _)) by lia. reflexivity. }
  rewrite (testbit_byte_high d3 n H3) by lia.
  destruct (Z.ltb_spec n 16).
  { rewrite !(Z.testbit_neg_r _ (n - 16)), !(Z.testbit_neg_r _ (n - 24)) by lia.
    by rewrite orb_false_r. }
  rewrite (testbit_byte_high d2 (n - 8) H2) by lia.
  destruct (Z.ltb_spec n 24).
  { rewrite !(Z.testbit_neg_r _ (n - 24)) by lia. by rewrite !orb_false_r. }
  rewrite (testbit_byte_high d1 (n - 16) H1) by lia.
  by rewrite !orb_false_r.
Qed.

Lemma be32_bytes (d0 d1 d2 d3 : Z) :
  is_byte d0 → is_byte d1 → is_byte d2 → is_byte d3 →
  let x := Z.lor (Z.lor (Z.lor (Z.shiftl d0 24) (Z.shiftl d1 16))
                        (Z.shiftl d2 8)) d3 in
  0 ≤ x < 2 ^ 32 ∧
  uint8 (Z.shiftr x 24) = d0 ∧ uint8 (Z.shiftr x 16) = d1 ∧
  uint8 (Z.shiftr x 8) = d2 ∧ uint8 x = d3.
Proof.
  intros H0 H1 H2 H3 x.
  assert (Hx0 : 0 ≤ x).
  { unfold x, is_byte in *.
    repeat (apply Z.lor_nonneg; split); try apply Z.shiftl_nonneg; lia. }
  assert (Hbit : ∀ k, 0 ≤ k → ∀ n, 0 ≤ n →
            Z.testbit (uint8 (Z.shiftr x k)) n =
            if n <? 8 then Z.testbit x (n + k) else false).
  { intros k Hk n Hn. rewrite testbit_uint8.
    destruct (n <? 8); [| reflexivity]. by rewrite Z.shiftr_spec by lia. }
  split; [split; [exact Hx0 |] |].
  { destruct (Z.eq_dec x 0) as [-> | Hne]; [reflexivity |].
    apply Z.log2_lt_pow2; [lia |].
    destruct (Z.lt_ge_cases (Z.log2 x) 32) as [Hlt | Hge]; [exact Hlt |].
    exfalso. pose proof (Z.bit_log2 x ltac:(lia)) as Hb.
    unfold x in Hb at 1. rewrite testbit_be32 in Hb by (try assumption; lia).
    fold x in Hb.
    destruct (Z.ltb_spec (Z.log2 x) 8); [lia |].
    destruct (Z.ltb_spec (Z.log2 x) 16); [lia |].
    destruct (Z.ltb_spec (Z.log2 x) 24); [lia |].
    rewrite (testbit_byte_high d0 _ H0) in Hb by lia. discriminate. }
  repeat split; apply Z.bits_inj'; intros n Hn.
  - rewrite Hbit by lia. unfold x. rewrite testbit_be32 by (try assumption; lia).
    destruct (Z.ltb_spec n 8).
    + destruct (Z.ltb_spec (n + 24) 8); [lia |].
      destruct (Z.ltb_spec (n + 24) 16); [lia |].
      destruct (Z.ltb_spec (n + 24) 24); [lia |]. f_equal. lia.
    + symmetry. by apply testbit_byte_high.
  - rewrite Hbit by lia. unfold x. rewrite testbit_be32 by (try assumption; lia).
    destruct (Z.ltb_spec n 8).
    + destruct (Z.ltb_spec (n + 16) 8); [lia |].
      destruct (Z.ltb_spec (n + 16) 16); [lia |].
      destruct (Z.ltb_spec (n + 16) 24); [| lia]. f_equal. lia.
    + symmetry. by apply testbit_byte_high.
  - rewrite Hbit by lia. unfold x. rewrite testbit_be32 by (try assumption; lia).
    destruct (Z.ltb_spec n 8).
    + destruct (Z.ltb_spec (n + 8) 8); [lia |].
      destruct (Z.ltb_spec (n + 8) 16); [| lia]. f_equal. lia.
    + symmetry. by apply testbit_byte_high.
  - rewrite testbit_uint8. unfold x.
    rewrite testbit_be32 by (try assumption; lia).
    destruct (Z.ltb_spec n 8); [reflexivity |].
    symmetry. by apply testbit_byte_high.
Qed.

Lemma unpackRepeaterID_cons (d0 d1 d2 d3 : Z) (rest : list Z) :
  unpackRepeaterID (d0 :: d1 :: d2 :: d3 :: rest) =
  Ok (Z.lor (Z.lor (Z.lor (Z.shiftl d0 24) (Z.shiftl d1 16)) (Z.shiftl d2 8)) d3).
Proof. reflexivity. Qed.

(** X5. The packed repeater id. [packRepeaterID] and [unpackRepeaterID]
    are inverse to each other on 32-bit ids and on four bytes;
    [unpackRepeaterID] reads the first four bytes of a longer slice and
    panics on a shorter one. *)
Theorem repeater_id_roundtrip :
  (∀ id, 0 ≤ id < 2 ^ 32 →
     unpackRepeaterID (packRepeaterID id) = Ok id) ∧
  (∀ data, (4 ≤ length data)%nat → Forall is_byte (take 4 data) →
     ∃ id, unpackRepeaterID data = Ok id ∧ 0 ≤ id < 2 ^ 32 ∧
           packRepeaterID id = take 4 data) ∧
  (∀ data, (length data < 4)%nat → unpackRepeaterID data = Panic).
Proof.
  split; [| split].
  - intros id Hid. unfold packRepeaterID. rewrite unpackRepeaterID_cons.
    f_equal. by apply be32.
  - intros data Hlen Hbytes.
    destruct data as [|d0 [|d1 [|d2 [|d3 data]]]]; try (simpl in Hlen; lia).
    cbn [take] in Hbytes.
    apply Forall_cons in Hbytes as [H0 Hbytes].
    apply Forall_cons in Hbytes as [H1 Hbytes].
    apply Forall_cons in Hbytes as [H2 Hbytes].
    apply Forall_cons in Hbytes as [H3 _].
    destruct (be32_bytes d0 d1 d2 d3 H0 H1 H2 H3) as (Hx & E0 & E1 & E2 & E3).
    cbv zeta in *.
    rewrite unpackRepeaterID_cons.
    eexists. split; [reflexivity |]. split; [exact Hx |].
    unfold packRepeaterID. rewrite E0, E1, E2, E3. reflexivity.
  - exact unpackRepeaterID_short.
Qed.

Lemma below_pow2_of_bits (x k : Z) :
  0 ≤ x → 0 ≤ k → (∀ n, k ≤ n → Z.testbit x n = false) → x < 2 ^ k.
Proof.
  intros Hx Hk Hbits.
  destruct (Z.eq_dec x 0) as [-> | Hne]; [apply Z.pow_pos_nonneg; lia |].
  apply Z.log2_lt_pow2; [lia |].
  destruct (Z.lt_ge_cases (Z.log2 x) k) as [Hlt | Hge]; [exact Hlt |].
  pose proof (Z.bit_log2 x ltac:(lia)) as Hb.
  rewrite (Hbits _ Hge) in Hb. discriminate.
Qed.

Lemma be24_bytes (d1 d2 d3 : Z) :
  is_byte d1 → is_byte d2 → is_byte d3 →
  0 ≤ Z.lor (Z.lor (Z.shiftl d1 16) (Z.shiftl d2 8)) d3 < 2 ^ 24.
Proof.
  intros H1 H2 H3.
  assert (H0 : is_byte 0) by (unfold is_byte; lia).
  pose proof (testbit_be32 0 d1 d2 d3) as Hbit.
  rewrite Z.shiftl_0_l, Z.lor_0_l in Hbit.
  split.
  - unfold is_byte in *.
    repeat (apply Z.lor_nonneg; split); try apply Z.shiftl_nonneg; lia.
  - apply below_pow2_of_bits; [| lia |].
    + unfold is_byte in *.
      repeat (apply Z.lor_nonneg; split); try apply Z.shiftl_nonneg; lia.
    + intros n Hn. rewrite Hbit by (try assumption; lia).
      destruct (Z.ltb_spec n 8); [lia |].
      destruct (Z.ltb_spec n 16); [lia |].
      destruct (Z.ltb_spec n 24); [lia |]. apply Z.bits_0.
Qed.

Lemma land_low_bits (x : Z) (k : Z) :
  0 ≤ k → 0 ≤ Z.land x (Z.ones k) < 2 ^ k.
Proof.
  intros Hk. rewrite Z.land_ones by lia. apply Z.mod_pos_bound.
  apply Z.pow_pos_nonneg; lia.
Qed.

Lemma at_is_byte (data : list Z) (i : nat) :
  Forall is_byte data → is_byte (at_ data i).
Proof.
  intros Hall. unfold at_. rewrite list_lookup_total_alt.
  destruct (data !! i) as [b|] eqn:Hb; simpl.
  - eapply (proj1 (Forall_lookup _ _) Hall). exact Hb.
  - unfold is_byte. simpl. lia.
Qed.

Section FrameMore.
Context `{!DmrModule}.

(** [parseData] on 55 bytes. *)
Lemma parseData_55 (data : list Z) :
  length data = 55%nat →
  let kind := Z.land (Z.shiftr (at_ data 15) 4) 3 in
  0 ≤ kind ≤ 3 ∧
  (kind = 3 → parseData data = Err ErrFrameType) ∧
  (kind ≠ 3 →
   ∃ p, parseData data = Ok p ∧
        Packet.Data p = take 33 (drop 20 data) ∧
        length (Packet.Data p) = 33%nat ∧
        (Packet.Timeslot p = 0 ∨ Packet.Timeslot p = 1) ∧
        (Packet.CallType p = 0 ∨ Packet.CallType p = 1) ∧
        0 ≤ Packet.DataType p < 256 ∧
        Packet.Sequence p = at_ data 4 ∧
        Packet.RepeaterID p =
          Z.lor (Z.lor (Z.lor (Z.shiftl (at_ data 11) 24)
                              (Z.shiftl (at_ data 12) 16))
                       (Z.shiftl (at_ data 13) 8)) (at_ data 14) ∧
        (Forall is_byte data →
           is_byte (Packet.Sequence p) ∧
           0 ≤ Packet.SrcID p < 2 ^ 24 ∧
           0 ≤ Packet.DstID p < 2 ^ 24 ∧
           0 ≤ Packet.RepeaterID p < 2 ^ 32 ∧
           0 ≤ Packet.StreamID p < 2 ^ 32 ∧
           is_byte (Packet.BER p) ∧ is_byte (Packet.RSSI p))).
Proof.
  intros Hlen kind.
  assert (Hkind : 0 ≤ kind < 4) by apply (land_low_bits _ 2 ltac:(lia)).
  split; [lia |].
  unfold parseData. rewrite Hlen. cbn [Nat.eqb negb]. fold kind.
  split.
  - intros ->. reflexivity.
  - intros Hne.
    assert (Hpay : copy_at (replicate 33 0) 0 33 (take 33 (drop 20 data))
                   = take 33 (drop 20 data)).
    { apply copy_at_whole. rewrite length_take, length_drop, Hlen.
      reflexivity. }
    assert (Hbit : ∀ k, 0 ≤ k →
              Z.land (Z.shiftr (at_ data 15) k) 1 = 0 ∨
              Z.land (Z.shiftr (at_ data 15) k) 1 = 1).
    { intros k Hk.
      pose proof (land_low_bits (Z.shiftr (at_ data 15) k) 1 ltac:(lia)) as Hb.
      change (Z.ones 1) with 1 in Hb. change (2 ^ 1) with 2 in Hb. lia. }
    assert (Hlow : 0 ≤ Z.land (at_ data 15) 15 < 16)
      by apply (land_low_bits _ 4 ltac:(lia)).
    assert (Hfields : Forall is_byte data →
      is_byte (at_ data 4) ∧
      0 ≤ Z.lor (Z.lor (Z.shiftl (at_ data 5) 16) (Z.shiftl (at_ data 6) 8))
                (at_ data 7) < 2 ^ 24 ∧
      0 ≤ Z.lor (Z.lor (Z.shiftl (at_ data 8) 16) (Z.shiftl (at_ data 9) 8))
                (at_ data 10) < 2 ^ 24 ∧
      0 ≤ Z.lor (Z.lor (Z.lor (Z.shiftl (at_ data 11) 24)
                              (Z.shiftl (at_ data 12) 16))
                       (Z.shiftl (at_ data 13) 8)) (at_ data 14) < 2 ^ 32 ∧
      0 ≤ Z.lor (Z.lor (Z.lor (Z.shiftl (at_ data 16) 24)
                              (Z.shiftl (at_ data 17) 16))
                       (Z.shiftl (at_ data 18) 8)) (at_ data 19) < 2 ^ 32 ∧
      is_byte (at_ data 53) ∧ is_byte (at_ data 54)).
    { intros Hall.
      split; [by apply at_is_byte |].
      split; [apply be24_bytes; by apply at_is_byte |].
      split; [apply be24_bytes; by apply at_is_byte |].
      split; [apply be32_bytes; by apply at_is_byte |].
      split; [apply be32_bytes; by apply at_is_byte |].
      split; by apply at_is_byte. }
    assert (kind = 0 ∨ kind = 1 ∨ kind = 2) as [-> | [-> | ->]] by lia;
      cbn [Z.eqb orb mbind result_bind Pos.eqb];
      (eexists; split; [reflexivity |]);
      cbn [Packet.SetData Packet.Data Packet.Timeslot Packet.CallType
           Packet.DataType Packet.Sequence Packet.SrcID Packet.DstID
           Packet.RepeaterID Packet.StreamID Packet.BER Packet.RSSI];
      rewrite Hpay;
      (split; [reflexivity |]);
      (split; [rewrite length_take, length_drop, Hlen; reflexivity |]);
      (split; [apply Hbit; lia |]);
      (split; [apply Hbit; lia |]);
      (split; [| split; [reflexivity | split; [reflexivity | exact Hfields]]]).
    + unfold uint8. apply Z.mod_pos_bound. lia.
    + unfold uint8. apply Z.mod_pos_bound. lia.
    + lia.
Qed.

(** X6. What [parseData] returns. Off 55 bytes it is the length error;
    on 55 bytes it is the frame-type error when bits 5 and 4 of byte 15
    are both set, and a packet otherwise. The signature in the first
    four bytes is not looked at. The packet carries bytes 20 to 52 as
    its payload, its timeslot and call type are one bit each, and when
    the input holds bytes every field is within its width. *)
Theorem parseData_outcomes (data : list Z) :
  (length data ≠ 55%nat →
   parseData data = Err (ErrExpectedLength 55 (length data))) ∧
  (length data = 55%nat →
   let kind := Z.land (Z.shiftr (at_ data 15) 4) 3 in
   (kind = 3 → parseData data = Err ErrFrameType) ∧
   (kind ≠ 3 →
    ∃ p, parseData data = Ok p ∧
         Packet.Data p = take 33 (drop 20 data) ∧
         (Packet.Timeslot p = 0 ∨ Packet.Timeslot p = 1) ∧
         (Packet.CallType p = 0 ∨ Packet.CallType p = 1) ∧
         0 ≤ Packet.DataType p < 256 ∧
         (Forall is_byte data →
            is_byte (Packet.Sequence p) ∧
            0 ≤ Packet.SrcID p < 2 ^ 24 ∧
            0 ≤ Packet.DstID p < 2 ^ 24 ∧
            0 ≤ Packet.RepeaterID p < 2 ^ 32 ∧
            0 ≤ Packet.StreamID p < 2 ^ 32 ∧
            is_byte (Packet.BER p) ∧ is_byte (Packet.RSSI p)))).
Proof.
  split.
  - intros Hlen. unfold parseData.
    destruct (Nat.eqb_spec (length data) 55) as [? | _];
      [contradiction | reflexivity].
  - intros Hlen kind.
    destruct (parseData_55 data Hlen) as (_ & Herr & Hok). fold kind in Herr, Hok.
    split; [exact Herr |].
    intros Hne.
    destruct (Hok Hne) as (p & Hp & Hd & _ & Hts & Hct & Hdt & _ & _ & Hall).
    exists p. split; [exact Hp |]. split; [exact Hd |].
    split; [exact Hts |]. split; [exact Hct |]. split; [exact Hdt | exact Hall].
Qed.

Lemma field_copy_at_zeros (dst src : list Z) (lo n : nat) :
  (lo + n ≤ length dst)%nat → field dst lo n = replicate n 0 →
  field (copy_at dst lo n src) lo n = take n (src ++ replicate n 0).
Proof.
  intros Hfit Hz. unfold field, copy_at in *.
  set (k := Nat.min n (length src)).
  rewrite drop_app_length' by (rewrite length_take; lia).
  apply list_eq. intros i.
  rewrite !lookup_take.
  destruct (decide (i < n)%nat) as [Hi | Hi]; [| reflexivity].
  destruct (decide (i < length src)%nat) as [Hs | Hs].
  - rewrite lookup_app_l by (rewrite length_take; lia).
    rewrite lookup_app_l by lia.
    rewrite lookup_take. destruct (decide (i < k)%nat); [done | lia].
  - assert (Hk : k = length src) by lia.
    rewrite lookup_app_r by (rewrite length_take; lia).
    rewrite length_take, lookup_drop.
    rewrite lookup_app_r by lia.
    rewrite lookup_replicate_2 by lia.
    assert (Hz' : take n (drop lo dst) !! i = Some 0).
    { rewrite Hz. apply lookup_replicate_2. lia. }
    rewrite lookup_take in Hz'. destruct (decide (i < n)%nat); [| lia].
    rewrite lookup_drop in Hz'. rewrite <- Hz'. f_equal. lia.
Qed.

Lemma length_buildData (p : Packet.t) (rid : Z) :
  length (buildData p rid) = 55%nat.
Proof.
  unfold buildData.
  repeat first
    [ destruct (_ || _)
    | destruct (_ =? _)
    | rewrite length_store
    | rewrite length_copy_at; [| rewrite ?length_store, ?length_copy_at, ?length_replicate; simpl; lia ] ];
  rewrite ?length_replicate; reflexivity.
Qed.

Lemma lookup_copy_at_outside (dst src : list Z) (lo n j : nat) :
  (lo + n ≤ length dst)%nat → (j < lo ∨ lo + n ≤ j)%nat →
  copy_at dst lo n src !! j = dst !! j.
Proof.
  intros Hfit Hout. unfold copy_at.
  set (k := Nat.min n (length src)).
  destruct Hout as [Hbefore | Hafter].
  - rewrite lookup_app_l by (rewrite length_take; lia).
    rewrite lookup_take. destruct (decide (j < lo)%nat); [done | lia].
  - rewrite lookup_app_r by (rewrite length_take; lia).
    rewrite length_take, Nat.min_l by lia.
    rewrite lookup_app_r by (rewrite length_take; lia).
    rewrite length_take, lookup_drop. f_equal. lia.
Qed.

Lemma length_copy_at_any (dst src : list Z) (lo n : nat) :
  (lo + n ≤ length dst)%nat → length (copy_at dst lo n src) = length dst.
Proof.
  intros Hfit. unfold copy_at.
  rewrite !length_app, !length_take, length_drop. lia.
Qed.

Lemma field_copy_at_outside (dst src : list Z) (lo n lo' n' : nat) :
  (lo + n ≤ length dst)%nat → (lo' + n' ≤ lo ∨ lo + n ≤ lo')%nat →
  field (copy_at dst lo n src) lo' n' = field dst lo' n'.
Proof.
  intros Hfit Hout. unfold field. apply list_eq. intros i.
  rewrite !lookup_take.
  destruct (decide (i < n')%nat); [| reflexivity].
  rewrite !lookup_drop. apply lookup_copy_at_outside; [exact Hfit | lia].
Qed.

Lemma at_copy_at_outside (dst src : list Z) (lo n j : nat) :
  (lo + n ≤ length dst)%nat → (j < lo ∨ lo + n ≤ j)%nat →
  at_ (copy_at dst lo n src) j = at_ dst j.
Proof.
  intros Hfit Hout. unfold at_. rewrite !list_lookup_total_alt.
  by rewrite lookup_copy_at_outside.
Qed.

Lemma length_copy_at_N (N : nat) (dst src : list Z) (lo n : nat) :
  length dst = N → (lo + n ≤ N)%nat → length (copy_at dst lo n src) = N.
Proof. intros Hd Hfit. rewrite length_copy_at_any; [exact Hd | lia]. Qed.

Lemma length_store_N (N : nat) (dst : list Z) (i x : Z) :
  length dst = N → length (store dst i x) = N.
Proof. intros Hd. by rewrite length_store. Qed.

Ltac frame_len :=
  repeat first
    [ apply length_store_N
    | apply length_copy_at_N; [| simpl; lia]
    | apply length_replicate ].

Ltac fits55 :=
  match goal with
  | |- (_ ≤ length ?d)%nat =>
      replace (length d) with 55%nat by (symmetry; frame_len); simpl; lia
  | |- (_ < length ?d)%nat =>
      replace (length d) with 55%nat by (symmetry; frame_len); simpl; lia
  end.

(** Read a field of a frame through the writes that follow the one to
    the field. *)
Ltac frame_skip :=
  repeat first
    [ rewrite field_copy_at_outside by first [fits55 | (simpl; lia)]
    | rewrite field_store_other by (simpl; lia)
    | rewrite at_copy_at_outside by first [fits55 | (simpl; lia)]
    | rewrite at_store_other by (simpl; lia) ].

Lemma at_of_field (data : list Z) (lo n i : nat) :
  (i < n)%nat → at_ data (lo + i) = at_ (field data lo n) i.
Proof.
  intros Hi. unfold at_, field. rewrite !list_lookup_total_alt.
  rewrite lookup_take, lookup_drop.
  by destruct (decide (i < n)%nat); [| lia].
Qed.

(** X7. The frame [buildData] lays out, for any packet and repeater id:
    55 bytes that start with the signature, carry the sequence number
    at 4, the packed repeater id at 11 to 14, the payload at 20 to 52,
    cut to 33 bytes or filled up with zeros, and the low bytes of BER
    and RSSI at 53 and 54. Parsing it never fails on the length: either
    the data type has set both frame-type bits, or the packet comes
    back with that payload, the sequence number and the 32-bit repeater
    id. *)
Theorem buildData_layout (p : Packet.t) (rid : Z) :
  let data := buildData p rid in
  length data = 55%nat ∧
  field data 0 4 = DMRData ∧
  at_ data 4 = Packet.Sequence p ∧
  field data 11 4 = packRepeaterID rid ∧
  field data 20 33 = take 33 (Packet.Data p ++ replicate 33 0) ∧
  at_ data 53 = uint8 (Packet.BER p) ∧
  at_ data 54 = uint8 (Packet.RSSI p) ∧
  (parseData data = Err ErrFrameType ∨
   ∃ q, parseData data = Ok q ∧
        Packet.Data q = take 33 (Packet.Data p ++ replicate 33 0) ∧
        Packet.Sequence q = Packet.Sequence p ∧
        (0 ≤ rid < 2 ^ 32 → Packet.RepeaterID q = rid)).
Proof.
  intros data.
  assert (Hlen : length data = 55%nat) by apply length_buildData.
  assert (Hlayout :
    field data 0 4 = DMRData ∧
    at_ data 4 = Packet.Sequence p ∧
    field data 11 4 = packRepeaterID rid ∧
    field data 20 33 = take 33 (Packet.Data p ++ replicate 33 0) ∧
    at_ data 53 = uint8 (Packet.BER p) ∧
    at_ data 54 = uint8 (Packet.RSSI p)).
  { subst data. unfold buildData.
    set (zero := replicate 55 0).
    assert (Hzero : length zero = 55%nat) by apply length_replicate.
    repeat match goal with
    | |- context [if ?b then _ else _] => destruct b
    end.
    all: split; [frame_skip; reflexivity |].
    all: split; [frame_skip; rewrite (at_store_same _ 4) by fits55;
                 reflexivity |].
    all: split; [frame_skip; reflexivity |].
    all: split; [frame_skip; rewrite field_copy_at_zeros;
                 [reflexivity | fits55 | frame_skip; reflexivity] |].
    all: split; [frame_skip; rewrite (at_store_same _ 53) by fits55;
                 reflexivity |].
    all: frame_skip; rewrite (at_store_same _ 54) by fits55; reflexivity. }
  destruct Hlayout as (Hsig & Hseq & Hid & Hpay & Hber & Hrssi).
  split; [exact Hlen |].
  repeat (split; [assumption |]).
  destruct (parseData_55 data Hlen) as (Hkind & Herr & Hok).
  cbv zeta in Hkind, Herr, Hok.
  destruct (Z.eq_dec (Z.land (Z.shiftr (at_ data 15) 4) 3) 3) as [H3 | H3];
    [left; by apply Herr | right].
  destruct (Hok H3) as (q & Hq & Hd & _ & _ & _ & _ & Hs & Hr & _).
  exists q. split; [exact Hq |].
  split; [rewrite Hd; exact Hpay |].
  split; [by rewrite Hs |].
  intros Hrid. rewrite Hr.
  pose proof (at_of_field data 11 4 0 ltac:(lia)) as E0.
  pose proof (at_of_field data 11 4 1 ltac:(lia)) as E1.
  pose proof (at_of_field data 11 4 2 ltac:(lia)) as E2.
  pose proof (at_of_field data 11 4 3 ltac:(lia)) as E3.
  cbn [Nat.add] in E0, E1, E2, E3.
  rewrite E0, E1, E2, E3, Hid. unfold packRepeaterID, at_.
  cbn [lookup_total list_lookup_total].
  by apply be32.
Qed.

End FrameMore.

(** ** The configuration codec: every configuration *)

Section ConfigMore.
Context `{!DmrModule, !GoLib}.

(** What the decoder makes of an encoded configuration, whatever the
    configuration: each field is read from the bytes the encoder put
    in its place. *)
Lemma parse_built_config (c : RepeaterConfiguration.t) :
  let c1 := (buildConfigData c).1 in
  parseConfigData (buildConfigData c).2 =
  Ok {| ID := Z.lor (Z.lor (Z.lor (Z.shiftl (uint8 (Z.shiftr (ID c1) 24)) 24)
                                  (Z.shiftl (uint8 (Z.shiftr (ID c1) 16)) 16))
                           (Z.shiftl (uint8 (Z.shiftr (ID c1) 8)) 8))
                    (uint8 (ID c1));
        Callsign := Trim (take 8 (Sprintf_ls 8 (Callsign c1)));
        RXFreq := uint32 (ParseUint (take 9 (Sprintf_0d 9 (RXFreq c1))) 32).1;
        TXFreq := uint32 (ParseUint (take 9 (Sprintf_0d 9 (TXFreq c1))) 32).1;
        TXPower := uint8 (ParseUint (take 2 (Sprintf_0d 2 (TXPower c1))) 8).1;
        ColorCode :=
          uint8 (ParseUint (take 2 (Sprintf_0d 2 (ColorCode c1))) 8).1;
        Latitude := ParseFloat32 (take 8 (Sprintf_lf 8 (Latitude c1)));
        Longitude := ParseFloat32 (take 9 (Sprintf_lf 9 (Longitude c1)));
        Height := uint16 (ParseUint (take 3 (Sprintf_0d 3 (Height c1))) 32).1;
        Location := Trim (take 20 (Sprintf_ls 20 (Location c1)));
        Description := Trim (take 19 (Sprintf_ls 19 (Description c1)));
        Slots := uint8 (ParseUint (take 1 (Sprintf_0d 1 (Slots c1))) 8).1;
        URL := Trim (take 124 (Sprintf_ls 124 (URL c1)));
        SoftwareID := Trim (take 40 (Sprintf_ls 40 (SoftwareID c1)));
        PackageID := Trim (take 40 (Sprintf_ls 40 (PackageID c1))) |}.
Proof.
  intros c1.
  pose proof (buildConfigData_fields c) as Hf. cbv zeta in Hf. fold c1 in Hf.
  destruct Hf as ((Hb4 & Hb5 & Hb6 & Hb7) & Fcs & Frx & Ftx & Fpw & Fcc & Fla
                  & Flo & Fhg & Flc & Fds & Fsl & Furl & Fsw & Fpk).
  unfold parseConfigData.
  rewrite buildConfigData_length. cbn [Nat.eqb negb].
  rewrite (copy_at_whole _ 302 (buildConfigData_length c)).
  rewrite Hb4, Hb5, Hb6, Hb7, Fcs, Frx, Ftx, Fpw, Fcc, Fla, Flo, Fhg, Flc,
          Fds, Fsl, Furl, Fsw, Fpk.
  reflexivity.
Qed.

End ConfigMore.
(** *** Strings and numbers wider than their field *)

Lemma Trim_cut_padded (w : nat) (s : list Z) :
  Trim (take w (Sprintf_ls w s)) = Trim (take w s).
Proof.
  destruct (decide (length s ≤ w)%nat) as [Hle | Hgt].
  - rewrite Trim_padded by exact Hle. by rewrite take_ge by exact Hle.
  - unfold Sprintf_ls. replace (w - length s)%nat with 0%nat by lia.
    by rewrite app_nil_r.
Qed.

Lemma digits_value_shift (acc : Z) (ds : list Z) :
  digits_value acc ds = acc * 10 ^ Z.of_nat (length ds) + digits_value 0 ds.
Proof.
  revert acc. induction ds as [|d ds IH]; intros acc.
  - cbn [digits_value foldl length]. change (10 ^ Z.of_nat 0) with 1. lia.
  - cbn [digits_value foldl length].
    fold (digits_value (acc * 10 + (d - 48)) ds).
    fold (digits_value (0 * 10 + (d - 48)) ds).
    rewrite (IH (acc * 10 + (d - 48))), (IH (0 * 10 + (d - 48))).
    rewrite Nat2Z.inj_succ, Z.pow_succ_r by lia. lia.
Qed.

Lemma digits_value_bound (ds : list Z) :
  Forall is_digit ds → 0 ≤ digits_value 0 ds < 10 ^ Z.of_nat (length ds).
Proof.
  induction 1 as [|d ds Hd Hds IH].
  - cbn. lia.
  - cbn [digits_value foldl length].
    fold (digits_value (0 * 10 + (d - 48)) ds).
    rewrite digits_value_shift.
    rewrite Nat2Z.inj_succ, Z.pow_succ_r by lia.
    unfold is_digit in Hd.
    assert (0 < 10 ^ Z.of_nat (length ds)) by (apply Z.pow_pos_nonneg; lia).
    nia.
Qed.

(** The digits of [n], exactly as many as it has. *)
Lemma itoa_length (n : Z) (k : nat) :
  10 ^ Z.of_nat k ≤ n < 10 ^ Z.of_nat (S k) → length (itoa n) = S k.
Proof.
  intros Hn.
  assert (H0 : 0 ≤ n).
  { assert (0 < 10 ^ Z.of_nat k) by (apply Z.pow_pos_nonneg; lia). lia. }
  destruct (itoa_spec n H0) as (Hds & Hval & Hlen).
  specialize (Hlen (S k) ltac:(lia) ltac:(lia)).
  pose proof (digits_value_bound (itoa n) Hds) as Hb.
  rewrite (Hval 0) in Hb.
  assert (Hlt : 10 ^ Z.of_nat k < 10 ^ Z.of_nat (length (itoa n))) by lia.
  apply Z.pow_lt_mono_r_iff in Hlt; lia.
Qed.

(** A number of [w + e] digits printed into a field of [w] bytes is cut
    to its first [w] digits, which read as the number without its last
    [e] digits. *)
Lemma ParseUint_cut (w e : nat) (n bits : Z) :
  (0 < w)%nat →
  10 ^ Z.of_nat (w + e - 1) ≤ n < 10 ^ Z.of_nat (w + e) →
  0 ≤ bits ≤ 32 → n / 10 ^ Z.of_nat e < 2 ^ bits →
  ParseUint (take w (Sprintf_0d w n)) bits = (n / 10 ^ Z.of_nat e, false).
Proof.
  intros Hw Hn Hbits Hfit.
  assert (H0 : 0 ≤ n).
  { assert (0 < 10 ^ Z.of_nat (w + e - 1)) by (apply Z.pow_pos_nonneg; lia).
    lia. }
  destruct (itoa_spec n H0) as (Hds & Hval & _).
  assert (Hlen : length (itoa n) = (w + e)%nat).
  { replace (w + e)%nat with (S (w + e - 1)) by lia.
    apply itoa_length. by replace (S (w + e - 1)) with (w + e)%nat by lia. }
  assert (Hcut : take w (Sprintf_0d w n) = take w (itoa n)).
  { unfold Sprintf_0d. replace (w - length (itoa n))%nat with 0%nat by lia.
    reflexivity. }
  rewrite Hcut.
  assert (Hsplit : itoa n = take w (itoa n) ++ drop w (itoa n))
    by (symmetry; apply take_drop).
  assert (Hhd : Forall is_digit (take w (itoa n))) by (by apply Forall_take).
  assert (Htl : Forall is_digit (drop w (itoa n))) by (by apply Forall_drop).
  assert (Hltl : length (drop w (itoa n)) = e) by (rewrite length_drop; lia).
  assert (Hlhd : length (take w (itoa n)) = w) by (rewrite length_take; lia).
  pose proof (digits_value_bound _ Htl) as Hbt. rewrite Hltl in Hbt.
  pose proof (digits_value_bound _ Hhd) as Hbh.
  pose proof (Hval 0) as Hv. rewrite Hsplit in Hv at 1.
  rewrite digits_value_app, digits_value_shift, Hltl in Hv.
  assert (Hq : digits_value 0 (take w (itoa n)) = n / 10 ^ Z.of_nat e).
  { apply Z.div_unique with (digits_value 0 (drop w (itoa n)));
      [left; exact Hbt |]. lia. }
  unfold ParseUint.
  destruct (take w (itoa n)) as [|c s] eqn:Hs; [simpl in Hlhd; lia |].
  rewrite Z.shiftl_1_l.
  assert (Hmax : 2 ^ bits - 1 < 2 ^ 32).
  { assert (2 ^ bits ≤ 2 ^ 32) by (apply Z.pow_le_mono_r; lia). lia. }
  rewrite ParseUint_loop_digits; [by rewrite Hq | lia | exact Hmax | exact Hhd |].
  rewrite Hq. lia.
Qed.

Section ConfigRoundTrip.
Context `{!DmrModule, !GoLib}.

Lemma clamp_in_range (c : RepeaterConfiguration.t) :
  1 ≤ ColorCode c ≤ 15 → TXPower c ≤ 99 → Slots c ≤ 4 →
  SoftwareID c ≠ [] → PackageID c ≠ [] → clamp c = c.
Proof.
  intros Hcc Hpw Hsl Hsw Hpk. unfold clamp.
  destruct c as [i cs rx tx pw cc la lo hg lc ds sl u sw pk].
  cbn [ID Callsign RXFreq TXFreq TXPower ColorCode Latitude Longitude Height
       Location Description Slots URL SoftwareID PackageID] in *.
  rewrite (bool_decide_eq_false_2 (sw = [])) by exact Hsw.
  rewrite (bool_decide_eq_false_2 (pk = [])) by exact Hpk.
  destruct (Z.ltb_spec cc 1); [lia |].
  destruct (Z.ltb_spec 15 cc); [lia |].
  destruct (Z.ltb_spec 99 pw); [lia |].
  destruct (Z.ltb_spec 4 sl); [lia |].
  reflexivity.
Qed.

(** X8. The configuration round trip, without the coordinates. A
    configuration that fits the record and is within the ranges the
    encoder keeps is left as it is by the encoder, and the decoder
    gives back its id, its numbers and its strings, the strings
    trimmed of the spaces at their ends. *)
Theorem config_roundtrip_but_coordinates (c : RepeaterConfiguration.t) :
  fits c → 1 ≤ ColorCode c ≤ 15 → Slots c ≤ 4 →
  SoftwareID c ≠ [] → PackageID c ≠ [] →
  (buildConfigData c).1 = c ∧
  ∃ c2, parseConfigData (buildConfigData c).2 = Ok c2 ∧
        ID c2 = ID c ∧
        Callsign c2 = Trim (Callsign c) ∧
        RXFreq c2 = RXFreq c ∧ TXFreq c2 = TXFreq c ∧
        TXPower c2 = TXPower c ∧ ColorCode c2 = ColorCode c ∧
        Height c2 = Height c ∧
        Location c2 = Trim (Location c) ∧
        Description c2 = Trim (Description c) ∧
        Slots c2 = Slots c ∧
        URL c2 = Trim (URL c) ∧
        SoftwareID c2 = Trim (SoftwareID c) ∧
        PackageID c2 = Trim (PackageID c).
Proof.
  intros Hfits Hcc Hsl Hsw Hpk.
  assert (Hpw : TXPower c ≤ 99) by (unfold fits in Hfits; tauto).
  assert (Hsame : (buildConfigData c).1 = c)
    by (apply (clamp_in_range c Hcc Hpw Hsl Hsw Hpk)).
  split; [exact Hsame |].
  pose proof (config_roundtrip_fields c) as Hrt. cbv zeta in Hrt.
  rewrite Hsame in Hrt. specialize (Hrt Hfits).
  eexists. split; [exact Hrt |].
  cbn [ID Callsign RXFreq TXFreq TXPower ColorCode Height Location
       Description Slots URL SoftwareID PackageID].
  repeat split.
Qed.

(** X9. Strings are cut to their fields. Whatever the configuration, the
    decoder returns from its encoding the first 8 bytes of the call
    sign, 20 of the location, 19 of the description, 124 of the URL and
    40 of the software and package ids (the module's defaults when they
    were empty), each trimmed of the spaces at its ends: what a string
    holds beyond its field is lost. *)
Theorem config_strings_cut_to_field (c : RepeaterConfiguration.t) :
  ∃ c2, parseConfigData (buildConfigData c).2 = Ok c2 ∧
        Callsign c2 = Trim (take 8 (Callsign c)) ∧
        Location c2 = Trim (take 20 (Location c)) ∧
        Description c2 = Trim (take 19 (Description c)) ∧
        URL c2 = Trim (take 124 (URL c)) ∧
        SoftwareID c2 =
          Trim (take 40 (if bool_decide (SoftwareID c = []) then dmr_SoftwareID
                         else SoftwareID c)) ∧
        PackageID c2 =
          Trim (take 40 (if bool_decide (PackageID c = []) then dmr_PackageID
                         else PackageID c)).
Proof.
  eexists. split; [apply parse_built_config |].
  cbn [Callsign Location Description URL SoftwareID PackageID].
  rewrite !Trim_cut_padded.
  repeat split.
Qed.

(** X10. Numbers wider than their field lose their last digits. The two
    frequencies have nine bytes and the height three; a value of more
    digits is printed in full and cut to the field, so that a frequency
    of 1 GHz or more comes back divided by 10, and a height of 1000 or
    more divided by 10 or by 100. Values that fit come back as they
    are. *)
Theorem config_numbers_cut_to_field (c : RepeaterConfiguration.t) :
  ∃ c2, parseConfigData (buildConfigData c).2 = Ok c2 ∧
        (0 ≤ RXFreq c < 10 ^ 9 → RXFreq c2 = RXFreq c) ∧
        (10 ^ 9 ≤ RXFreq c < 2 ^ 32 → RXFreq c2 = RXFreq c / 10) ∧
        (0 ≤ TXFreq c < 10 ^ 9 → TXFreq c2 = TXFreq c) ∧
        (10 ^ 9 ≤ TXFreq c < 2 ^ 32 → TXFreq c2 = TXFreq c / 10) ∧
        (0 ≤ Height c < 1000 → Height c2 = Height c) ∧
        (1000 ≤ Height c < 10000 → Height c2 = Height c / 10) ∧
        (10000 ≤ Height c < 2 ^ 16 → Height c2 = Height c / 100).
Proof.
  eexists. split; [apply parse_built_config |].
  cbn [RXFreq TXFreq Height].
  change (RXFreq (buildConfigData c).1) with (RXFreq c).
  change (TXFreq (buildConfigData c).1) with (TXFreq c).
  change (Height (buildConfigData c).1) with (Height c).
  assert (Hfit9 : ∀ n, 0 ≤ n < 10 ^ 9 →
            uint32 (ParseUint (take 9 (Sprintf_0d 9 n)) 32).1 = n).
  { intros n Hn. rewrite (ParseUint_Sprintf_0d 9 n 32) by (eval_pows; lia).
    cbn [fst]. unfold uint32. eval_pows. apply Z.mod_small. lia. }
  assert (Hcut9 : ∀ n, 10 ^ 9 ≤ n < 2 ^ 32 →
            uint32 (ParseUint (take 9 (Sprintf_0d 9 n)) 32).1 = n / 10).
  { intros n Hn.
    assert (0 ≤ n / 10 < 2 ^ 32).
    { split; [apply Z.div_pos; eval_pows; lia |].
      apply Z.div_lt_upper_bound; eval_pows; lia. }
    rewrite (ParseUint_cut 9 1 n 32); [| lia | eval_pows; lia | lia |];
      change (10 ^ Z.of_nat 1) with 10; [| lia].
    cbn [fst]. unfold uint32. apply Z.mod_small.
    change 4294967296 with (2 ^ 32). lia. }
  split; [exact (Hfit9 (RXFreq c)) |]. split; [exact (Hcut9 (RXFreq c)) |].
  split; [exact (Hfit9 (TXFreq c)) |]. split; [exact (Hcut9 (TXFreq c)) |].
  split; [| split].
  - intros Hn. rewrite (ParseUint_Sprintf_0d 3 (Height c) 32) by (eval_pows; lia).
    cbn [fst]. unfold uint16. apply Z.mod_small. lia.
  - intros Hn.
    assert (0 ≤ Height c / 10 < 1000).
    { split; [apply Z.div_pos; lia | apply Z.div_lt_upper_bound; lia]. }
    rewrite (ParseUint_cut 3 1 (Height c) 32); [| lia | eval_pows; lia | lia |];
      change (10 ^ Z.of_nat 1) with 10; [| eval_pows; lia].
    cbn [fst]. unfold uint16. apply Z.mod_small. lia.
  - intros Hn. eval_pows.
    assert (0 ≤ Height c / 100 < 1000).
    { split; [apply Z.div_pos; lia | apply Z.div_lt_upper_bound; lia]. }
    rewrite (ParseUint_cut 3 2 (Height c) 32); [| lia | eval_pows; lia | lia |];
      change (10 ^ Z.of_nat 2) with 100; [| eval_pows; lia].
    cbn [fst]. unfold uint16. apply Z.mod_small. lia.
Qed.

End ConfigRoundTrip.

Lemma config_roundtrip_but_coordinates_witness :
  ∃ c2, @parseConfigData plain_lib
          (@buildConfigData sample_dmr plain_lib sample_config).2 = Ok c2 ∧
        Callsign c2 = bytes_of "PD0MZ" ∧ RXFreq c2 = 438200000 ∧
        Height c2 = 12.
Proof.
  destruct (@config_roundtrip_but_coordinates sample_dmr plain_lib
              sample_config)
    as (_ & c2 & Hparse & _ & Hcs & Hrx & _ & _ & _ & Hh & _);
    [ unfold fits; simpl; lia | simpl; lia | simpl; lia
    | discriminate | discriminate |].
  exists c2. split; [exact Hparse |].
  split; [rewrite Hcs; reflexivity |]. split; [exact Hrx | exact Hh].
Defined.

(** *** Any 302 bytes *)

Lemma ParseUint_loop_bound (maxVal : Z) (W : nat) (s : list Z) :
  10 ^ Z.of_nat W ≤ maxVal + 1 → maxVal < 2 ^ 32 →
  ∀ (n : Z) (k : nat), 0 ≤ n < 10 ^ Z.of_nat k → (k + length s ≤ W)%nat →
  0 ≤ (ParseUint_loop maxVal n s).1 < 10 ^ Z.of_nat (k + length s).
Proof.
  intros HW Hmax. induction s as [|c s IH]; intros n k Hn Hk.
  - cbn [ParseUint_loop fst length]. by rewrite Nat.add_0_r.
  - cbn [ParseUint_loop length] in *.
    assert (Hpos : 0 < 10 ^ Z.of_nat (k + S (length s)))
      by (apply Z.pow_pos_nonneg; lia).
    destruct ((48 <=? c) && (c <=? 57)) eqn:Hdig; [| cbn [fst]; lia].
    apply andb_true_iff in Hdig as [Hlo Hhi].
    apply Z.leb_le in Hlo, Hhi.
    assert (Hk1 : 10 ^ Z.of_nat (S k) ≤ 10 ^ Z.of_nat W)
      by (apply Z.pow_le_mono_r; lia).
    assert (Hn1 : 0 ≤ n * 10 + (c - 48) < 10 ^ Z.of_nat (S k)).
    { rewrite Nat2Z.inj_succ, Z.pow_succ_r by lia. lia. }
    change (18446744073709551615 / 10 + 1) with 1844674407370955162.
    change (2 ^ 32) with 4294967296 in Hmax.
    destruct (Z.leb_spec 1844674407370955162 n) as [? | _]; [lia |].
    rewrite (Z.mod_small (n * 10 + (c - 48))) by lia.
    destruct (Z.ltb_spec (n * 10 + (c - 48)) (n * 10)) as [? | _]; [lia |].
    destruct (Z.ltb_spec maxVal (n * 10 + (c - 48))) as [? | _]; [lia |].
    cbn [orb].
    replace (k + S (length s))%nat with (S k + length s)%nat by lia.
    apply IH; [exact Hn1 | lia].
Qed.

Lemma ParseUint_bound (s : list Z) (bits : Z) (W : nat) :
  (length s ≤ W)%nat → 0 ≤ bits ≤ 32 → 10 ^ Z.of_nat W ≤ 2 ^ bits →
  0 ≤ (ParseUint s bits).1 < 10 ^ Z.of_nat W.
Proof.
  intros Hlen Hbits HW.
  assert (Hpos : 0 < 10 ^ Z.of_nat W) by (apply Z.pow_pos_nonneg; lia).
  unfold ParseUint. destruct s as [|c s]; [cbn [fst]; lia |].
  rewrite Z.shiftl_1_l.
  assert (Hmax : 2 ^ bits - 1 < 2 ^ 32).
  { assert (2 ^ bits ≤ 2 ^ 32) by (apply Z.pow_le_mono_r; lia). lia. }
  pose proof (ParseUint_loop_bound (2 ^ bits - 1) W (c :: s) ltac:(lia) Hmax
                0 0%nat ltac:(simpl; lia) ltac:(simpl in *; lia)) as Hb.
  cbn [Nat.add] in Hb.
  assert (10 ^ Z.of_nat (length (c :: s)) ≤ 10 ^ Z.of_nat W)
    by (apply Z.pow_le_mono_r; lia).
  lia.
Qed.

Lemma TrimLeft_head (s : list Z) : head (TrimLeft s) ≠ Some 32.
Proof.
  induction s as [|c s IH]; [discriminate |].
  cbn [TrimLeft]. destruct (Z.eqb_spec c 32) as [-> | Hne]; [exact IH |].
  cbn [head]. congruence.
Qed.

Lemma TrimLeft_length (s : list Z) : (length (TrimLeft s) ≤ length s)%nat.
Proof.
  induction s as [|c s IH]; [reflexivity |].
  cbn [TrimLeft]. destruct (c =? 32); cbn [length]; lia.
Qed.

Lemma TrimLeft_last (s : list Z) :
  TrimLeft s ≠ [] → last (TrimLeft s) = last s.
Proof.
  induction s as [|c s IH]; [done |].
  cbn [TrimLeft]. destruct (c =? 32); [| done].
  intros Hne. rewrite (IH Hne).
  destruct s as [|d s]; [done | reflexivity].
Qed.

Lemma last_rev (s : list Z) : last (rev s) = head s.
Proof. rewrite rev_alt. apply last_reverse. Qed.

Lemma head_rev (s : list Z) : head (rev s) = last s.
Proof. rewrite rev_alt. apply head_reverse. Qed.

Lemma Trim_no_space_at_ends (s : list Z) : no_space_at_ends (Trim s).
Proof.
  unfold no_space_at_ends, Trim. rewrite head_rev, last_rev.
  split; [| apply TrimLeft_head].
  destruct (decide (TrimLeft (rev (TrimLeft s)) = [])) as [-> | Hne];
    [discriminate |].
  rewrite (TrimLeft_last _ Hne), last_rev. apply TrimLeft_head.
Qed.

Lemma Trim_length (s : list Z) : (length (Trim s) ≤ length s)%nat.
Proof.
  unfold Trim. rewrite length_rev.
  etransitivity; [apply TrimLeft_length |]. rewrite length_rev.
  apply TrimLeft_length.
Qed.

Lemma field_length (config : list Z) (lo n : nat) :
  (lo + n ≤ length config)%nat → length (field config lo n) = n.
Proof. intros Hfit. unfold field. rewrite length_take, length_drop. lia. Qed.

Section ConfigAny.
Context `{!GoLib}.

(** X11. What [parseConfigData] returns. Off 302 bytes it is the length
    error. On 302 bytes, whatever they hold, it is a configuration: the
    signature is not looked at, a number field that is no number reads
    as 0, and the colour code, the power and the slots are not checked
    against the ranges the encoder keeps. Each number is below the
    power of ten of its field's width and each string is no longer than
    its field and has no space at either end. *)
Theorem parseConfigData_outcomes (data : list Z) :
  (length data ≠ 302%nat →
   parseConfigData data = Err (ErrExpectedLength 302 (length data))) ∧
  (length data = 302%nat →
   ∃ c, parseConfigData data = Ok c ∧
        0 ≤ RXFreq c < 10 ^ 9 ∧ 0 ≤ TXFreq c < 10 ^ 9 ∧
        0 ≤ TXPower c < 100 ∧ 0 ≤ ColorCode c < 100 ∧
        0 ≤ Height c < 1000 ∧ 0 ≤ Slots c < 10 ∧
        (length (Callsign c) ≤ 8)%nat ∧ no_space_at_ends (Callsign c) ∧
        (length (Location c) ≤ 20)%nat ∧ no_space_at_ends (Location c) ∧
        (length (Description c) ≤ 19)%nat ∧
        no_space_at_ends (Description c) ∧
        (length (URL c) ≤ 124)%nat ∧ no_space_at_ends (URL c) ∧
        (length (SoftwareID c) ≤ 40)%nat ∧ no_space_at_ends (SoftwareID c) ∧
        (length (PackageID c) ≤ 40)%nat ∧ no_space_at_ends (PackageID c)).
Proof.
  split.
  - intros Hlen. unfold parseConfigData.
    destruct (Nat.eqb_spec (length data) 302) as [? | _];
      [contradiction | reflexivity].
  - intros Hlen. unfold parseConfigData. rewrite Hlen. cbn [Nat.eqb negb].
    rewrite (copy_at_whole data 302 Hlen).
    eexists. split; [reflexivity |].
    cbn [RXFreq TXFreq TXPower ColorCode Height Slots Callsign Location
         Description URL SoftwareID PackageID].
    assert (Hnum : ∀ lo (n : nat) bits m,
              (lo + n ≤ 302)%nat → 0 ≤ bits ≤ 32 →
              10 ^ Z.of_nat n ≤ 2 ^ bits → 10 ^ Z.of_nat n ≤ m →
              0 ≤ (ParseUint (field data lo n) bits).1 mod m < 10 ^ Z.of_nat n).
    { intros lo n bits m Hfit Hbits Hw Hm.
      pose proof (ParseUint_bound (field data lo n) bits n
                    ltac:(rewrite field_length; lia) Hbits Hw) as Hb.
      rewrite Z.mod_small; lia. }
    assert (Hstr : ∀ lo n, (lo + n ≤ 302)%nat →
              (length (Trim (field data lo n)) ≤ n)%nat ∧
              no_space_at_ends (Trim (field data lo n))).
    { intros lo n Hfit. split; [| apply Trim_no_space_at_ends].
      etransitivity; [apply Trim_length |]. rewrite field_length; lia. }
    unfold uint32, uint16, uint8.
    split; [apply (Hnum 16%nat 9%nat 32); eval_pows; lia |].
    split; [apply (Hnum 25%nat 9%nat 32); eval_pows; lia |].
    split; [apply (Hnum 34%nat 2%nat 8); eval_pows; lia |].
    split; [apply (Hnum 36%nat 2%nat 8); eval_pows; lia |].
    split; [apply (Hnum 55%nat 3%nat 32); eval_pows; lia |].
    split; [apply (Hnum 97%nat 1%nat 8); eval_pows; lia |].
    repeat (split; [apply Hstr; lia |]). apply Hstr; lia.
Qed.

End ConfigAny.

(** *** Longitudes from 0 to 10 degrees east *)

Lemma itoa_one_digit (m : Z) : 0 ≤ m < 10 → length (itoa m) = 1%nat.
Proof.
  intros Hm.
  assert (m = 0 ∨ m = 1 ∨ m = 2 ∨ m = 3 ∨ m = 4 ∨ m = 5 ∨ m = 6 ∨ m = 7 ∨
          m = 8 ∨ m = 9) as Hc by lia.
  repeat (destruct Hc as [-> | Hc]; [reflexivity |]). by subst.
Qed.

Lemma length_Sprintf_0d_fits (w : nat) (n : Z) :
  (0 < w)%nat → 0 ≤ n < 10 ^ Z.of_nat w → length (Sprintf_0d w n) = w.
Proof.
  intros Hw Hn.
  destruct (itoa_spec n ltac:(lia)) as (_ & _ & Hlen).
  specialize (Hlen w Hw ltac:(lia)).
  unfold Sprintf_0d. rewrite length_app, length_replicate. lia.
Qed.

Lemma round_half_even_le (n d : Z) :
  0 < d → n / d ≤ Float32.round_half_even n d ≤ n / d + 1.
Proof.
  intros Hd. unfold Float32.round_half_even.
  repeat match goal with
  | |- context [if ?b then _ else _] => destruct b
  end; lia.
Qed.

(** The text of a [float32] from 0 up to, not including, 10 has eight
    characters: one digit, the point and six decimals. The bit
    patterns of these numbers are those below the pattern of 10. *)
Lemma format_f_below_ten (x : float32) :
  0 ≤ x < 1092616192 → length (Float32.format_f x) = 8%nat.
Proof.
  intros Hx.
  assert (Hsign : Float32.sign x = false).
  { unfold Float32.sign. apply (testbit_above x 31 31); lia. }
  assert (Hexpo : Float32.expo x = x / 8388608).
  { unfold Float32.expo. change 255 with (Z.ones 8).
    rewrite Z.land_ones, Z.shiftr_div_pow2 by lia.
    change (2 ^ 23) with 8388608. change (2 ^ 8) with 256.
    apply Z.mod_small. split; [apply Z.div_pos; lia |].
    apply Z.div_lt_upper_bound; lia. }
  assert (Hfrac : Float32.frac x = x mod 8388608).
  { unfold Float32.frac. change 8388607 with (Z.ones 23).
    by rewrite Z.land_ones by lia. }
  pose proof (Z.div_mod x 8388608 ltac:(lia)) as Hdm.
  pose proof (Z.mod_pos_bound x 8388608 ltac:(lia)) as Hm.
  assert (HE : 0 ≤ x / 8388608 ≤ 130).
  { split; [apply Z.div_pos; lia |].
    assert (x / 8388608 < 131); [apply Z.div_lt_upper_bound; lia | lia]. }
  set (E := x / 8388608) in *. set (F := x mod 8388608) in *.
  assert (Hn : 0 ≤ Float32.round_half_even
                     (Float32.mant x * 1000000) (2 ^ (- Float32.bexp x))
               < 10000000).
  { unfold Float32.mant, Float32.bexp. rewrite Hexpo, Hfrac. fold E F.
    destruct (Z.eqb_spec E 0) as [HE0 | HE0].
    - (* subnormal *)
      change (- -149) with 149.
      pose proof (round_half_even_le (F * 1000000) (2 ^ 149) ltac:(lia)) as Hr.
      assert (F * 1000000 / 2 ^ 149 = 0).
      { apply Z.div_small. split; [lia |].
        apply Z.lt_le_trans with (2 ^ 44); [| apply Z.pow_le_mono_r; lia].
        change (2 ^ 44) with 17592186044416. lia. }
      lia.
    - destruct (Z.eq_dec E 130) as [H130 | H130].
      + rewrite H130. change (- (130 - 150)) with 20.
        change (2 ^ 20) with 1048576.
        assert (HF : F < 2097152) by lia.
        unfold Float32.round_half_even.
        pose proof (Z.div_mod ((8388608 + F) * 1000000) 1048576 ltac:(lia))
          as Hq.
        pose proof (Z.mod_pos_bound ((8388608 + F) * 1000000) 1048576
                      ltac:(lia)) as Hrm.
        set (q := (8388608 + F) * 1000000 / 1048576) in *.
        set (r := (8388608 + F) * 1000000 mod 1048576) in *.
        assert (0 ≤ q) by (apply Z.div_pos; lia).
        repeat match goal with
        | |- context [?a <? ?b] => destruct (Z.ltb_spec a b)
        | |- context [if Z.even ?a then _ else _] => destruct (Z.even a)
        end; lia.
      + assert (Hd : 2 ^ 21 ≤ 2 ^ (- (E - 150)))
          by (apply Z.pow_le_mono_r; lia).
        change (2 ^ 21) with 2097152 in Hd.
        set (D := 2 ^ (- (E - 150))) in *.
        pose proof (round_half_even_le ((8388608 + F) * 1000000) D ltac:(lia))
          as Hr.
        assert (0 ≤ (8388608 + F) * 1000000 / D) by (apply Z.div_pos; lia).
        assert ((8388608 + F) * 1000000 / D < 8000000).
        { apply Z.div_lt_upper_bound; [lia |]. nia. }
        lia. }
  unfold Float32.format_f. rewrite Hsign.
  destruct (Z.eqb_spec (Float32.expo x) 255) as [H255 | _]; [lia |].
  assert (Hneg : Float32.bexp x < 0).
  { unfold Float32.bexp. rewrite Hexpo. fold E.
    destruct (E =? 0); lia. }
  destruct (Z.leb_spec 0 (Float32.bexp x)) as [? | _]; [lia |].
  set (n := Float32.round_half_even _ _) in *.
  rewrite !length_app. cbn [length].
  rewrite itoa_one_digit.
  - rewrite length_Sprintf_0d_fits; [reflexivity | lia |].
    change (10 ^ Z.of_nat 6) with 1000000. apply Z.mod_pos_bound. lia.
  - split; [apply Z.div_pos; lia | apply Z.div_lt_upper_bound; lia].
Qed.

(** X12. A longitude from 0 up to 10 degrees east does not survive the
    round trip. Its [%f] text has eight characters, ["%-09f"] pads it
    with a space to the nine bytes of the field, the decoder's
    [ParseFloat] rejects the padded text, and the configuration comes
    back with longitude 0, whatever its other fields. *)
Theorem longitude_below_ten_decodes_as_zero `{!DmrModule}
    (c : RepeaterConfiguration.t) :
  0 ≤ Longitude c < 1092616192 →
  field (@buildConfigData _ plain_lib c).2 46 9
    = Float32.format_f (Longitude c) ++ [32] ∧
  ∃ c2, @parseConfigData plain_lib (@buildConfigData _ plain_lib c).2 = Ok c2 ∧
        Longitude c2 = 0.
Proof.
  intros Hx.
  pose proof (format_f_below_ten (Longitude c) Hx) as Hlen.
  pose proof (@short_longitude_padded plain_lib (Longitude c) Hlen) as Hpad.
  split.
  - pose proof (@buildConfigData_fields _ plain_lib c) as Hf. cbv zeta in Hf.
    destruct Hf as (_ & _ & _ & _ & _ & _ & _ & Flo & _).
    rewrite Flo. exact Hpad.
  - eexists. split; [apply (@parse_built_config _ plain_lib) |].
    cbn [Longitude].
    change (Longitude (@buildConfigData _ plain_lib c).1) with (Longitude c).
    rewrite Hpad. cbn [ParseFloat32 plain_lib Sprintf_f].
    unfold Float32.parse. by rewrite parse_decimal_space.
Qed.

Lemma longitude_below_ten_decodes_as_zero_witness :
  ∃ c2, @parseConfigData plain_lib
          (@buildConfigData sample_dmr plain_lib sample_config).2 = Ok c2 ∧
        Longitude c2 = 0.
Proof.
  destruct (@longitude_below_ten_decodes_as_zero sample_dmr sample_config)
    as (_ & c2 & Hc2); [simpl; lia |].
  exists c2. exact Hc2.
Defined.

(** ** Sending *)

(** The world after a write to the peer at [ptr]: the time of the last
    packet sent is stamped and the datagram is on the wire. *)
Lemma stamp_lookup (env : Env) (ptr q : nat) (w : World) :
  heap (upd ptr (Peer.upd_Last (Last.set_PacketSent (now env))) w) !! q =
  (if bool_decide (q = ptr)
   then Peer.upd_Last (Last.set_PacketSent (now env))
   else id) <$> heap w !! q.
Proof.
  cbn [heap upd]. case_bool_decide as Hq.
  - subst q. apply list_lookup_alter_eq.
  - rewrite list_lookup_alter_ne by congruence. by rewrite option_fmap_id.
Qed.

Lemma stamp_datagram_to (env : Env) (ptr : nat) (b : list Z)
    (a : option UDPAddr) (w : World) (data : list Z) (q : nat) :
  datagram_to
    (push_wire b a (upd ptr (Peer.upd_Last (Last.set_PacketSent (now env))) w))
    data q
  = datagram_to w data q.
Proof.
  unfold datagram_to. f_equal. cbn [heap push_wire].
  rewrite stamp_lookup. destruct (heap w !! q) as [o|]; [| reflexivity].
  by case_bool_decide.
Qed.

Lemma stamp_is_target (env : Env) (ptr : nat) (b : list Z)
    (a : option UDPAddr) (w : World) (sender dst : Z) (q : nat) :
  is_target
    (push_wire b a (upd ptr (Peer.upd_Last (Last.set_PacketSent (now env))) w))
    sender dst q
  = is_target w sender dst q.
Proof.
  unfold is_target. cbn [heap push_wire].
  rewrite stamp_lookup. destruct (heap w !! q) as [o|]; [| reflexivity].
  by case_bool_decide.
Qed.

(** The peer objects after the peers of a list were written to. *)
Lemma stamped_twice (env : Env) (peers : list nat) (ptr q : nat)
    (o : option Peer.t) :
  (if bool_decide (q ∈ peers)
   then Peer.upd_Last (Last.set_PacketSent (now env)) else id)
    <$> ((if bool_decide (q = ptr)
          then Peer.upd_Last (Last.set_PacketSent (now env)) else id) <$> o)
  = (if bool_decide (q ∈ ptr :: peers)
     then Peer.upd_Last (Last.set_PacketSent (now env)) else id) <$> o.
Proof.
  destruct o as [o|]; [| reflexivity]. cbn [fmap option_fmap option_map].
  f_equal.
  destruct (decide (q = ptr)) as [-> | Hne].
  - rewrite (bool_decide_eq_true_2 (ptr = ptr)) by reflexivity.
    rewrite (bool_decide_eq_true_2 (ptr ∈ ptr :: peers))
      by apply list_elem_of_here.
    by case_bool_decide.
  - rewrite (bool_decide_eq_false_2 (q = ptr)) by exact Hne.
    cbn [id].
    destruct (decide (q ∈ peers)) as [Hin | Hnin].
    + rewrite (bool_decide_eq_true_2 (q ∈ peers)) by exact Hin.
      by rewrite (bool_decide_eq_true_2 (q ∈ ptr :: peers))
        by (by apply list_elem_of_further).
    + rewrite (bool_decide_eq_false_2 (q ∈ peers)) by exact Hnin.
      rewrite (bool_decide_eq_false_2 (q ∈ ptr :: peers)); [done |].
      intros Hin. apply elem_of_cons in Hin as [? | ?]; contradiction.
Qed.

Lemma Send_loop_runs (env : Env) (data : list Z) (peers : list nat) (w : World) :
  (∀ ptr, ptr ∈ peers → is_Some (heap w !! ptr)) →
  (∀ ptr, ptr ∈ peers →
     WriteTo_fails env data (heap w !! ptr ≫= Peer.Addr) = false) →
  ∃ w', runs (Send_loop env data peers) w None w' ∧
        h w' = h w ∧
        wire w' = wire w ++ (datagram_to w data <$> peers) ∧
        ∀ q, heap w' !! q =
             (if bool_decide (q ∈ peers)
              then Peer.upd_Last (Last.set_PacketSent (now env)) else id)
               <$> heap w !! q.
Proof.
  revert w. induction peers as [|ptr rest IH]; intros w Hval Hok.
  - exists w. split; [apply runs_ret |]. split; [reflexivity |].
    split; [by rewrite app_nil_r |].
    intros q. rewrite bool_decide_eq_false_2 by apply not_elem_of_nil.
    by rewrite option_fmap_id.
  - destruct (Hval ptr (list_elem_of_here _ _)) as [o Ho].
    pose proof (runs_WriteToPeer env data ptr o w Ho) as Hw.
    pose proof (Hok ptr (list_elem_of_here _ _)) as Hptr.
    rewrite Ho in Hptr. cbn [mbind option_bind] in Hptr.
    rewrite Hptr in Hw.
    set (w1 := push_wire data (Peer.Addr o)
                 (upd ptr (Peer.upd_Last (Last.set_PacketSent (now env))) w))
      in *.
    destruct (IH w1) as (w' & Hrun & Hh & Hwire & Hheap).
    { intros q Hq. subst w1. cbn [heap push_wire]. rewrite stamp_lookup.
      destruct (Hval q (list_elem_of_further _ _ _ Hq)) as [oq ->].
      by eexists. }
    { intros q Hq.
      assert (Hsame : heap w1 !! q ≫= Peer.Addr = heap w !! q ≫= Peer.Addr).
      { pose proof (stamp_datagram_to env ptr data (Peer.Addr o) w data q)
          as Hd.
        unfold datagram_to in Hd. by injection Hd. }
      rewrite Hsame. apply Hok. by apply list_elem_of_further. }
    exists w'. split; [| split; [| split]].
    + cbn [Send_loop]. eapply runs_bind; [exact Hw |]. exact Hrun.
    + rewrite Hh. reflexivity.
    + rewrite Hwire. subst w1. cbn [wire push_wire fmap list_fmap].
      rewrite <- app_assoc. cbn [app]. f_equal. f_equal.
      * unfold datagram_to. by rewrite Ho.
      * apply list_fmap_ext. intros i q _. apply stamp_datagram_to.
    + intros q. rewrite Hheap. subst w1. cbn [heap push_wire].
      rewrite stamp_lookup. apply stamped_twice.
Qed.

Lemma Send_loop_fails (env : Env) (data : list Z) (pre post : list nat)
    (ptr : nat) (w : World) :
  (∀ q, q ∈ pre ++ [ptr] → is_Some (heap w !! q)) →
  (∀ q, q ∈ pre →
     WriteTo_fails env data (heap w !! q ≫= Peer.Addr) = false) →
  WriteTo_fails env data (heap w !! ptr ≫= Peer.Addr) = true →
  ∃ w', runs (Send_loop env data (pre ++ ptr :: post)) w (Some ErrConn) w' ∧
        h w' = h w ∧
        wire w' = wire w ++ (datagram_to w data <$> pre ++ [ptr]).
Proof.
  revert w. induction pre as [|q0 pre IH]; intros w Hval Hok Hbad.
  - destruct (Hval ptr ltac:(apply list_elem_of_here)) as [o Ho].
    pose proof (runs_WriteToPeer env data ptr o w Ho) as Hw.
    rewrite Ho in Hbad. cbn [mbind option_bind] in Hbad. rewrite Hbad in Hw.
    eexists. split; [| split].
    + cbn [app Send_loop]. eapply runs_bind; [exact Hw |]. apply runs_ret.
    + reflexivity.
    + cbn [wire push_wire app fmap list_fmap]. unfold datagram_to.
      by rewrite Ho.
  - destruct (Hval q0 ltac:(apply list_elem_of_here)) as [o Ho].
    pose proof (runs_WriteToPeer env data q0 o w Ho) as Hw.
    pose proof (Hok q0 (list_elem_of_here _ _)) as Hq0.
    rewrite Ho in Hq0. cbn [mbind option_bind] in Hq0. rewrite Hq0 in Hw.
    set (w1 := push_wire data (Peer.Addr o)
                 (upd q0 (Peer.upd_Last (Last.set_PacketSent (now env))) w))
      in *.
    assert (Hsame : ∀ q, heap w1 !! q ≫= Peer.Addr = heap w !! q ≫= Peer.Addr).
    { intros q.
      pose proof (stamp_datagram_to env q0 data (Peer.Addr o) w data q) as Hd.
      unfold datagram_to in Hd. by injection Hd. }
    destruct (IH w1) as (w' & Hrun & Hh & Hwire).
    { intros q Hq. subst w1. cbn [heap push_wire]. rewrite stamp_lookup.
      destruct (Hval q ltac:(by apply list_elem_of_further)) as [oq ->].
      by eexists. }
    { intros q Hq. rewrite Hsame. apply Hok. by apply list_elem_of_further. }
    { by rewrite Hsame. }
    exists w'. split; [| split].
    + cbn [app Send_loop]. eapply runs_bind; [exact Hw |]. exact Hrun.
    + rewrite Hh. reflexivity.
    + rewrite Hwire. subst w1. cbn [wire push_wire app fmap list_fmap].
      rewrite <- app_assoc. cbn [app]. f_equal. f_equal.
      * unfold datagram_to. by rewrite Ho.
      * apply list_fmap_ext. intros i q _. apply stamp_datagram_to.
Qed.

Lemma runs_getPeers (w : World) :
  runs getPeers w ((map_to_list (Homebrew.Peer (h w))).*2) w.
Proof. unfold getPeers. eapply runs_bind; [apply runs_get |]. apply runs_ret. Qed.

Lemma registered_allocated (w : World) (ptr : nat) :
  registry_allocated w → ptr ∈ (map_to_list (Homebrew.Peer (h w))).*2 →
  is_Some (heap w !! ptr).
Proof.
  intros Hreg Hin. apply list_elem_of_fmap in Hin as ([a q] & -> & Hin).
  apply elem_of_map_to_list in Hin. by apply (Hreg a).
Qed.

Section Sending.
Context `{!DmrModule}.

(** X13. [Send] writes the packet's frame to every peer of the address
    index, whatever the state of its authentication, in the order the
    map yields them, and stamps the time of the last packet sent on
    each. It stops at the first write that fails and returns that
    error: the peers after it get nothing. The indexes are left as
    they were. *)
Theorem Send_reaches_every_peer (env : Env) (p : Packet.t) (w : World) :
  registry_allocated w →
  let frame := buildData p (ID (Homebrew.Config (h w))) in
  let peers := (map_to_list (Homebrew.Peer (h w))).*2 in
  ((∀ ptr, ptr ∈ peers →
      WriteTo_fails env frame (heap w !! ptr ≫= Peer.Addr) = false) →
   ∃ w', runs (Send env p) w None w' ∧ h w' = h w ∧
         wire w' = wire w ++ (datagram_to w frame <$> peers) ∧
         ∀ q, heap w' !! q =
              (if bool_decide (q ∈ peers)
               then Peer.upd_Last (Last.set_PacketSent (now env)) else id)
                <$> heap w !! q) ∧
  (∀ pre ptr post, peers = pre ++ ptr :: post →
     (∀ q, q ∈ pre →
        WriteTo_fails env frame (heap w !! q ≫= Peer.Addr) = false) →
     WriteTo_fails env frame (heap w !! ptr ≫= Peer.Addr) = true →
     ∃ w', runs (Send env p) w (Some ErrConn) w' ∧ h w' = h w ∧
           wire w' = wire w ++ (datagram_to w frame <$> pre ++ [ptr])).
Proof.
  intros Hreg frame peers.
  assert (Hstart : ∀ e w',
    runs (Send_loop env frame peers) w e w' → runs (Send env p) w e w').
  { intros e w' Hrun. unfold Send.
    eapply runs_bind; [apply runs_get |].
    eapply runs_bind; [apply runs_getPeers |]. exact Hrun. }
  split.
  - intros Hok.
    destruct (Send_loop_runs env frame peers w) as (w' & Hrun & Hrest);
      [intros ptr Hin; by apply registered_allocated | exact Hok |].
    exists w'. split; [by apply Hstart | exact Hrest].
  - intros pre ptr post Hsplit Hok Hbad.
    destruct (Send_loop_fails env frame pre post ptr w) as (w' & Hrun & Hrest);
      [| exact Hok | exact Hbad |].
    { intros q Hq. apply registered_allocated; [exact Hreg |].
      fold peers. rewrite Hsplit.
      apply elem_of_app in Hq as [Hq | Hq]; [set_solver |].
      apply list_elem_of_singleton in Hq as ->. set_solver. }
    exists w'. split; [apply Hstart; by rewrite Hsplit | exact Hrest].
Qed.

End Sending.

Lemma SendTG_loop_runs (env : Env) (data : list Z) (dst : Z) (origin : nat)
    (oo : Peer.t) (peers : list nat) (w : World) :
  heap w !! origin = Some oo →
  (∀ ptr, ptr ∈ peers → is_Some (heap w !! ptr)) →
  (∀ ptr, ptr ∈ tg_targets w (Peer.ID oo) dst peers →
     WriteTo_fails env data (heap w !! ptr ≫= Peer.Addr) = false) →
  ∃ w', runs (SendTG_loop env data dst origin peers) w None w' ∧
        h w' = h w ∧
        wire w' = wire w
                  ++ (datagram_to w data <$> tg_targets w (Peer.ID oo) dst peers) ∧
        ∀ q, heap w' !! q =
             (if bool_decide (q ∈ tg_targets w (Peer.ID oo) dst peers)
              then Peer.upd_Last (Last.set_PacketSent (now env)) else id)
               <$> heap w !! q.
Proof.
  revert w. induction peers as [|ptr rest IH]; intros w Hoo Hval Hok.
  - exists w. split; [apply runs_ret |]. split; [reflexivity |].
    split; [by rewrite app_nil_r |].
    intros q. cbn [tg_targets List.filter].
    rewrite bool_decide_eq_false_2 by apply not_elem_of_nil.
    by rewrite option_fmap_id.
  - destruct (Hval ptr (list_elem_of_here _ _)) as [o Ho].
    assert (Hval' : ∀ q, q ∈ rest → is_Some (heap w !! q))
      by (intros q Hq; by apply Hval, list_elem_of_further).
    assert (Hstep : ∀ e w',
      runs (if Peer.ID o =? Peer.ID oo
            then SendTG_loop env data dst origin rest
            else if Peer.TGID o =? dst
            then err ← WriteToPeer env data (Some ptr);
                 match err with
                 | Some e => mret (Some e)
                 | None => SendTG_loop env data dst origin rest
                 end
            else SendTG_loop env data dst origin rest) w e w' →
      runs (SendTG_loop env data dst origin (ptr :: rest)) w e w').
    { intros e w' Hrun. cbn [SendTG_loop].
      eapply runs_bind; [by apply runs_deref |].
      eapply runs_bind; [by apply runs_deref |]. exact Hrun. }
    assert (Ht : is_target w (Peer.ID oo) dst ptr =
                 negb (Peer.ID o =? Peer.ID oo) && (Peer.TGID o =? dst))
      by (unfold is_target; by rewrite Ho).
    unfold tg_targets in *. cbn [List.filter] in *.
    rewrite Ht in *.
    destruct (Z.eqb_spec (Peer.ID o) (Peer.ID oo)) as [Hid | Hid];
      cbn [negb andb] in *.
    { destruct (IH w Hoo Hval' Hok) as (w' & Hrun & Hrest).
      exists w'. split; [apply Hstep; exact Hrun | exact Hrest]. }
    destruct (Z.eqb_spec (Peer.TGID o) dst) as [Htg | Htg].
    2: { destruct (IH w Hoo Hval' Hok) as (w' & Hrun & Hrest).
         exists w'. split; [apply Hstep; exact Hrun | exact Hrest]. }
    pose proof (runs_WriteToPeer env data ptr o w Ho) as Hw.
    pose proof (Hok ptr (list_elem_of_here _ _)) as Hptr.
    rewrite Ho in Hptr. cbn [mbind option_bind] in Hptr. rewrite Hptr in Hw.
    set (w1 := push_wire data (Peer.Addr o)
                 (upd ptr (Peer.upd_Last (Last.set_PacketSent (now env))) w))
      in *.
    assert (Hne : origin ≠ ptr) by (intros ->; congruence).
    assert (Hfilter :
      List.filter (is_target w1 (Peer.ID oo) dst) rest =
      List.filter (is_target w (Peer.ID oo) dst) rest).
    { apply List.filter_ext. intros q. apply stamp_is_target. }
    destruct (IH w1) as (w' & Hrun & Hh & Hwire & Hheap).
    { subst w1. cbn [heap push_wire]. rewrite stamp_lookup.
      rewrite bool_decide_eq_false_2 by exact Hne. by rewrite Hoo. }
    { intros q Hq. subst w1. cbn [heap push_wire]. rewrite stamp_lookup.
      destruct (Hval' q Hq) as [oq ->]. by eexists. }
    { intros q Hq. rewrite Hfilter in Hq.
      assert (Hsame : heap w1 !! q ≫= Peer.Addr = heap w !! q ≫= Peer.Addr).
      { pose proof (stamp_datagram_to env ptr data (Peer.Addr o) w data q)
          as Hd.
        unfold datagram_to in Hd. by injection Hd. }
      rewrite Hsame. apply Hok. by apply list_elem_of_further. }
    rewrite Hfilter in Hwire, Hheap.
    exists w'. split; [| split; [| split]].
    + apply Hstep. eapply runs_bind; [exact Hw |]. exact Hrun.
    + rewrite Hh. reflexivity.
    + rewrite Hwire. subst w1. cbn [wire push_wire fmap list_fmap].
      rewrite <- app_assoc. cbn [app]. f_equal. f_equal.
      * unfold datagram_to. by rewrite Ho.
      * apply list_fmap_ext. intros i q _. apply stamp_datagram_to.
    + intros q. rewrite Hheap. subst w1. cbn [heap push_wire].
      rewrite stamp_lookup. apply stamped_twice.
Qed.

Lemma elem_of_tg_targets (w : World) (sender dst : Z) (peers : list nat)
    (ptr : nat) :
  ptr ∈ tg_targets w sender dst peers ↔
  ptr ∈ peers ∧ ∃ o, heap w !! ptr = Some o ∧
                     Peer.ID o ≠ sender ∧ Peer.TGID o = dst.
Proof.
  unfold tg_targets. rewrite list_elem_of_In, List.filter_In, <- list_elem_of_In.
  unfold is_target. split.
  - intros [Hin Ht]. split; [exact Hin |].
    destruct (heap w !! ptr) as [o|]; [| discriminate].
    exists o. split; [reflexivity |].
    apply andb_true_iff in Ht as [Hid Htg].
    apply negb_true_iff, Z.eqb_neq in Hid. apply Z.eqb_eq in Htg. by split.
  - intros [Hin (o & -> & Hid & Htg)]. split; [exact Hin |].
    apply andb_true_iff. split; [| by apply Z.eqb_eq].
    by apply negb_true_iff, Z.eqb_neq.
Qed.

Lemma runs_getPeer (id : Z) (w : World) :
  runs (getPeer id) w (Homebrew.PeerID (h w) !! id) w.
Proof. unfold getPeer. eapply runs_bind; [apply runs_get |]. apply runs_ret. Qed.

(** X14. [WriteToPeerWithID] writes to the peer registered under the id.
    With no such peer it returns the nil-peer error and changes
    nothing. Otherwise the datagram goes to the peer's address and the
    call returns what the socket returned; the time of the last packet
    sent is stamped before the write, and so also when the write
    fails. *)
Theorem WriteToPeerWithID_outcomes (env : Env) (b : list Z) (id : Z)
    (w : World) :
  (Homebrew.PeerID (h w) !! id = None →
   runs (WriteToPeerWithID env b id) w (Some ErrWriteNilPeer) w) ∧
  (∀ ptr o, Homebrew.PeerID (h w) !! id = Some ptr → heap w !! ptr = Some o →
     ∃ w', runs (WriteToPeerWithID env b id) w
             (if WriteTo_fails env b (Peer.Addr o) then Some ErrConn else None)
             w' ∧
           h w' = h w ∧
           wire w' = wire w ++ [(b, Peer.Addr o)] ∧
           heap w' !! ptr =
             Some (Peer.upd_Last (Last.set_PacketSent (now env)) o) ∧
           ∀ q, q ≠ ptr → heap w' !! q = heap w !! q).
Proof.
  split.
  - intros Hnone. unfold WriteToPeerWithID.
    eapply runs_bind; [apply runs_getPeer |]. rewrite Hnone. apply runs_ret.
  - intros ptr o Hreg Ho. eexists. split; [| split; [| split; [| split]]].
    + unfold WriteToPeerWithID.
      eapply runs_bind; [apply runs_getPeer |]. rewrite Hreg.
      by apply runs_WriteToPeer.
    + reflexivity.
    + reflexivity.
    + cbn [heap push_wire]. by apply heap_upd_eq.
    + intros q Hq. cbn [heap push_wire]. apply heap_upd_ne. congruence.
Qed.

Section SendingTG.
Context `{!DmrModule}.

Lemma runs_SendTG (env : Env) (p : Packet.t) (origin : nat) (oo : Peer.t)
    (w : World) :
  registry_allocated w → heap w !! origin = Some oo →
  let frame := buildData p (ID (Homebrew.Config (h w))) in
  let peers := (map_to_list (Homebrew.Peer (h w))).*2 in
  let targets := tg_targets w (Peer.ID oo) (Packet.DstID p) peers in
  (∀ ptr, ptr ∈ targets →
     WriteTo_fails env frame (heap w !! ptr ≫= Peer.Addr) = false) →
  ∃ w', runs (SendTG env p origin) w None w' ∧ h w' = h w ∧
        wire w' = wire w ++ (datagram_to w frame <$> targets) ∧
        ∀ q, heap w' !! q =
             (if bool_decide (q ∈ targets)
              then Peer.upd_Last (Last.set_PacketSent (now env)) else id)
               <$> heap w !! q.
Proof.
  intros Hreg Hoo frame peers targets Hok.
  destruct (SendTG_loop_runs env frame (Packet.DstID p) origin oo peers w Hoo)
    as (w' & Hrun & Hrest);
    [intros ptr Hin; by apply registered_allocated | exact Hok |].
  exists w'. split; [| exact Hrest].
  unfold SendTG.
  eapply runs_bind; [apply runs_get |].
  eapply runs_bind; [apply runs_getPeers |]. exact Hrun.
Qed.

(** X15. [SendTG] forwards a packet to the talk group it is addressed to:
    the frame is written, in the order the map yields them, to the
    peers of the address index whose talk group is the packet's
    destination, except those that carry the id of the peer the packet
    came from. No other peer is written to, and the authentication
    state of a peer plays no part. *)
Theorem SendTG_reaches_the_talk_group (env : Env) (p : Packet.t)
    (origin : nat) (oo : Peer.t) (w : World) :
  registry_allocated w → heap w !! origin = Some oo →
  let frame := buildData p (ID (Homebrew.Config (h w))) in
  let peers := (map_to_list (Homebrew.Peer (h w))).*2 in
  let targets := tg_targets w (Peer.ID oo) (Packet.DstID p) peers in
  (∀ ptr, ptr ∈ targets →
     WriteTo_fails env frame (heap w !! ptr ≫= Peer.Addr) = false) →
  (∀ ptr, ptr ∈ targets ↔
          ptr ∈ peers ∧
          ∃ o, heap w !! ptr = Some o ∧
               Peer.ID o ≠ Peer.ID oo ∧ Peer.TGID o = Packet.DstID p) ∧
  ∃ w', runs (SendTG env p origin) w None w' ∧ h w' = h w ∧
        wire w' = wire w ++ (datagram_to w frame <$> targets) ∧
        ∀ q, heap w' !! q =
             (if bool_decide (q ∈ targets)
              then Peer.upd_Last (Last.set_PacketSent (now env)) else id)
               <$> heap w !! q.
Proof.
  intros Hreg Hoo frame peers targets Hok.
  split; [intros ptr; apply elem_of_tg_targets |].
  by apply runs_SendTG.
Qed.

(** Who gets a packet that came in: the peer's callback, else the
    endpoint's, else the built-in routing, which drops what is not a
    group call. *)
Lemma runs_handlePacket_cases (env : Env) (p : Packet.t) (ptr : nat)
    (o : Peer.t) (w : World) :
  heap w !! ptr = Some o →
  let w1 := upd_h (set_last (now env)) w in
  (∀ f, Peer.PacketReceived o = Some f →
        runs (handlePacket env p ptr) w (f p) w1) ∧
  (∀ g, Peer.PacketReceived o = None → Homebrew.pf (h w) = Some g →
        runs (handlePacket env p ptr) w (g p) w1) ∧
  (Peer.PacketReceived o = None → Homebrew.pf (h w) = None →
   Packet.CallType p ≠ CallTypeGroup →
   runs (handlePacket env p ptr) w None w1).
Proof.
  intros Ho w1.
  assert (Hstart : ∀ e w',
    runs (match Peer.PacketReceived o with
          | Some f => mret (f p)
          | None =>
              w ← get;
              match Homebrew.pf (h w) with
              | None =>
                  if Packet.CallType p =? CallTypeGroup then
                    modify ptr (Peer.set_TGID (Packet.DstID p));;
                    modify ptr
                      (Peer.upd_Last (Last.set_TGSubscribed (now env)));;
                    SendTG env p ptr
                  else mret None
              | Some f => mret (f p)
              end
          end) w1 e w' →
    runs (handlePacket env p ptr) w e w').
  { intros e w' Hrun. unfold handlePacket.
    eapply runs_bind; [apply runs_modify_h |].
    eapply runs_bind; [apply runs_deref; exact Ho |]. exact Hrun. }
  split; [| split].
  - intros f Hf. apply Hstart. rewrite Hf. apply runs_ret.
  - intros g Hf Hg. apply Hstart. rewrite Hf.
    eapply runs_bind; [apply runs_get |].
    cbn [h w1 upd_h set_last Homebrew.pf]. rewrite Hg. apply runs_ret.
  - intros Hf Hg Hct. apply Hstart. rewrite Hf.
    eapply runs_bind; [apply runs_get |].
    cbn [h w1 upd_h set_last Homebrew.pf]. rewrite Hg.
    destruct (Z.eqb_spec (Packet.CallType p) CallTypeGroup) as [? | _];
      [contradiction | apply runs_ret].
Qed.

End SendingTG.

(** ** DMR data on a link *)

Section DataFrames.
Context `{!DmrModule, !GoLib, !PeerMethods}.

(** A datagram of eight bytes or more from the address of a linked
    peer: the time of the last packet received is stamped, and the
    state and role of the peer pick the arm. *)
Lemma runs_handle_known (env : Env) (w : World) (remote : UDPAddr)
    (ptr : nat) (o : Peer.t) (d : datagram) (e : option error) (w' : World) :
  Homebrew.Peer (h w) !! remote = Some ptr →
  heap w !! ptr = Some o →
  (8 ≤ len d)%nat →
  runs (if negb (bool_decide (Peer.Status o = AuthDone)) then
          case_verb d 4 DMRData (mret None)
            (if Peer.Incoming o
             then handle_auth_incoming env d ptr
             else handle_auth_outgoing env d ptr)
        else if Peer.Incoming o
        then handle_done_incoming env d ptr
        else handle_done_outgoing env d ptr)
       (upd ptr (Peer.upd_Last (Last.set_PacketReceived (now env))) w) e w' →
  runs (handle env remote d) w e w'.
Proof.
  intros Hreg Ho Hlen Hrun. unfold handle.
  eapply runs_bind; [apply runs_getPeerByAddr |].
  rewrite Hreg. unfold handle_peer.
  destruct (Nat.ltb_spec (len d) 8) as [Hlt|_]; [lia |].
  eapply runs_bind; [eapply runs_modify; exact Ho |].
  eapply runs_bind; [eapply runs_deref; heap_lookup Ho |].
  exact Hrun.
Qed.

Lemma runs_handle_DMRD (env : Env) (w : World) (remote : UDPAddr)
    (ptr : nat) (o : Peer.t) (d : datagram) (e : option error) (w' : World) :
  Homebrew.Peer (h w) !! remote = Some ptr →
  heap w !! ptr = Some o →
  Peer.Status o = AuthDone →
  (8 ≤ len d)%nat → take 4 (elts d) = DMRData →
  runs (handle_dmrd env d ptr)
       (upd ptr (Peer.upd_Last (Last.set_PacketReceived (now env))) w) e w' →
  runs (handle env remote d) w e w'.
Proof.
  intros Hreg Ho Hst Hlen Hverb Hrun.
  apply (runs_handle_known env w remote ptr o d e w' Hreg Ho Hlen).
  cbn [Peer.upd_Last Peer.Status Peer.Incoming]. rewrite Hst.
  rewrite bool_decide_eq_true_2 by reflexivity. cbn [negb].
  destruct (Peer.Incoming o).
  - unfold handle_done_incoming.
    eapply runs_bind; [apply runs_get |].
    apply runs_case_verb; [lia |].
    rewrite Hverb. unfold bytes_Equal.
    rewrite bool_decide_eq_true_2 by reflexivity. exact Hrun.
  - unfold handle_done_outgoing.
    eapply runs_bind; [apply runs_get |]. cbv zeta.
    apply runs_case_verb; [lia |].
    rewrite Hverb. unfold bytes_Equal.
    rewrite bool_decide_eq_true_2 by reflexivity. exact Hrun.
Qed.

(** X16. DMR data from a peer that has not completed its authentication
    is dropped, in either role and in any state but Done: only the time
    of the last packet received is stamped. Nothing is sent, the frame
    is not parsed, and the peer stays in its state. *)
Theorem DMRD_before_authentication_is_dropped (env : Env) (w : World)
    (remote : UDPAddr) (ptr : nat) (o : Peer.t) (d : datagram) :
  Homebrew.Peer (h w) !! remote = Some ptr →
  heap w !! ptr = Some o →
  Peer.Status o ≠ AuthDone →
  (8 ≤ len d)%nat → take 4 (elts d) = DMRData →
  runs (handle env remote d) w None
       (upd ptr (Peer.upd_Last (Last.set_PacketReceived (now env))) w).
Proof.
  intros Hreg Ho Hst Hlen Hverb.
  apply (runs_handle_known env w remote ptr o d _ _ Hreg Ho Hlen).
  rewrite bool_decide_eq_false_2 by exact Hst. cbn [negb].
  apply runs_case_verb; [lia |].
  rewrite Hverb. unfold bytes_Equal.
  rewrite bool_decide_eq_true_2 by reflexivity. apply runs_ret.
Qed.

Lemma parseData_Ok_length (data : list Z) (p : Packet.t) :
  parseData data = Ok p → length data = 55%nat.
Proof.
  unfold parseData.
  destruct (Nat.eqb_spec (length data) 55) as [Heq | _]; [done | discriminate].
Qed.

(** X17. A frame that parses goes to a callback if there is one. For a
    peer in Done, of either role, the packet parsed from a DMR data
    datagram is handed to the peer's own callback, or else to the
    endpoint's, and [handle] returns what the callback returned, an
    error included; the built-in routing is not run. With no callback
    a packet that is not a group call is dropped. In each case the
    times of the last packet received from the peer and of the last
    frame are stamped. *)
Theorem DMRD_goes_to_the_callback (env : Env) (w : World)
    (remote : UDPAddr) (ptr : nat) (o : Peer.t) (d : datagram) (p : Packet.t) :
  Homebrew.Peer (h w) !! remote = Some ptr →
  heap w !! ptr = Some o →
  Peer.Status o = AuthDone →
  take 4 (elts d) = DMRData → parseData (elts d) = Ok p →
  let w1 := upd_h (set_last (now env))
              (upd ptr (Peer.upd_Last (Last.set_PacketReceived (now env))) w) in
  (∀ f, Peer.PacketReceived o = Some f →
        runs (handle env remote d) w (f p) w1) ∧
  (∀ g, Peer.PacketReceived o = None → Homebrew.pf (h w) = Some g →
        runs (handle env remote d) w (g p) w1) ∧
  (Peer.PacketReceived o = None → Homebrew.pf (h w) = None →
   Packet.CallType p ≠ CallTypeGroup →
   runs (handle env remote d) w None w1).
Proof.
  intros Hreg Ho Hst Hverb Hparse w1.
  pose proof (parseData_Ok_length _ _ Hparse) as H55.
  assert (Hlen : (8 ≤ len d)%nat) by (unfold len; lia).
  set (w0 := upd ptr (Peer.upd_Last (Last.set_PacketReceived (now env))) w).
  assert (Ho0 : heap w0 !! ptr
                = Some (Peer.upd_Last (Last.set_PacketReceived (now env)) o))
    by (by apply heap_upd_eq).
  destruct (runs_handlePacket_cases env p ptr _ w0 Ho0) as (Hf & Hg & Hn).
  cbv zeta in Hf, Hg, Hn.
  assert (Hstart : ∀ e w',
    runs (handlePacket env p ptr) w0 e w' → runs (handle env remote d) w e w').
  { intros e w' Hrun.
    apply (runs_handle_DMRD env w remote ptr o d _ _ Hreg Ho Hst Hlen Hverb).
    unfold handle_dmrd. rewrite Hparse. exact Hrun. }
  split; [| split].
  - intros f Hcb. apply Hstart, Hf. exact Hcb.
  - intros g Hcb Hpf. apply Hstart, Hg; [exact Hcb | exact Hpf].
  - intros Hcb Hpf Hct. apply Hstart, Hn; [exact Hcb | exact Hpf | exact Hct].
Qed.

(** X18. A group call is forwarded to its talk group. For a peer in Done,
    of either role, with no callback set, the packet parsed from a DMR
    data datagram that is a group call subscribes the sender to the
    called talk group, with the time of the subscription, and is sent
    on, encoded again under the endpoint's own repeater id, to the
    other registered peers subscribed to that talk group: those whose
    id is not the sender's. *)
Theorem group_call_is_forwarded (env : Env) (w : World)
    (remote : UDPAddr) (ptr : nat) (o : Peer.t) (d : datagram) (p : Packet.t) :
  Homebrew.Peer (h w) !! remote = Some ptr →
  heap w !! ptr = Some o →
  Peer.Status o = AuthDone →
  take 4 (elts d) = DMRData → parseData (elts d) = Ok p →
  Peer.PacketReceived o = None → Homebrew.pf (h w) = None →
  Packet.CallType p = CallTypeGroup →
  registry_allocated w →
  let frame := buildData p (ID (Homebrew.Config (h w))) in
  let peers := (map_to_list (Homebrew.Peer (h w))).*2 in
  let targets := tg_targets w (Peer.ID o) (Packet.DstID p) peers in
  (∀ q, q ∈ targets →
     WriteTo_fails env frame (heap w !! q ≫= Peer.Addr) = false) →
  (ptr ∉ targets) ∧
  ∃ w', runs (handle env remote d) w None w' ∧
        wire w' = wire w ++ (datagram_to w frame <$> targets) ∧
        Homebrew.last (h w') = now env ∧
        Homebrew.Peer (h w') = Homebrew.Peer (h w) ∧
        Homebrew.PeerID (h w') = Homebrew.PeerID (h w) ∧
        ∃ o', heap w' !! ptr = Some o' ∧
              Peer.TGID o' = Packet.DstID p ∧
              Last.TGSubscribed (Peer.Last o') = now env ∧
              Last.PacketReceived (Peer.Last o') = now env ∧
              Peer.Status o' = AuthDone.
Proof.
  intros Hreg Ho Hst Hverb Hparse Hcb Hpf Hct Halloc frame peers targets Hok.
  pose proof (parseData_Ok_length _ _ Hparse) as H55.
  assert (Hlen : (8 ≤ len d)%nat) by (unfold len; lia).
  assert (Hself : ptr ∉ targets).
  { intros Hin. apply elem_of_tg_targets in Hin as (_ & o' & Ho' & Hid & _).
    rewrite Ho in Ho'. injection Ho' as <-. by apply Hid. }
  split; [exact Hself |].
  set (F := fun o : Peer.t =>
              Peer.upd_Last (Last.set_TGSubscribed (now env))
                (Peer.set_TGID (Packet.DstID p)
                   (Peer.upd_Last (Last.set_PacketReceived (now env)) o))).
  set (w2 := upd ptr (Peer.upd_Last (Last.set_TGSubscribed (now env)))
               (upd ptr (Peer.set_TGID (Packet.DstID p))
                  (upd_h (set_last (now env))
                     (upd ptr (Peer.upd_Last
                                 (Last.set_PacketReceived (now env))) w)))).
  assert (Hlook : ∀ q, heap w2 !! q
                       = (if bool_decide (q = ptr) then F else id)
                           <$> heap w !! q).
  { intros q. subst w2. cbn [heap upd upd_h].
    case_bool_decide as Hq.
    - subst q. rewrite !list_lookup_alter_eq.
      destruct (heap w !! ptr); reflexivity.
    - rewrite !list_lookup_alter_ne by congruence.
      by rewrite option_fmap_id. }
  assert (Ho2 : heap w2 !! ptr = Some (F o)).
  { rewrite Hlook, Ho. by rewrite bool_decide_eq_true_2. }
  assert (Halloc2 : registry_allocated w2).
  { intros a q Hq. rewrite Hlook.
    destruct (Halloc a q Hq) as [oq ->]. by eexists. }
  assert (Haddr : ∀ q, heap w2 !! q ≫= Peer.Addr = heap w !! q ≫= Peer.Addr).
  { intros q. rewrite Hlook. destruct (heap w !! q) as [oq|]; [| reflexivity].
    by case_bool_decide. }
  assert (Htargets :
    tg_targets w2 (Peer.ID (F o)) (Packet.DstID p)
      ((map_to_list (Homebrew.Peer (h w2))).*2) = targets).
  { unfold targets, tg_targets. apply List.filter_ext. intros q.
    unfold is_target. rewrite Hlook.
    destruct (heap w !! q) as [oq|] eqn:Hq; [| reflexivity].
    cbn [fmap option_fmap option_map]. case_bool_decide as Hqp; [| reflexivity].
    subst q. rewrite Ho in Hq. injection Hq as <-.
    cbn [F Peer.ID Peer.upd_Last Peer.set_TGID]. by rewrite Z.eqb_refl. }
  destruct (runs_SendTG env p ptr (F o) w2 Halloc2 Ho2)
    as (w' & Hrun & Hh & Hwire & Hheap).
  { cbv zeta. rewrite Htargets. intros q Hq. rewrite Haddr. by apply Hok. }
  cbv zeta in Hwire, Hheap. rewrite Htargets in Hwire, Hheap.
  exists w'. split; [| split; [| split; [| split; [| split]]]].
  - apply (runs_handle_DMRD env w remote ptr o d _ _ Hreg Ho Hst Hlen Hverb).
    unfold handle_dmrd. rewrite Hparse. unfold handlePacket.
    eapply runs_bind; [apply runs_modify_h |].
    eapply runs_bind; [apply runs_deref; heap_lookup Ho |].
    cbn [Peer.PacketReceived Peer.upd_Last]. rewrite Hcb.
    eapply runs_bind; [apply runs_get |].
    cbn [h upd_h upd set_last Homebrew.pf]. rewrite Hpf, Hct, Z.eqb_refl.
    eapply runs_bind; [eapply runs_modify; heap_lookup Ho |].
    eapply runs_bind; [eapply runs_modify; heap_lookup Ho |].
    exact Hrun.
  - rewrite Hwire. f_equal. apply list_fmap_ext. intros i q _.
    unfold datagram_to. by rewrite Haddr.
  - by rewrite Hh.
  - by rewrite Hh.
  - by rewrite Hh.
  - exists (F o). split.
    + rewrite Hheap, Ho2. by rewrite bool_decide_eq_false_2.
    + cbn [F Peer.TGID Peer.upd_Last Peer.set_TGID Peer.Last Peer.Status
           Last.TGSubscribed Last.set_TGSubscribed Last.PacketReceived
           Last.set_PacketReceived].
      by repeat split.
Qed.

End DataFrames.

(** *** The sample endpoint with both links up *)

Lemma sample_done_allocated : registry_allocated sample_done.
Proof.
  intros a q Hq.
  change (Homebrew.Peer (h sample_done))
    with ({[ "203.0.113.5:62030"%string := 0%nat;
             "198.51.100.7:50000"%string := 1%nat ]} : gmap string nat) in Hq.
  apply lookup_insert_Some in Hq as [[_ <-] | [_ Hq]]; [by eexists |].
  apply lookup_singleton_Some in Hq as [_ <-]. by eexists.
Qed.

Lemma Send_reaches_every_peer_witness :
  ∃ w', runs (@Send sample_dmr sample_env sample_packet) sample_done None w' ∧
        length (wire w') = 2%nat.
Proof.
  destruct (@Send_reaches_every_peer sample_dmr sample_env sample_packet
              sample_done sample_done_allocated) as [Hok _].
  destruct Hok as (w' & Hrun & _ & Hwire & _); [intros; reflexivity |].
  exists w'. split; [exact Hrun |].
  rewrite Hwire. vm_compute. reflexivity.
Defined.

Lemma SendTG_reaches_the_talk_group_witness :
  ∃ w', runs (@SendTG sample_dmr sample_env sample_packet 1) sample_done
          None w' ∧
        wire w' = [(@buildData sample_dmr sample_packet 204099,
                    Some "203.0.113.5:62030"%string)].
Proof.
  destruct (@SendTG_reaches_the_talk_group sample_dmr sample_env sample_packet
              1 (Peer.set_Status AuthDone sample_repeater) sample_done
              sample_done_allocated eq_refl)
    as (_ & w' & Hrun & _ & Hwire & _); [intros; reflexivity |].
  exists w'. split; [exact Hrun |].
  rewrite Hwire. vm_compute. reflexivity.
Defined.

Lemma DMRD_before_authentication_is_dropped_witness :
  ∃ w', runs (@handle sample_dmr plain_lib sample_peer sample_env
                "198.51.100.7:50000"
                (received (@buildData sample_dmr sample_packet 204123)))
             sample_world None w' ∧
        wire w' = [].
Proof.
  eexists. split.
  - apply (@DMRD_before_authentication_is_dropped sample_dmr plain_lib
             sample_peer sample_env sample_world "198.51.100.7:50000" 1
             sample_repeater
             (received (@buildData sample_dmr sample_packet 204123)));
      [ reflexivity | reflexivity | discriminate
      | vm_compute; lia | reflexivity ].
  - reflexivity.
Defined.

Lemma DMRD_goes_to_the_callback_witness :
  ∃ w', runs (@handle sample_dmr plain_lib sample_peer sample_env
                "198.51.100.7:50000"
                (received (@buildData sample_dmr sample_packet 204123)))
             sample_callback (Some ErrCallback) w'.
Proof.
  eexists.
  eapply (proj1 (@DMRD_goes_to_the_callback sample_dmr plain_lib sample_peer
                   sample_env sample_callback "198.51.100.7:50000" 1
                   (with_callback (fun _ => Some ErrCallback)
                      (Peer.set_Status AuthDone sample_repeater))
                   (received (@buildData sample_dmr sample_packet 204123))
                   (with_RepeaterID 204123 sample_packet)
                   eq_refl eq_refl eq_refl eq_refl eq_refl)
                (fun _ => Some ErrCallback)).
  reflexivity.
Defined.

Lemma group_call_is_forwarded_witness :
  ∃ w', runs (@handle sample_dmr plain_lib sample_peer sample_env
                "198.51.100.7:50000"
                (received (@buildData sample_dmr sample_packet 204123)))
             sample_done None w' ∧
        wire w' = [(@buildData sample_dmr
                      (with_RepeaterID 204123 sample_packet) 204099,
                    Some "203.0.113.5:62030"%string)].
Proof.
  destruct (@group_call_is_forwarded sample_dmr plain_lib sample_peer
              sample_env sample_done "198.51.100.7:50000" 1
              (Peer.set_Status AuthDone sample_repeater)
              (received (@buildData sample_dmr sample_packet 204123))
              (with_RepeaterID 204123 sample_packet)
              eq_refl eq_refl eq_refl eq_refl eq_refl eq_refl eq_refl eq_refl
              sample_done_allocated)
    as (_ & w' & Hrun & Hwire & _); [intros; reflexivity |].
  exists w'. split; [exact Hrun |].
  rewrite Hwire. vm_compute. reflexivity.
Defined.

(** ** The keepalive *)

(** What [handleAuth] does for an outgoing peer, by its state. *)
Lemma runs_handleAuth_outgoing (env : Env) (ptr : nat) (o : Peer.t) (w : World) :
  heap w !! ptr = Some o → Peer.Incoming o = false →
  let w1 := upd ptr (Peer.upd_Last (Last.set_PacketReceived (now env))) w in
  match Peer.Status o with
  | AuthNone =>
      let b := RepeaterLogin ++ Homebrew.id (h w) in
      runs (handleAuth env ptr) w
        (if WriteTo_fails env b (Peer.Addr o) then Some ErrConn else None)
        (push_wire b (Peer.Addr o)
           (upd ptr (Peer.upd_Last (Last.set_PacketSent (now env)))
              (upd ptr (Peer.upd_Last (Last.set_AuthSent (now env))) w1)))
  | AuthBegin =>
      let b := (RepeaterKey ++ Homebrew.id (h w)) ++ Peer.Token o in
      runs (handleAuth env ptr) w
        (if WriteTo_fails env b (Peer.Addr o) then Some ErrConn else None)
        (push_wire b (Peer.Addr o)
           (upd ptr (Peer.upd_Last (Last.set_PacketSent (now env))) w1))
  | _ => runs (handleAuth env ptr) w None w1
  end.
Proof.
  intros Ho Hout w1. subst w1. unfold handleAuth.
  destruct (Peer.Status o) eqn:Hst; cbv zeta.
  all: eapply runs_bind; [eapply runs_deref; exact Ho |].
  all: rewrite Hout; cbn [negb].
  all: eapply runs_bind; [eapply runs_modify; exact Ho |].
  all: eapply runs_bind; [apply runs_get |].
  all: rewrite Hst.
  - eapply runs_bind; [eapply runs_modify; heap_lookup Ho |].
    pose proof (runs_WriteToPeer env (RepeaterLogin ++ Homebrew.id (h w)) ptr
                  (Peer.upd_Last (Last.set_AuthSent (now env))
                     (Peer.upd_Last (Last.set_PacketReceived (now env)) o))
                  (upd ptr (Peer.upd_Last (Last.set_AuthSent (now env)))
                     (upd ptr (Peer.upd_Last
                                 (Last.set_PacketReceived (now env))) w)))
      as Hw.
    cbn [Peer.Addr Peer.upd_Last] in Hw. apply Hw. heap_lookup Ho.
  - pose proof (runs_WriteToPeer env
                  ((RepeaterKey ++ Homebrew.id (h w)) ++ Peer.Token o) ptr
                  (Peer.upd_Last (Last.set_PacketReceived (now env)) o)
                  (upd ptr (Peer.upd_Last
                              (Last.set_PacketReceived (now env))) w))
      as Hw.
    cbn [Peer.Addr Peer.upd_Last] in Hw. apply Hw. heap_lookup Ho.
  - apply runs_ret.
  - apply runs_ret.
Qed.

Lemma runs_keepalive_incoming (env : Env) (now0 : Time) (ptr : nat)
    (o : Peer.t) (w : World) :
  heap w !! ptr = Some o → Peer.Incoming o = true →
  runs (keepalive_peer env now0 ptr) w () w.
Proof.
  intros Ho Hin. unfold keepalive_peer.
  eapply runs_bind; [by apply runs_deref |].
  eapply runs_bind; [apply runs_get |].
  rewrite Hin. apply runs_ret.
Qed.

(** An outgoing peer in None or in Begin that has sent nothing for
    longer than the timeout is set to Failed. *)
Lemma runs_keepalive_gives_up (env : Env) (now0 : Time) (ptr : nat)
    (o : Peer.t) (w : World) :
  heap w !! ptr = Some o → Peer.Incoming o = false →
  Peer.Status o = AuthNone ∨ Peer.Status o = AuthBegin →
  AuthTimeout < Sub now0 (Last.PacketReceived (Peer.Last o)) →
  runs (keepalive_peer env now0 ptr) w ()
       (upd ptr (Peer.set_Status AuthFailed) w).
Proof.
  intros Ho Hout Hst Hlate. unfold keepalive_peer.
  eapply runs_bind; [by apply runs_deref |].
  eapply runs_bind; [apply runs_get |].
  rewrite Hout.
  apply Z.ltb_lt in Hlate.
  destruct Hst as [-> | ->]; rewrite Hlate; by eapply runs_modify.
Qed.

(** An outgoing peer in Failed whose last login is older than the
    timeout is set to None and logs in again. *)
Lemma runs_keepalive_retries (env : Env) (now0 : Time) (ptr : nat)
    (o : Peer.t) (w : World) :
  heap w !! ptr = Some o → Peer.Incoming o = false →
  Peer.Status o = AuthFailed →
  AuthTimeout < Sub now0 (Last.AuthSent (Peer.Last o)) →
  runs (keepalive_peer env now0 ptr) w ()
       (push_wire (RepeaterLogin ++ Homebrew.id (h w)) (Peer.Addr o)
          (upd ptr (Peer.upd_Last (Last.set_PacketSent (now env)))
             (upd ptr (Peer.upd_Last (Last.set_AuthSent (now env)))
                (upd ptr (Peer.upd_Last (Last.set_PacketReceived (now env)))
                   (upd ptr (Peer.set_Status AuthNone) w))))).
Proof.
  intros Ho Hout Hst Hlate. unfold keepalive_peer.
  eapply runs_bind; [by apply runs_deref |].
  eapply runs_bind; [apply runs_get |].
  rewrite Hout, Hst. apply Z.ltb_lt in Hlate. rewrite Hlate.
  eapply runs_bind; [by eapply runs_modify |].
  pose proof (runs_handleAuth_outgoing env ptr (Peer.set_Status AuthNone o)
                (upd ptr (Peer.set_Status AuthNone) w)
                ltac:(heap_lookup Ho) Hout) as Hauth.
  cbn [Peer.Status Peer.set_Status] in Hauth. cbv zeta in Hauth.
  eapply runs_bind; [exact Hauth |]. apply runs_ret.
Qed.

(** An outgoing peer in Done whose last pong is older than the timeout
    is set to None, told that the link closes, and logs in again. *)
Lemma runs_keepalive_reconnects (env : Env) (now0 : Time) (ptr : nat)
    (o : Peer.t) (w : World) :
  heap w !! ptr = Some o → Peer.Incoming o = false →
  Peer.Status o = AuthDone →
  PingTimeout < Sub now0 (Last.PongReceived (Peer.Last o)) →
  runs (keepalive_peer env now0 ptr) w ()
       (push_wire (RepeaterLogin ++ Homebrew.id (h w)) (Peer.Addr o)
          (upd ptr (Peer.upd_Last (Last.set_PacketSent (now env)))
             (upd ptr (Peer.upd_Last (Last.set_AuthSent (now env)))
                (upd ptr (Peer.upd_Last (Last.set_PacketReceived (now env)))
                   (push_wire (RepeaterClosing ++ Homebrew.id (h w))
                      (Peer.Addr o)
                      (upd ptr (Peer.upd_Last
                                  (Last.set_PacketSent (now env)))
                         (upd ptr (Peer.set_Status AuthNone) w))))))).
Proof.
  intros Ho Hout Hst Hlate. unfold keepalive_peer.
  eapply runs_bind; [by apply runs_deref |].
  eapply runs_bind; [apply runs_get |].
  rewrite Hout, Hst. apply Z.ltb_lt in Hlate. rewrite Hlate.
  eapply runs_bind; [by eapply runs_modify |].
  eapply runs_bind.
  { pose proof (runs_WriteToPeer env (RepeaterClosing ++ Homebrew.id (h w)) ptr
                  (Peer.set_Status AuthNone o)
                  (upd ptr (Peer.set_Status AuthNone) w)
                  ltac:(heap_lookup Ho)) as Hw.
    exact Hw. }
  cbn [Peer.Addr Peer.set_Status].
  match goal with
  | |- runs _ ?w0 _ _ =>
      pose proof (runs_handleAuth_outgoing env ptr
                    (Peer.upd_Last (Last.set_PacketSent (now env))
                       (Peer.set_Status AuthNone o)) w0
                    ltac:(heap_lookup Ho) Hout) as Hauth
  end.
  cbn [Peer.Status Peer.set_Status Peer.upd_Last Peer.Addr] in Hauth.
  cbv zeta in Hauth.
  eapply runs_bind; [exact Hauth |]. apply runs_ret.
Qed.

(** An outgoing peer in Done whose pong is recent and whose last ping
    is older than the interval is pinged. *)
Lemma runs_keepalive_pings (env : Env) (now0 : Time) (ptr : nat)
    (o : Peer.t) (w : World) :
  heap w !! ptr = Some o → Peer.Incoming o = false →
  Peer.Status o = AuthDone →
  Sub now0 (Last.PongReceived (Peer.Last o)) ≤ PingTimeout →
  PingInterval < Sub now0 (Last.PingSent (Peer.Last o)) →
  runs (keepalive_peer env now0 ptr) w ()
       (push_wire (RepeaterPing ++ Homebrew.id (h w)) (Peer.Addr o)
          (upd ptr (Peer.upd_Last (Last.set_PacketSent (now env)))
             (upd ptr (Peer.upd_Last (Last.set_PingSent now0)) w))).
Proof.
  intros Ho Hout Hst Hpong Hping. unfold keepalive_peer.
  eapply runs_bind; [by apply runs_deref |].
  eapply runs_bind; [apply runs_get |].
  rewrite Hout, Hst.
  destruct (Z.ltb_spec PingTimeout (Sub now0 (Last.PongReceived (Peer.Last o))))
    as [? | _]; [lia |].
  apply Z.ltb_lt in Hping. rewrite Hping.
  eapply runs_bind; [by eapply runs_modify |].
  eapply runs_bind.
  { pose proof (runs_WriteToPeer env (RepeaterPing ++ Homebrew.id (h w)) ptr
                  (Peer.upd_Last (Last.set_PingSent now0) o)
                  (upd ptr (Peer.upd_Last (Last.set_PingSent now0)) w)
                  ltac:(heap_lookup Ho)) as Hw.
    exact Hw. }
  apply runs_ret.
Qed.

(** Nothing is due. *)
Lemma runs_keepalive_idle (env : Env) (now0 : Time) (ptr : nat)
    (o : Peer.t) (w : World) :
  heap w !! ptr = Some o → Peer.Incoming o = false →
  match Peer.Status o with
  | AuthFailed => Sub now0 (Last.AuthSent (Peer.Last o)) ≤ AuthTimeout
  | AuthNone | AuthBegin =>
      Sub now0 (Last.PacketReceived (Peer.Last o)) ≤ AuthTimeout
  | AuthDone =>
      Sub now0 (Last.PongReceived (Peer.Last o)) ≤ PingTimeout ∧
      Sub now0 (Last.PingSent (Peer.Last o)) ≤ PingInterval
  end →
  runs (keepalive_peer env now0 ptr) w () w.
Proof.
  intros Ho Hout Hidle. unfold keepalive_peer.
  eapply runs_bind; [by apply runs_deref |].
  eapply runs_bind; [apply runs_get |].
  rewrite Hout.
  destruct (Peer.Status o);
    repeat match goal with
    | |- context [?a <? ?b] => destruct (Z.ltb_spec a b)
    end; try lia; apply runs_ret.
Qed.

(** A tick visits a peer: it returns, it leaves the endpoint's fields
    and every other peer object alone, and it leaves an incoming peer
    as it is. *)
Lemma keepalive_peer_frame (env : Env) (now0 : Time) (ptr : nat)
    (o : Peer.t) (w : World) :
  heap w !! ptr = Some o →
  ∃ w', runs (keepalive_peer env now0 ptr) w () w' ∧
        h w' = h w ∧
        (∀ q, q ≠ ptr → heap w' !! q = heap w !! q) ∧
        (∃ o', heap w' !! ptr = Some o' ∧
               Peer.Incoming o' = Peer.Incoming o ∧
               (Peer.Incoming o = true → o' = o ∧ wire w' = wire w)).
Proof.
  intros Ho.
  destruct (Peer.Incoming o) eqn:Hin.
  { exists w. split; [by eapply runs_keepalive_incoming |].
    split; [reflexivity |]. split; [done |]. exists o. by repeat split. }
  assert (Hframe : ∀ w', h w' = h w →
            (∀ q, q ≠ ptr → heap w' !! q = heap w !! q) →
            (∃ o', heap w' !! ptr = Some o' ∧ Peer.Incoming o' = false) →
            runs (keepalive_peer env now0 ptr) w () w' →
            ∃ w', runs (keepalive_peer env now0 ptr) w () w' ∧
                  h w' = h w ∧
                  (∀ q, q ≠ ptr → heap w' !! q = heap w !! q) ∧
                  (∃ o', heap w' !! ptr = Some o' ∧
                         Peer.Incoming o' = false ∧
                         (false = true → o' = o ∧ wire w' = wire w))).
  { intros w' Hh Hq (o' & Ho' & Hi') Hrun. exists w'.
    split; [exact Hrun |]. split; [exact Hh |]. split; [exact Hq |].
    exists o'. split; [exact Ho' |]. split; [exact Hi' | discriminate]. }
  assert (Hcases :
    (Peer.Status o = AuthFailed ∧
       AuthTimeout < Sub now0 (Last.AuthSent (Peer.Last o))) ∨
    ((Peer.Status o = AuthNone ∨ Peer.Status o = AuthBegin) ∧
       AuthTimeout < Sub now0 (Last.PacketReceived (Peer.Last o))) ∨
    (Peer.Status o = AuthDone ∧
       PingTimeout < Sub now0 (Last.PongReceived (Peer.Last o))) ∨
    (Peer.Status o = AuthDone ∧
       Sub now0 (Last.PongReceived (Peer.Last o)) ≤ PingTimeout ∧
       PingInterval < Sub now0 (Last.PingSent (Peer.Last o))) ∨
    match Peer.Status o with
    | AuthFailed => Sub now0 (Last.AuthSent (Peer.Last o)) ≤ AuthTimeout
    | AuthNone | AuthBegin =>
        Sub now0 (Last.PacketReceived (Peer.Last o)) ≤ AuthTimeout
    | AuthDone =>
        Sub now0 (Last.PongReceived (Peer.Last o)) ≤ PingTimeout ∧
        Sub now0 (Last.PingSent (Peer.Last o)) ≤ PingInterval
    end).
  { destruct (Peer.Status o).
    - destruct (Z.lt_ge_cases AuthTimeout
                  (Sub now0 (Last.PacketReceived (Peer.Last o))));
        [right; left; split; [by left | done] | do 4 right; lia].
    - destruct (Z.lt_ge_cases AuthTimeout
                  (Sub now0 (Last.PacketReceived (Peer.Last o))));
        [right; left; split; [by right | done] | do 4 right; lia].
    - destruct (Z.lt_ge_cases PingTimeout
                  (Sub now0 (Last.PongReceived (Peer.Last o))));
        [do 2 right; left; by split |].
      destruct (Z.lt_ge_cases PingInterval
                  (Sub now0 (Last.PingSent (Peer.Last o))));
        [do 3 right; left; split; [done | lia] | do 4 right; lia].
    - destruct (Z.lt_ge_cases AuthTimeout
                  (Sub now0 (Last.AuthSent (Peer.Last o))));
        [left; by split | do 4 right; lia]. }
  destruct Hcases as [[Hst Hl] | [[Hst Hl] | [[Hst Hl] | [(Hst & Hp & Hl) | Hidle]]]].
  - eapply Hframe; cycle 3.
    + exact (runs_keepalive_retries env now0 ptr o w Ho Hin Hst Hl).
    + reflexivity.
    + intros q Hq. cbn [heap push_wire upd].
      by rewrite !list_lookup_alter_ne by congruence.
    + eexists. split; [heap_lookup Ho | exact Hin].
  - eapply Hframe; cycle 3.
    + exact (runs_keepalive_gives_up env now0 ptr o w Ho Hin Hst Hl).
    + reflexivity.
    + intros q Hq. cbn [heap push_wire upd].
      by rewrite !list_lookup_alter_ne by congruence.
    + eexists. split; [heap_lookup Ho | exact Hin].
  - eapply Hframe; cycle 3.
    + exact (runs_keepalive_reconnects env now0 ptr o w Ho Hin Hst Hl).
    + reflexivity.
    + intros q Hq. cbn [heap push_wire upd].
      by rewrite !list_lookup_alter_ne by congruence.
    + eexists. split; [heap_lookup Ho | exact Hin].
  - eapply Hframe; cycle 3.
    + exact (runs_keepalive_pings env now0 ptr o w Ho Hin Hst Hp Hl).
    + reflexivity.
    + intros q Hq. cbn [heap push_wire upd].
      by rewrite !list_lookup_alter_ne by congruence.
    + eexists. split; [heap_lookup Ho | exact Hin].
  - eapply Hframe; cycle 3.
    + exact (runs_keepalive_idle env now0 ptr o w Ho Hin Hidle).
    + reflexivity.
    + done.
    + by exists o.
Qed.

Lemma keepalive_loop_frame (env : Env) (now0 : Time) (peers : list nat)
    (w : World) :
  (∀ q, q ∈ peers → is_Some (heap w !! q)) →
  ∃ w', runs (keepalive_loop env now0 peers) w () w' ∧
        h w' = h w ∧
        (∀ q, is_Some (heap w !! q) → is_Some (heap w' !! q)) ∧
        ∀ ptr o, heap w !! ptr = Some o → Peer.Incoming o = true →
                 heap w' !! ptr = Some o.
Proof.
  revert w. induction peers as [|q0 rest IH]; intros w Hval.
  - exists w. split; [apply runs_ret |]. by repeat split.
  - destruct (Hval q0 (list_elem_of_here _ _)) as [o0 Ho0].
    destruct (keepalive_peer_frame env now0 q0 o0 w Ho0)
      as (w1 & Hrun1 & Hh1 & Hother & o1 & Ho1 & Hin1 & Hsame).
    assert (Hsome : ∀ q, is_Some (heap w !! q) → is_Some (heap w1 !! q)).
    { intros q Hq. destruct (decide (q = q0)) as [-> | Hne];
        [by eexists | by rewrite Hother]. }
    destruct (IH w1) as (w' & Hrun & Hh & Hsome' & Hinc).
    { intros q Hq. by apply Hsome, Hval, list_elem_of_further. }
    exists w'. split; [| split; [| split]].
    + cbn [keepalive_loop]. eapply runs_bind; [exact Hrun1 | exact Hrun].
    + by rewrite Hh.
    + intros q Hq. by apply Hsome', Hsome.
    + intros ptr o Ho Hin. apply Hinc; [| exact Hin].
      destruct (decide (ptr = q0)) as [-> | Hne]; [| by rewrite Hother].
      rewrite Ho0 in Ho. injection Ho as ->.
      destruct (Hsame Hin) as [-> _]. exact Ho1.
Qed.

Lemma keepalive_loop_incoming (env : Env) (now0 : Time) (peers : list nat)
    (w : World) :
  (∀ q, q ∈ peers → ∃ o, heap w !! q = Some o ∧ Peer.Incoming o = true) →
  runs (keepalive_loop env now0 peers) w () w.
Proof.
  induction peers as [|q0 rest IH]; intros Hval; [apply runs_ret |].
  destruct (Hval q0 (list_elem_of_here _ _)) as (o & Ho & Hin).
  cbn [keepalive_loop].
  eapply runs_bind; [by eapply runs_keepalive_incoming |].
  apply IH. intros q Hq. by apply Hval, list_elem_of_further.
Qed.

(** X19. The keepalive never times out an incoming peer. A tick returns
    and leaves the fields of the endpoint, the two indexes among them,
    and every incoming peer object exactly as they were, whatever the
    state and the timestamps of the peer: a repeater that logged in
    and fell silent stays registered and in Done. On an endpoint whose
    peers are all incoming a tick does nothing at all. *)
Theorem keepalive_leaves_incoming_peers (env : Env) (now0 : Time) (w : World) :
  (registry_allocated w →
   ∃ w', runs (keepalive_tick env now0) w () w' ∧
         h w' = h w ∧
         ∀ ptr o, heap w !! ptr = Some o → Peer.Incoming o = true →
                  heap w' !! ptr = Some o) ∧
  ((∀ a ptr, Homebrew.Peer (h w) !! a = Some ptr →
      ∃ o, heap w !! ptr = Some o ∧ Peer.Incoming o = true) →
   runs (keepalive_tick env now0) w () w).
Proof.
  split.
  - intros Halloc.
    destruct (keepalive_loop_frame env now0
                ((map_to_list (Homebrew.Peer (h w))).*2) w)
      as (w' & Hrun & Hh & _ & Hinc).
    { intros q Hq. by apply registered_allocated. }
    exists w'. split; [| by split].
    unfold keepalive_tick. eapply runs_bind; [apply runs_getPeers | exact Hrun].
  - intros Hall. unfold keepalive_tick.
    eapply runs_bind; [apply runs_getPeers |].
    apply keepalive_loop_incoming. intros q Hq.
    apply list_elem_of_fmap in Hq as ([a q'] & -> & Hq).
    apply elem_of_map_to_list in Hq. by apply (Hall a).
Qed.

(** A tick on an endpoint with one link. *)
Lemma runs_keepalive_single (env : Env) (now0 : Time) (w : World)
    (a : UDPAddr) (ptr : nat) (w' : World) :
  Homebrew.Peer (h w) = {[ a := ptr ]} →
  runs (keepalive_peer env now0 ptr) w () w' →
  runs (keepalive_tick env now0) w () w'.
Proof.
  intros Hreg Hrun. unfold keepalive_tick.
  eapply runs_bind; [apply runs_getPeers |].
  rewrite Hreg, map_to_list_singleton. cbn [fmap list_fmap snd keepalive_loop].
  eapply runs_bind; [exact Hrun | apply runs_ret].
Qed.

(** X20. The keepalive on an endpoint with one outgoing link in Done.
    When the last pong is older than the ping timeout, a tick sets the
    peer to None, tells it that the link closes and logs in again: the
    closing and the login go out in this order. Otherwise, when the
    last ping is older than the ping interval, a tick sends a ping and
    stamps its time. Otherwise it does nothing. *)
Theorem keepalive_on_a_link_in_Done (env : Env) (now0 : Time) (w : World)
    (a : UDPAddr) (ptr : nat) (o : Peer.t) :
  Homebrew.Peer (h w) = {[ a := ptr ]} →
  heap w !! ptr = Some o →
  Peer.Incoming o = false → Peer.Status o = AuthDone →
  let own := Homebrew.id (h w) in
  let pong := Sub now0 (Last.PongReceived (Peer.Last o)) in
  let ping := Sub now0 (Last.PingSent (Peer.Last o)) in
  (PingTimeout < pong →
   ∃ w', runs (keepalive_tick env now0) w () w' ∧
         wire w' = wire w ++ [(RepeaterClosing ++ own, Peer.Addr o);
                              (RepeaterLogin ++ own, Peer.Addr o)] ∧
         ∃ o', heap w' !! ptr = Some o' ∧ Peer.Status o' = AuthNone ∧
               Last.AuthSent (Peer.Last o') = now env ∧
               Last.PacketReceived (Peer.Last o') = now env) ∧
  (pong ≤ PingTimeout → PingInterval < ping →
   ∃ w', runs (keepalive_tick env now0) w () w' ∧
         wire w' = wire w ++ [(RepeaterPing ++ own, Peer.Addr o)] ∧
         ∃ o', heap w' !! ptr = Some o' ∧ Peer.Status o' = AuthDone ∧
               Last.PingSent (Peer.Last o') = now0) ∧
  (pong ≤ PingTimeout → ping ≤ PingInterval →
   runs (keepalive_tick env now0) w () w).
Proof.
  intros Hreg Ho Hout Hst own pong ping.
  split; [| split].
  - intros Hlate. eexists. split; [| split].
    + apply (runs_keepalive_single env now0 w a ptr _ Hreg).
      exact (runs_keepalive_reconnects env now0 ptr o w Ho Hout Hst Hlate).
    + cbn [wire push_wire upd]. by rewrite <- app_assoc.
    + eexists. split; [heap_lookup Ho |]. by repeat split.
  - intros Hpong Hping. eexists. split; [| split].
    + apply (runs_keepalive_single env now0 w a ptr _ Hreg).
      exact (runs_keepalive_pings env now0 ptr o w Ho Hout Hst Hpong Hping).
    + reflexivity.
    + eexists. split; [heap_lookup Ho |]. by split.
  - intros Hpong Hping.
    apply (runs_keepalive_single env now0 w a ptr _ Hreg).
    eapply runs_keepalive_idle; [exact Ho | exact Hout |].
    rewrite Hst. by split.
Qed.

(** X21. The keepalive retries a login that got no answer. On an endpoint
    with one outgoing link in None or in Begin, a tick that finds the
    last packet received older than the timeout sets the peer to
    Failed and sends nothing; a later tick that finds the last login
    older than the timeout sets it to None and sends the login again,
    stamping the times of the login and of the last packet received. *)
Theorem keepalive_retries_the_login (env1 env2 : Env) (now1 now2 : Time)
    (w : World) (a : UDPAddr) (ptr : nat) (o : Peer.t) :
  Homebrew.Peer (h w) = {[ a := ptr ]} →
  heap w !! ptr = Some o →
  Peer.Incoming o = false →
  Peer.Status o = AuthNone ∨ Peer.Status o = AuthBegin →
  AuthTimeout < Sub now1 (Last.PacketReceived (Peer.Last o)) →
  AuthTimeout < Sub now2 (Last.AuthSent (Peer.Last o)) →
  ∃ w1 w2,
    runs (keepalive_tick env1 now1) w () w1 ∧
    wire w1 = wire w ∧
    Peer.Status <$> heap w1 !! ptr = Some AuthFailed ∧
    runs (keepalive_tick env2 now2) w1 () w2 ∧
    wire w2 = wire w ++ [(RepeaterLogin ++ Homebrew.id (h w), Peer.Addr o)] ∧
    ∃ o2, heap w2 !! ptr = Some o2 ∧ Peer.Status o2 = AuthNone ∧
          Last.AuthSent (Peer.Last o2) = now env2 ∧
          Last.PacketReceived (Peer.Last o2) = now env2.
Proof.
  intros Hreg Ho Hout Hst Hlate1 Hlate2.
  set (w1 := upd ptr (Peer.set_Status AuthFailed) w).
  assert (Ho1 : heap w1 !! ptr = Some (Peer.set_Status AuthFailed o))
    by (by apply heap_upd_eq).
  exists w1. eexists. split; [| split; [| split; [| split; [| split]]]].
  - apply (runs_keepalive_single env1 now1 w a ptr _ Hreg).
    exact (runs_keepalive_gives_up env1 now1 ptr o w Ho Hout Hst Hlate1).
  - reflexivity.
  - by rewrite Ho1.
  - apply (runs_keepalive_single env2 now2 w1 a ptr _ Hreg).
    exact (runs_keepalive_retries env2 now2 ptr _ w1 Ho1 Hout eq_refl Hlate2).
  - reflexivity.
  - eexists. split; [heap_lookup Ho1 |]. by repeat split.
Qed.

(** ** Closing *)




Lemma keepalive_on_a_link_in_Done_witness :
  ∃ w', runs (keepalive_tick sample_env (Second * 20)) (sample_link AuthDone)
          () w' ∧
        wire w' = [(RepeaterClosing ++ packRepeaterID 204099,
                    Some "203.0.113.5:62030"%string);
                   (RepeaterLogin ++ packRepeaterID 204099,
                    Some "203.0.113.5:62030"%string)].
Proof.
  destruct (proj1 (keepalive_on_a_link_in_Done sample_env (Second * 20)
                     (sample_link AuthDone) "203.0.113.5:62030" 0
                     (Peer.set_Status AuthDone sample_master)
                     eq_refl eq_refl eq_refl eq_refl))
    as (w' & Hrun & Hwire & _); [reflexivity |].
  exists w'. split; [exact Hrun | exact Hwire].
Defined.

Lemma keepalive_retries_the_login_witness :
  ∃ w1 w2,
    runs (keepalive_tick sample_env (Second * 20)) (sample_link AuthNone)
      () w1 ∧
    runs (keepalive_tick sample_env (Second * 21)) w1 () w2 ∧
    wire w2 = [(RepeaterLogin ++ packRepeaterID 204099,
                Some "203.0.113.5:62030"%string)].
Proof.
  destruct (keepalive_retries_the_login sample_env sample_env
              (Second * 20) (Second * 21)
              (sample_link AuthNone) "203.0.113.5:62030" 0
              (Peer.set_Status AuthNone sample_master)
              eq_refl eq_refl eq_refl (or_introl eq_refl) eq_refl eq_refl)
    as (w1 & w2 & Hrun1 & _ & _ & Hrun2 & Hwire & _).
  exists w1, w2. split; [exact Hrun1 |]. split; [exact Hrun2 | exact Hwire].
Defined.

(** ** The listener *)

Section Listener.
Context `{!DmrModule, !GoLib, !PeerMethods}.

Lemma read_into_fits (buf payload : list Z) :
  (length payload ≤ length buf)%nat →
  elts (read_into buf payload) = payload.
Proof. intros Hfit. unfold read_into. cbn [elts]. by apply take_ge. Qed.

(** X23. One frame that does not parse ends the listener. When a peer
    in Done, of either role, sends a datagram that starts with the DMR
    data signature, has at least 8 bytes and fits the buffer, but is
    not 55 bytes long, or is 55 bytes long with both frame-type bits
    set, [handle] returns the error of [parseData] and [ListenAndServe]
    returns with it: it reads nothing of what follows. Only the time of
    the last packet received from the peer has changed. *)
Theorem listener_ends_on_a_bad_frame (env : Env) (w : World)
    (remote : UDPAddr) (ptr : nat) (o : Peer.t) (buf payload : list Z)
    (rest : list (Env * read)) :
  Homebrew.Peer (h w) !! remote = Some ptr →
  heap w !! ptr = Some o →
  Peer.Status o = AuthDone →
  take 4 payload = DMRData →
  (8 ≤ length payload ≤ length buf)%nat →
  let d := read_into buf payload in
  let w1 := upd ptr (Peer.upd_Last (Last.set_PacketReceived (now env))) w in
  let serve :=
    ListenAndServe_loop ((env, Datagram payload remote) :: rest) buf in
  (length payload ≠ 55%nat →
   let e := ErrExpectedLength 55 (length payload) in
   runs (handle env remote d) w (Some e) w1 ∧
   runs serve w (Returned (Some e)) w1) ∧
  (length payload = 55%nat →
   Z.land (Z.shiftr (at_ payload 15) 4) 3 = 3 →
   runs (handle env remote d) w (Some ErrFrameType) w1 ∧
   runs serve w (Returned (Some ErrFrameType)) w1).
Proof.
  intros Hreg Ho Hst Hverb [Hmin Hfit] d w1 serve.
  pose proof (read_into_fits buf payload Hfit) as Helts. fold d in Helts.
  assert (Hserve : ∀ e, runs (handle env remote d) w (Some e) w1 →
            runs serve w (Returned (Some e)) w1).
  { intros e Hrun. subst serve. cbn [ListenAndServe_loop]. cbv zeta.
    eapply runs_bind; [exact Hrun | apply runs_ret]. }
  assert (Hdmrd : ∀ e, parseData payload = Err e →
            runs (handle env remote d) w (Some e) w1).
  { intros e He.
    apply (runs_handle_DMRD env w remote ptr o d _ _ Hreg Ho Hst).
    - unfold len. by rewrite Helts.
    - by rewrite Helts.
    - unfold handle_dmrd. rewrite Helts, He. apply runs_ret. }
  split.
  - intros Hne e.
    assert (Hrun : runs (handle env remote d) w (Some e) w1).
    { apply Hdmrd. unfold parseData.
      by destruct (Nat.eqb_spec (length payload) 55) as [? | _]. }
    split; [exact Hrun | by apply Hserve].
  - intros H55 Hkind.
    assert (Hrun : runs (handle env remote d) w (Some ErrFrameType) w1).
    { apply Hdmrd. destruct (parseData_55 payload H55) as (_ & Herr & _).
      by apply Herr. }
    split; [exact Hrun | by apply Hserve].
Qed.

(** X24. The listener reads every datagram into one buffer, and [handle]
    looks at the first four bytes of the buffer whatever the length of
    the datagram. After a datagram that starts with the login verb, an
    empty datagram from an address with no linked peer is taken for a
    login by what the earlier one left in the buffer, and the listener
    panics on [data[4:]]. *)
Theorem empty_datagram_after_a_login_panics (env1 env2 : Env) (w w1 : World)
    (from1 from2 : UDPAddr) (buf payload : list Z)
    (rest : list (Env * read)) :
  (4 ≤ length buf)%nat →
  take 4 payload = RepeaterLogin →
  runs (handle env1 from1 (read_into buf payload)) w None w1 →
  Homebrew.Peer (h w1) !! from2 = None →
  ListenAndServe_loop
    ((env1, Datagram payload from1) :: (env2, Datagram [] from2) :: rest)
    buf w = None.
Proof.
  intros Hbuf Hverb Hrun Hreg.
  assert (Hlen : (4 ≤ length payload)%nat).
  { apply (f_equal length) in Hverb. rewrite length_take in Hverb.
    change (length RepeaterLogin) with 4%nat in Hverb. lia. }
  set (data := read_into buf payload) in *.
  assert (Helts : take 4 (elts data ++ spare data) = RepeaterLogin).
  { subst data. unfold read_into. cbn [elts spare].
    rewrite take_app_le by (rewrite length_take; lia).
    rewrite take_take, Nat.min_l by lia. exact Hverb. }
  assert (Hcap : (4 ≤ length (elts data ++ spare data))%nat).
  { apply (f_equal length) in Helts. rewrite length_take in Helts.
    change (length RepeaterLogin) with 4%nat in Helts. lia. }
  change (ListenAndServe_loop
            ((env1, Datagram payload from1) :: (env2, Datagram [] from2) :: rest)
            buf)
    with (err ← handle env1 from1 data;
          match err with
          | Some e => mret (Returned (Some e))
          | None =>
              ListenAndServe_loop ((env2, Datagram [] from2) :: rest)
                (elts data ++ spare data)
          end).
  rewrite (bind_runs_eq _ _ _ _ _ Hrun).
  cbn [ListenAndServe_loop]. cbv zeta.
  apply bind_panics.
  unfold handle.
  rewrite (bind_runs_eq _ _ _ _ _ (runs_getPeerByAddr from2 w1)).
  rewrite Hreg. unfold case_verb, slice_to, cap, read_into.
  rewrite take_nil. cbn [elts spare length app Nat.add]. rewrite !drop_0.
  destruct (Nat.leb_spec 4 (length (elts data ++ spare data))) as [_ | ?];
    [| lia].
  cbn [eval]. rewrite Helts. reflexivity.
Qed.

End Listener.

Lemma listener_ends_on_a_bad_frame_witness :
  runs (@ListenAndServe sample_dmr plain_lib sample_peer
          [(sample_env, Datagram (bytes_of "DMRD0123") "198.51.100.7:50000"%string);
           (sample_env, ReadError)])
       sample_done (Returned (Some (ErrExpectedLength 55 8)))
       (upd 1 (Peer.upd_Last (Last.set_PacketReceived (now sample_env)))
          sample_done).
Proof.
  apply (proj1 (@listener_ends_on_a_bad_frame sample_dmr plain_lib sample_peer
                  sample_env sample_done "198.51.100.7:50000" 1
                  (Peer.set_Status AuthDone sample_repeater)
                  (replicate 302 0) (bytes_of "DMRD0123")
                  [(sample_env, ReadError)]
                  eq_refl eq_refl eq_refl eq_refl
                  ltac:(vm_compute; lia))).
  vm_compute. discriminate.
Defined.

Lemma empty_datagram_after_a_login_panics_witness :
  @ListenAndServe sample_dmr plain_lib sample_peer
    [(sample_env, Datagram (RepeaterLogin ++ packRepeaterID 7)
                    "192.0.2.9:4000"%string);
     (sample_env, Datagram [] "192.0.2.10:4000"%string)]
    sample_world = None.
Proof.
  apply (@empty_datagram_after_a_login_panics sample_dmr plain_lib sample_peer
           sample_env sample_env sample_world
           (match @handle sample_dmr plain_lib sample_peer sample_env
                    "192.0.2.9:4000"
                    (read_into (replicate 302 0)
                       (RepeaterLogin ++ packRepeaterID 7)) sample_world with
            | Some (_, w') => w'
            | None => sample_world
            end)
           "192.0.2.9:4000" "192.0.2.10:4000" (replicate 302 0)
           (RepeaterLogin ++ packRepeaterID 7) []).
  - cbn. lia.
  - reflexivity.
  - vm_compute. reflexivity.
  - vm_compute. reflexivity.
Defined.


(** ** The frames of a link in Done *)

Section DoneFrames.
Context `{!DmrModule, !GoLib, !PeerMethods}.

Lemma runs_case_verb_hit {A : Type} (d : datagram) (n : nat) (verb : list Z)
    (body rest : M A) (w w' : World) (a : A) :
  (n ≤ len d)%nat → take n (elts d) = verb →
  runs body w a w' → runs (case_verb d n verb body rest) w a w'.
Proof.
  intros Hn Hv Hrun. apply runs_case_verb; [exact Hn |].
  unfold bytes_Equal. by rewrite bool_decide_eq_true_2.
Qed.

Lemma runs_case_verb_miss {A : Type} (d : datagram) (n : nat) (verb : list Z)
    (body rest : M A) (w w' : World) (a : A) :
  (n ≤ len d)%nat → take n (elts d) ≠ verb →
  runs rest w a w' → runs (case_verb d n verb body rest) w a w'.
Proof.
  intros Hn Hv Hrun. apply runs_case_verb; [exact Hn |].
  unfold bytes_Equal. by rewrite bool_decide_eq_false_2.
Qed.

Lemma runs_case_len_verb_hit {A : Type} (d : datagram) (l n : nat)
    (verb : list Z) (body rest : M A) (w w' : World) (a : A) :
  len d = l → (n ≤ l)%nat → take n (elts d) = verb →
  runs body w a w' → runs (case_len_verb d l n verb body rest) w a w'.
Proof.
  intros Hl Hn Hv Hrun. unfold case_len_verb.
  rewrite (proj2 (Nat.eqb_eq _ _) Hl).
  apply runs_case_verb_hit; [lia | exact Hv | exact Hrun].
Qed.

Lemma runs_case_len_verb_miss {A : Type} (d : datagram) (l n : nat)
    (verb : list Z) (body rest : M A) (w w' : World) (a : A) :
  (n ≤ l)%nat → len d ≠ l ∨ take n (elts d) ≠ verb →
  runs rest w a w' → runs (case_len_verb d l n verb body rest) w a w'.
Proof.
  intros Hn Hmiss Hrun. unfold case_len_verb.
  destruct (Nat.eqb_spec (len d) l) as [Hl | _]; [| exact Hrun].
  destruct Hmiss as [? | Hv]; [contradiction |].
  apply runs_case_verb_miss; [lia | exact Hv | exact Hrun].
Qed.

(** X25. A ping is answered with a pong. An incoming peer in Done that
    sends the 11 bytes [MSTPING‖x] is sent [RPTPONG‖x], and one that
    sends [RPTPING‖x] is sent [MSTPONG‖x]: the four bytes are echoed as
    they came, without a check against the peer's id. The time of the
    last ping received is stamped, and [handle] returns the error of
    the write, if any. *)
Theorem ping_is_answered_with_a_pong (env : Env) (w : World)
    (remote : UDPAddr) (ptr : nat) (o : Peer.t) (d : datagram)
    (ping pong x : list Z) :
  Homebrew.Peer (h w) !! remote = Some ptr →
  heap w !! ptr = Some o →
  Peer.Incoming o = true → Peer.Status o = AuthDone →
  (ping = MasterPing ∧ pong = RepeaterPong) ∨
  (ping = RepeaterPing ∧ pong = MasterPong) →
  elts d = ping ++ x → length x = 4%nat →
  ∃ w', runs (handle env remote d) w
          (if WriteTo_fails env (pong ++ x) (Peer.Addr o)
           then Some ErrConn else None) w' ∧
        h w' = h w ∧
        wire w' = wire w ++ [(pong ++ x, Peer.Addr o)] ∧
        ∃ o', heap w' !! ptr = Some o' ∧ Peer.Status o' = AuthDone ∧
              Last.PingReceived (Peer.Last o') = now env.
Proof.
  intros Hreg Ho Hin Hst Hverb Hd Hx.
  assert (Hp : length ping = 7%nat)
    by (destruct Hverb as [[-> _] | [-> _]]; reflexivity).
  assert (Hl : len d = 11%nat).
  { unfold len. rewrite Hd, length_app, Hp, Hx. reflexivity. }
  assert (H7 : take 7 (elts d) = ping).
  { rewrite Hd. rewrite take_app_le by lia. apply take_ge. lia. }
  assert (Hrest : drop 7 (elts d) = x).
  { rewrite Hd. rewrite drop_app_le by lia.
    rewrite drop_ge by lia. reflexivity. }
  assert (H4 : take 4 (elts d) ≠ DMRData ∧ take 6 (elts d) ≠ MasterACK).
  { rewrite Hd. destruct Hverb as [[-> _] | [-> _]]; split; discriminate. }
  destruct H4 as [Hnd Hna].
  assert (Hstart : ∀ e w',
    runs (case_len_verb d 11 7 MasterPing
            (modify ptr (Peer.upd_Last (Last.set_PingReceived (now env)));;
             rest ← eval (slice_from d 7);
             WriteToPeer env (RepeaterPong ++ rest) (Some ptr))
         (case_len_verb d 11 7 RepeaterPing
            (modify ptr (Peer.upd_Last (Last.set_PingReceived (now env)));;
             rest ← eval (slice_from d 7);
             WriteToPeer env (MasterPong ++ rest) (Some ptr))
         (case_verb d 4 RepeaterConfig
            (match parseConfigData (elts d) with
             | Ok c =>
                 modify ptr (Peer.set_Config (Some c));;
                 WriteToPeer env (RepeaterACK ++ Homebrew.id (h w)) (Some ptr)
             | _ => modify ptr (Peer.set_Config None);; panic
             end)
            (mret None))))
      (upd ptr (Peer.upd_Last (Last.set_PacketReceived (now env))) w) e w' →
    runs (handle env remote d) w e w').
  { intros e w' Hrun.
    apply (runs_handle_known env w remote ptr o d _ _ Hreg Ho); [lia |].
    rewrite Hst, Hin. rewrite bool_decide_eq_true_2 by reflexivity.
    cbn [negb]. unfold handle_done_incoming.
    eapply runs_bind; [apply runs_get |].
    apply runs_case_verb_miss; [lia | exact Hnd |].
    apply runs_case_len_verb_miss; [lia | left; lia |].
    exact Hrun. }
  assert (Hbody : ∀ reply,
    runs (modify ptr (Peer.upd_Last (Last.set_PingReceived (now env)));;
          rest ← eval (slice_from d 7);
          WriteToPeer env (reply ++ rest) (Some ptr))
      (upd ptr (Peer.upd_Last (Last.set_PacketReceived (now env))) w)
      (if WriteTo_fails env (reply ++ x) (Peer.Addr o)
       then Some ErrConn else None)
      (push_wire (reply ++ x) (Peer.Addr o)
         (upd ptr (Peer.upd_Last (Last.set_PacketSent (now env)))
            (upd ptr (Peer.upd_Last (Last.set_PingReceived (now env)))
               (upd ptr (Peer.upd_Last (Last.set_PacketReceived (now env)))
                  w))))).
  { intros reply.
    eapply runs_bind; [eapply runs_modify; heap_lookup Ho |].
    eapply runs_bind; [apply runs_eval, slice_from_elts; lia |].
    rewrite Hrest.
    apply (runs_WriteToPeer env _ ptr
             (Peer.upd_Last (Last.set_PingReceived (now env))
                (Peer.upd_Last (Last.set_PacketReceived (now env)) o))).
    heap_lookup Ho. }
  exists (push_wire (pong ++ x) (Peer.Addr o)
            (upd ptr (Peer.upd_Last (Last.set_PacketSent (now env)))
               (upd ptr (Peer.upd_Last (Last.set_PingReceived (now env)))
                  (upd ptr
                     (Peer.upd_Last (Last.set_PacketReceived (now env)))
                     w)))).
  split; [| split; [| split]].
  - apply Hstart. specialize (Hbody pong).
    destruct Hverb as [[-> ->] | [-> ->]].
    + apply runs_case_len_verb_hit; [exact Hl | lia | exact H7 |].
      exact Hbody.
    + apply runs_case_len_verb_miss; [lia | right; by rewrite H7 |].
      apply runs_case_len_verb_hit; [exact Hl | lia | exact H7 |].
      exact Hbody.
  - reflexivity.
  - reflexivity.
  - eexists. split; [heap_lookup Ho |]. by split.
Qed.

Lemma handle_known_eq (env : Env) (w : World) (remote : UDPAddr)
    (ptr : nat) (o : Peer.t) (d : datagram) :
  Homebrew.Peer (h w) !! remote = Some ptr →
  heap w !! ptr = Some o →
  (8 ≤ len d)%nat →
  handle env remote d w =
  (if negb (bool_decide (Peer.Status o = AuthDone)) then
     case_verb d 4 DMRData (mret None)
       (if Peer.Incoming o
        then handle_auth_incoming env d ptr
        else handle_auth_outgoing env d ptr)
   else if Peer.Incoming o
   then handle_done_incoming env d ptr
   else handle_done_outgoing env d ptr)
    (upd ptr (Peer.upd_Last (Last.set_PacketReceived (now env))) w).
Proof.
  intros Hreg Ho Hlen. unfold handle.
  rewrite (bind_runs_eq _ _ _ _ _ (runs_getPeerByAddr remote w)).
  rewrite Hreg. unfold handle_peer.
  destruct (Nat.ltb_spec (len d) 8) as [Hlt|_]; [lia |].
  rewrite (bind_runs_eq _ _ _ _ _ (runs_modify ptr _ o w Ho)).
  erewrite bind_runs_eq by (eapply runs_deref; heap_lookup Ho).
  reflexivity.
Qed.

Lemma case_verb_eq {A : Type} (d : datagram) (n : nat) (verb : list Z)
    (body rest : M A) (w : World) :
  (n ≤ len d)%nat →
  case_verb d n verb body rest w =
  (if bytes_Equal (take n (elts d)) verb then body else rest) w.
Proof.
  intros Hn. unfold case_verb.
  by rewrite (bind_runs_eq _ _ _ _ _
                (runs_eval _ _ w (slice_to_elts d n Hn))).
Qed.

Lemma case_verb_miss_eq {A : Type} (d : datagram) (n : nat) (verb : list Z)
    (body rest : M A) (w : World) :
  (n ≤ len d)%nat → take n (elts d) ≠ verb →
  case_verb d n verb body rest w = rest w.
Proof.
  intros Hn Hv. rewrite case_verb_eq by exact Hn.
  unfold bytes_Equal. by rewrite bool_decide_eq_false_2.
Qed.

Lemma case_len_verb_miss_eq {A : Type} (d : datagram) (l n : nat)
    (verb : list Z) (body rest : M A) (w : World) :
  (n ≤ l)%nat → len d ≠ l ∨ take n (elts d) ≠ verb →
  case_len_verb d l n verb body rest w = rest w.
Proof.
  intros Hn Hmiss. unfold case_len_verb.
  destruct (Nat.eqb_spec (len d) l) as [Hl | _]; [| reflexivity].
  destruct Hmiss as [? | Hv]; [contradiction |].
  apply case_verb_miss_eq; [lia | exact Hv].
Qed.

(** A slice that starts with four bytes starts with no verb that
    starts otherwise. *)
Lemma take_other_verb (n : nat) (l verb v4 : list Z) :
  take 4 l = v4 → take 4 verb ≠ v4 → (4 ≤ n)%nat → take n l ≠ verb.
Proof.
  intros H4 Hv Hn Heq. apply Hv. rewrite <- H4, <- Heq.
  rewrite take_take. by rewrite Nat.min_l by lia.
Qed.

(** X26. A configuration frame from a peer in Done. When an incoming
    peer in Done sends a datagram that starts with [RPTC], one of 302
    bytes is decoded, stored as the peer's configuration and
    acknowledged with [RPTACK‖id]; one of any other length leaves the
    peer without a configuration and the handler panics when it logs
    the fields of the configuration. *)
Theorem config_frame_is_stored_or_panics (env : Env) (w : World)
    (remote : UDPAddr) (ptr : nat) (o : Peer.t) (d : datagram) :
  Homebrew.Peer (h w) !! remote = Some ptr →
  heap w !! ptr = Some o →
  Peer.Incoming o = true → Peer.Status o = AuthDone →
  take 4 (elts d) = RepeaterConfig → (8 ≤ len d)%nat →
  let ack := RepeaterACK ++ Homebrew.id (h w) in
  (len d = 302%nat →
   ∃ c w', parseConfigData (elts d) = Ok c ∧
           runs (handle env remote d) w
             (if WriteTo_fails env ack (Peer.Addr o)
              then Some ErrConn else None) w' ∧
           wire w' = wire w ++ [(ack, Peer.Addr o)] ∧
           Peer.Config <$> heap w' !! ptr = Some (Some c)) ∧
  (len d ≠ 302%nat → handle env remote d w = None).
Proof.
  intros Hreg Ho Hin Hst Hverb Hlen ack.
  assert (Hstart :
    handle env remote d w =
    (match parseConfigData (elts d) with
     | Ok c =>
         modify ptr (Peer.set_Config (Some c));;
         WriteToPeer env ack (Some ptr)
     | _ => modify ptr (Peer.set_Config None);; panic
     end)
      (upd ptr (Peer.upd_Last (Last.set_PacketReceived (now env))) w)).
  { rewrite (handle_known_eq env w remote ptr o d Hreg Ho Hlen).
    rewrite Hst, Hin. rewrite bool_decide_eq_true_2 by reflexivity.
    cbn [negb]. unfold handle_done_incoming.
    erewrite bind_runs_eq by apply runs_get.
    rewrite case_verb_miss_eq by (rewrite ?Hverb; done || lia).
    rewrite case_len_verb_miss_eq
      by (first [lia | right; apply (take_other_verb 6 _ _ _ Hverb);
                             [discriminate | lia]]).
    rewrite case_len_verb_miss_eq
      by (first [lia | right; apply (take_other_verb 7 _ _ _ Hverb);
                             [discriminate | lia]]).
    rewrite case_len_verb_miss_eq
      by (first [lia | right; apply (take_other_verb 7 _ _ _ Hverb);
                             [discriminate | lia]]).
    rewrite case_verb_eq by lia. rewrite Hverb.
    unfold bytes_Equal. rewrite bool_decide_eq_true_2 by reflexivity.
    reflexivity. }
  split.
  - intros H302.
    assert (Hc : ∃ c, parseConfigData (elts d) = Ok c).
    { unfold parseConfigData. unfold len in H302. rewrite H302.
      cbn [Nat.eqb negb]. by eexists. }
    destruct Hc as [c Hc]. exists c. eexists.
    split; [exact Hc |]. split; [| split].
    + unfold runs. rewrite Hstart, Hc.
      eapply runs_bind; [eapply runs_modify; heap_lookup Ho |].
      apply (runs_WriteToPeer env _ ptr
               (Peer.set_Config (Some c)
                  (Peer.upd_Last (Last.set_PacketReceived (now env)) o))).
      heap_lookup Ho.
    + reflexivity.
    + cbn [heap push_wire upd]. rewrite !list_lookup_alter_eq, Ho.
      reflexivity.
  - intros Hne. rewrite Hstart.
    unfold parseConfigData. unfold len in Hne.
    destruct (Nat.eqb_spec (length (elts d)) 302) as [? | _];
      [contradiction |].
    cbn [negb].
    erewrite bind_runs_eq by (eapply runs_modify; heap_lookup Ho).
    reflexivity.
Qed.

Lemma case_len_verb_hit_eq {A : Type} (d : datagram) (l n : nat)
    (verb : list Z) (body rest : M A) (w : World) :
  len d = l → (n ≤ l)%nat → take n (elts d) = verb →
  case_len_verb d l n verb body rest w = body w.
Proof.
  intros Hl Hn Hv. unfold case_len_verb.
  rewrite (proj2 (Nat.eqb_eq _ _) Hl).
  rewrite case_verb_eq by lia. unfold bytes_Equal.
  by rewrite bool_decide_eq_true_2.
Qed.

Lemma checked_eq (d : datagram) (lo hi : nat) (k : M (option error))
    (w : World) :
  (lo ≤ hi)%nat → (hi ≤ len d)%nat →
  checked d lo hi k w =
  (if checkRepeaterID (h w) (take (hi - lo) (drop lo (elts d)))
   then k else mret None) w.
Proof.
  intros Hlo Hhi. unfold checked.
  erewrite bind_runs_eq by apply runs_get.
  erewrite bind_runs_eq by (apply runs_eval, slice_elts; lia).
  by destruct (checkRepeaterID _ _).
Qed.

(** What reaches the arms of [handle] for an outgoing link in Done, for
    a frame that is a verb of six or seven bytes and an id. *)
Lemma handle_done_outgoing_eq (env : Env) (w : World) (remote : UDPAddr)
    (ptr : nat) (o : Peer.t) (d : datagram) (verb rid : list Z) :
  Homebrew.Peer (h w) !! remote = Some ptr →
  heap w !! ptr = Some o →
  Peer.Incoming o = false → Peer.Status o = AuthDone →
  elts d = verb ++ rid → length rid = 4%nat →
  verb ∈ [MasterACK; MasterNAK; RepeaterACK; MasterPong; RepeaterPong] →
  let w1 := upd ptr (Peer.upd_Last (Last.set_PacketReceived (now env))) w in
  handle env remote d w =
  (if checkRepeaterID (h w) rid then
     if bool_decide (verb = MasterNAK) then
       modify ptr (Peer.set_Status AuthFailed);; handleAuth env ptr
     else if bool_decide (verb = MasterACK ∨ verb = RepeaterACK) then
       modify ptr (Peer.upd_Last (Last.set_PingSent (now env)));;
       WriteToPeer env (MasterPing ++ Homebrew.id (h w)) (Some ptr)
     else
       modify ptr (Peer.upd_Last (Last.set_PongReceived (now env)));;
       mret None
   else mret None) w1.
Proof.
  intros Hreg Ho Hout Hst Hd Hrid Hverb w1.
  assert (Hv : (6 ≤ length verb ≤ 7)%nat).
  { rewrite !elem_of_cons in Hverb.
    destruct Hverb as [-> | [-> | [-> | [-> | [-> | Hnil]]]]];
      [cbn; lia .. | by apply elem_of_nil in Hnil]. }
  assert (Hl : len d = (length verb + 4)%nat).
  { unfold len. by rewrite Hd, length_app, Hrid. }
  assert (Hrest : ∀ n, n = length verb →
            take 4 (drop n (elts d)) = rid).
  { intros n ->. rewrite Hd, drop_app_length. apply take_ge. lia. }
  rewrite (handle_known_eq env w remote ptr o d Hreg Ho) by lia.
  rewrite Hst, Hout. rewrite bool_decide_eq_true_2 by reflexivity.
  cbn [negb]. unfold handle_done_outgoing.
  erewrite bind_runs_eq by apply runs_get. cbv zeta.
  fold w1. change (h w1) with (h w).
  rewrite !elem_of_cons in Hverb.
  destruct Hverb as [-> | [-> | [-> | [-> | [-> | Hnil]]]]];
    [| | | | | by apply elem_of_nil in Hnil];
    (match type of Hl with
     | _ = ?n => let v := eval vm_compute in n in change n with v in Hl
     end);
    rewrite case_verb_miss_eq by (rewrite ?Hd; first [lia | discriminate]);
    repeat (rewrite case_len_verb_miss_eq
              by (first [lia | left; lia | right; rewrite Hd; discriminate]));
    (rewrite case_len_verb_hit_eq
       by (first [lia | rewrite Hd; reflexivity]));
    rewrite checked_eq by lia;
    change (h w1) with (h w);
    first [ change (10 - 6)%nat with 4%nat; rewrite (Hrest 6%nat eq_refl)
          | change (11 - 7)%nat with 4%nat; rewrite (Hrest 7%nat eq_refl) ];
    destruct (checkRepeaterID (h w) rid); reflexivity.
Qed.

(** X27. An outgoing link in Done acts on a frame only if the frame
    carries the endpoint's own id. The frames are [MSTACK], [MSTNAK],
    [RPTACK] (10 bytes with the id) and [MSTPONG], [RPTPONG] (11
    bytes with the id). With another id each of them is ignored. With
    the endpoint's id a pong stamps the time of the last pong and sends
    nothing; [MSTACK] and [RPTACK] send a ping [MSTPING‖id] and stamp
    its time; [MSTNAK] sets the link to Failed and sends nothing: the
    login is tried again by the keepalive only. *)
Theorem outgoing_link_in_Done_checks_the_id (env : Env) (w : World)
    (remote : UDPAddr) (ptr : nat) (o : Peer.t) (d : datagram)
    (verb rid : list Z) :
  Homebrew.Peer (h w) !! remote = Some ptr →
  heap w !! ptr = Some o →
  Peer.Incoming o = false → Peer.Status o = AuthDone →
  elts d = verb ++ rid → length rid = 4%nat →
  verb ∈ [MasterACK; MasterNAK; RepeaterACK; MasterPong; RepeaterPong] →
  let w1 := upd ptr (Peer.upd_Last (Last.set_PacketReceived (now env))) w in
  let own := Homebrew.id (h w) in
  (checkRepeaterID (h w) rid = false →
   runs (handle env remote d) w None w1) ∧
  (checkRepeaterID (h w) rid = true →
   verb = MasterPong ∨ verb = RepeaterPong →
   runs (handle env remote d) w None
     (upd ptr (Peer.upd_Last (Last.set_PongReceived (now env))) w1)) ∧
  (checkRepeaterID (h w) rid = true →
   verb = MasterACK ∨ verb = RepeaterACK →
   ∃ e w', runs (handle env remote d) w e w' ∧
           wire w' = wire w ++ [(MasterPing ++ own, Peer.Addr o)] ∧
           ∃ o', heap w' !! ptr = Some o' ∧ Peer.Status o' = AuthDone ∧
                 Last.PingSent (Peer.Last o') = now env) ∧
  (checkRepeaterID (h w) rid = true → verb = MasterNAK →
   ∃ w', runs (handle env remote d) w None w' ∧
         wire w' = wire w ∧
         ∃ o', heap w' !! ptr = Some o' ∧ Peer.Status o' = AuthFailed).
Proof.
  intros Hreg Ho Hout Hst Hd Hrid Hverb w1 own.
  pose proof (handle_done_outgoing_eq env w remote ptr o d verb rid
                Hreg Ho Hout Hst Hd Hrid Hverb) as Heq.
  cbv zeta in Heq. fold w1 in Heq.
  split; [| split; [| split]].
  - intros Hid. unfold runs. rewrite Heq, Hid. reflexivity.
  - intros Hid Hpong. unfold runs. rewrite Heq, Hid.
    rewrite bool_decide_eq_false_2
      by (destruct Hpong as [-> | ->]; discriminate).
    rewrite bool_decide_eq_false_2
      by (destruct Hpong as [-> | ->]; intros [? | ?]; discriminate).
    eapply runs_bind; [eapply runs_modify; subst w1; heap_lookup Ho |].
    apply runs_ret.
  - intros Hid Hack. do 2 eexists. split; [| split].
    + unfold runs. rewrite Heq, Hid.
      rewrite bool_decide_eq_false_2
        by (destruct Hack as [-> | ->]; discriminate).
      rewrite bool_decide_eq_true_2 by exact Hack.
      eapply runs_bind; [eapply runs_modify; subst w1; heap_lookup Ho |].
      apply (runs_WriteToPeer env _ ptr
               (Peer.upd_Last (Last.set_PingSent (now env))
                  (Peer.upd_Last (Last.set_PacketReceived (now env)) o))).
      subst w1. heap_lookup Ho.
    + reflexivity.
    + eexists. split; [subst w1; heap_lookup Ho |]. by split.
  - intros Hid ->. eexists. split; [| split].
    + unfold runs. rewrite Heq, Hid.
      rewrite bool_decide_eq_true_2 by reflexivity.
      eapply runs_bind; [eapply runs_modify; subst w1; heap_lookup Ho |].
      unfold handleAuth.
      eapply runs_bind; [eapply runs_deref; subst w1; heap_lookup Ho |].
      cbn [Peer.Incoming Peer.set_Status Peer.upd_Last Peer.Status].
      rewrite Hout. cbn [negb].
      eapply runs_bind; [eapply runs_modify; subst w1; heap_lookup Ho |].
      eapply runs_bind; [apply runs_get |].
      apply runs_ret.
    + reflexivity.
    + eexists. split; [subst w1; heap_lookup Ho |]. reflexivity.
Qed.

(** X28. A login that the master refuses. When an outgoing link in None
    or in Begin gets a datagram that starts with [MSTNAK], the link is
    set to Failed and nothing is sent; the id in the datagram is not
    checked. A link that asks for it ([UnlinkOnAuthFailure]) is then
    unlinked: the entry of its id and the entry of its address leave
    the two indexes. *)
Theorem refused_login_fails_the_link (env : Env) (w : World)
    (remote : UDPAddr) (ptr : nat) (o : Peer.t) (d : datagram)
    (rest : list Z) :
  Homebrew.Peer (h w) !! remote = Some ptr →
  heap w !! ptr = Some o →
  Peer.Incoming o = false →
  Peer.Status o = AuthNone ∨ Peer.Status o = AuthBegin →
  elts d = MasterNAK ++ rest → (4 ≤ length rest)%nat →
  let w1 := upd ptr (Peer.set_Status AuthFailed)
              (upd ptr (Peer.upd_Last (Last.set_PacketReceived (now env)))
                 w) in
  (Peer.UnlinkOnAuthFailure o = false →
   runs (handle env remote d) w None w1) ∧
  (Peer.UnlinkOnAuthFailure o = true →
   Homebrew.PeerID (h w) !! Peer.ID o = Some ptr →
   ∃ w', runs (handle env remote d) w None w' ∧
         heap w' = heap w1 ∧ wire w' = wire w ∧
         Homebrew.Peer (h w') =
           delete (Addr_String (Peer.Addr o)) (Homebrew.Peer (h w)) ∧
         Homebrew.PeerID (h w') =
           delete (Peer.ID o) (Homebrew.PeerID (h w))).
Proof.
  intros Hreg Ho Hout Hst Hd Hrest w1.
  assert (Hl : (10 ≤ len d)%nat).
  { unfold len. rewrite Hd, length_app.
    change (length MasterNAK) with 6%nat. lia. }
  assert (Hstart :
    handle env remote d w =
    refused ptr
      (upd ptr (Peer.upd_Last (Last.set_PacketReceived (now env))) w)).
  { rewrite (handle_known_eq env w remote ptr o d Hreg Ho) by lia.
    rewrite Hout.
    rewrite bool_decide_eq_false_2
      by (destruct Hst as [-> | ->]; discriminate).
    cbn [negb].
    rewrite case_verb_miss_eq by (rewrite ?Hd; first [lia | discriminate]).
    unfold handle_auth_outgoing.
    erewrite bind_runs_eq by (eapply runs_deref; heap_lookup Ho).
    erewrite bind_runs_eq by apply runs_get.
    erewrite bind_runs_eq by (apply runs_eval, slice_elts; lia).
    cbn [Peer.Status Peer.upd_Last].
    destruct Hst as [-> | ->].
    - rewrite case_verb_miss_eq by (rewrite ?Hd; first [lia | discriminate]).
      rewrite case_verb_eq by lia. by rewrite Hd.
    - rewrite case_verb_miss_eq by (rewrite ?Hd; first [lia | discriminate]).
      rewrite case_verb_eq by lia. by rewrite Hd. }
  unfold refused in Hstart.
  erewrite bind_runs_eq in Hstart by (eapply runs_deref; heap_lookup Ho).
  erewrite bind_runs_eq in Hstart by (eapply runs_modify; heap_lookup Ho).
  cbn [Peer.UnlinkOnAuthFailure Peer.upd_Last Peer.ID] in Hstart.
  fold w1 in Hstart.
  split.
  - intros Hun. unfold runs. rewrite Hstart, Hun. reflexivity.
  - intros Hun Hid. eexists. split; [| split; [| split; [| split]]].
    + unfold runs. rewrite Hstart, Hun.
      eapply runs_bind; [| apply runs_ret].
      eapply runs_bind; [| apply runs_ret].
      unfold Unlink.
      eapply runs_bind; [apply runs_get |].
      change (h w1) with (h w). rewrite Hid.
      eapply runs_bind; [eapply runs_deref; subst w1; heap_lookup Ho |].
      eapply runs_bind; [apply runs_modify_h |].
      eapply runs_bind; [apply runs_modify_h |].
      apply runs_ret.
    + reflexivity.
    + reflexivity.
    + reflexivity.
    + reflexivity.
Qed.

End DoneFrames.

(** ** A login from an unknown address *)

Section UnknownLogin.
Context `{!DmrModule, !GoLib, !PeerMethods}.

Lemma runs_incoming_none_login (env : Env) (w : World) (remote : UDPAddr)
    (ptr : nat) (o : Peer.t) (d : datagram) (n0 n1 n2 n3 : Z) (rest : list Z) :
  Homebrew.Peer (h w) !! remote = Some ptr →
  heap w !! ptr = Some o →
  Peer.Incoming o = true →
  Peer.Status o = AuthNone →
  elts d = RepeaterLogin ++ rest → (4 ≤ length rest)%nat →
  rand_Read env = Some (n0, n1, n2, n3) →
  runs (handle env remote d) w
    (if WriteTo_fails env (RepeaterACK ++ [n0; n1; n2; n3]) (Peer.Addr o)
     then Some ErrConn else None)
    (push_wire (RepeaterACK ++ [n0; n1; n2; n3]) (Peer.Addr o)
       (upd ptr (Peer.upd_Last (Last.set_PacketSent (now env)))
          (upd ptr (Peer.set_Status AuthBegin)
             (upd ptr (Peer.UpdateToken [n0; n1; n2; n3])
                (upd ptr (Peer.upd_Last (Last.set_PacketReceived (now env)))
                   w))))).
Proof.
  intros Hreg Ho Hin Hst Hd Hrest Hrnd.
  assert (Hl : (8 ≤ len d)%nat).
  { unfold len. rewrite Hd, length_app. simpl. lia. }
  apply (runs_handle_known env w remote ptr o d _ _ Hreg Ho Hl).
  rewrite Hst, Hin. rewrite bool_decide_eq_false_2 by discriminate.
  cbn [negb].
  apply runs_case_verb_miss; [lia | rewrite Hd; discriminate |].
  unfold handle_auth_incoming.
  eapply runs_bind; [eapply runs_deref; heap_lookup Ho |].
  eapply runs_bind; [apply runs_get |].
  cbn [Peer.upd_Last Peer.Status]. rewrite Hst.
  apply runs_case_verb_hit; [lia | by rewrite Hd |].
  eapply runs_bind; [apply runs_eval, slice_elts; lia |].
  rewrite Hrnd.
  eapply runs_bind; [eapply runs_modify; heap_lookup Ho |].
  eapply runs_bind; [eapply runs_modify; heap_lookup Ho |].
  apply (runs_WriteToPeer env _ ptr
           (Peer.set_Status AuthBegin
              (Peer.UpdateToken [n0; n1; n2; n3]
                 (Peer.upd_Last (Last.set_PacketReceived (now env)) o)))).
  heap_lookup Ho.
Qed.

(** X29. Whoever sends a login from an address with no linked peer
    becomes a peer. For a datagram [RPTL‖id] from such an address
    [handle] makes an incoming peer with the id read from the datagram,
    the key [passw0rd] and talk group 446, enters it in both indexes,
    under the address and under the id, whatever the id index held
    there, and goes on with the login as for a linked peer: the peer is
    sent [RPTACK‖nonce] and is in Begin with the token of that key. *)
Theorem login_from_an_unknown_address_is_linked (env : Env) (w : World)
    (remote : UDPAddr) (d : datagram) (rest : list Z) (rid : Z)
    (n0 n1 n2 n3 : Z) :
  Homebrew.Peer (h w) !! remote = None →
  elts d = RepeaterLogin ++ rest → (4 ≤ length rest)%nat →
  unpackRepeaterID rest = Ok rid →
  rand_Read env = Some (n0, n1, n2, n3) →
  let ptr := length (heap w) in
  let nonce := [n0; n1; n2; n3] in
  ∃ e w',
    runs (handle env remote d) w e w' ∧
    Homebrew.Peer (h w') = <[remote := ptr]> (Homebrew.Peer (h w)) ∧
    Homebrew.PeerID (h w') = <[rid := ptr]> (Homebrew.PeerID (h w)) ∧
    wire w' = wire w ++ [(RepeaterACK ++ nonce, Some remote)] ∧
    (∀ q, (q < ptr)%nat → heap w' !! q = heap w !! q) ∧
    ∃ o', heap w' !! ptr = Some o' ∧
          Peer.ID o' = rid ∧ Peer.Addr o' = Some remote ∧
          Peer.AuthKey o' = bytes_of "passw0rd" ∧ Peer.TGID o' = 446 ∧
          Peer.Incoming o' = true ∧ Peer.Status o' = AuthBegin ∧
          Peer.Token o' = token_of (bytes_of "passw0rd") nonce.
Proof.
  intros Hreg Hd Hrest Hrid Hrnd ptr nonce.
  assert (Hl : (8 ≤ len d)%nat).
  { unfold len. rewrite Hd, length_app. simpl. lia. }
  set (newPeer :=
    {| Peer.ID := rid; Peer.Addr := Some remote; Peer.Config := None;
       Peer.AuthKey := bytes_of "passw0rd"; Peer.Incoming := true;
       Peer.Status := AuthNone; Peer.TGID := 446; Peer.id := [];
       Peer.Token := [];
       Peer.Last :=
         {| Last.PacketSent := time_zero; Last.PacketReceived := time_zero;
            Last.PingSent := time_zero; Last.PingReceived := time_zero;
            Last.PongReceived := time_zero; Last.AuthSent := time_zero;
            Last.TGSubscribed := time_zero |};
       Peer.UnlinkOnAuthFailure := false; Peer.PacketReceived := None |}).
  assert (Hnew : heap (push_heap newPeer w) !! ptr = Some newPeer).
  { cbn [heap push_heap]. subst ptr.
    rewrite lookup_app_r by lia. by rewrite Nat.sub_diag. }
  destruct (Link_registers env (push_heap newPeer w) ptr newPeer remote
              Hnew eq_refl) as (w3 & Ho3 & Hothers & HPeer & HPeerID & Hwire
                                  & HLink); [discriminate |].
  cbn [Peer.Incoming newPeer Peer.ID] in HLink, HPeerID.
  assert (Hreg3 : Homebrew.Peer (h w3) !! remote = Some ptr)
    by (rewrite HPeer; apply lookup_insert_eq).
  pose proof (runs_incoming_none_login env w3 remote ptr _ d n0 n1 n2 n3 rest
                Hreg3 Ho3 eq_refl eq_refl Hd Hrest Hrnd) as Hrun.
  do 2 eexists. split.
  { unfold handle.
    eapply runs_bind; [apply runs_getPeerByAddr |].
    rewrite Hreg.
    apply runs_case_verb_hit; [lia | by rewrite Hd |].
    eapply runs_bind; [apply runs_eval, slice_from_elts; lia |].
    rewrite Hd. change (drop 4 (RepeaterLogin ++ rest)) with rest.
    eapply runs_bind; [apply runs_eval, Hrid |].
    eapply runs_bind; [reflexivity |].
    eapply runs_bind; [exact HLink |].
    eapply runs_bind; [apply runs_getPeerByAddr |].
    rewrite Hreg3.
    unfold runs in Hrun |- *. rewrite <- Hrun. unfold handle.
    rewrite (bind_runs_eq _ _ _ _ _ (runs_getPeerByAddr remote w3)).
    by rewrite Hreg3. }
  split; [exact HPeer |]. split; [exact HPeerID |].
  split; [cbn [wire push_wire upd]; by rewrite Hwire |].
  split.
  - intros q Hq. cbn [heap push_wire upd].
    rewrite !list_lookup_alter_ne by lia.
    rewrite Hothers by lia. cbn [heap push_heap].
    by rewrite lookup_app_l by exact Hq.
  - eexists. split; [heap_lookup Ho3 |]. by repeat split.
Qed.

End UnknownLogin.

(** ** Linking and unlinking *)

Section LinkUnlink.
Context `{!DmrModule, !GoLib, !PeerMethods}.

(** [handleAuth] returns for every allocated peer, and leaves the
    endpoint and the peer's address as they were. *)
Lemma handleAuth_runs (env : Env) (ptr : nat) (o : Peer.t) (w : World) :
  heap w !! ptr = Some o →
  ∃ e w', runs (handleAuth env ptr) w e w' ∧ h w' = h w ∧
          ∃ o', heap w' !! ptr = Some o' ∧ Peer.Addr o' = Peer.Addr o.
Proof.
  intros Ho. destruct (Peer.Incoming o) eqn:Hin.
  - exists None, w. split; [| split; [reflexivity | by exists o]].
    unfold handleAuth.
    eapply runs_bind; [eapply runs_deref; exact Ho |].
    rewrite Hin. apply runs_ret.
  - pose proof (runs_handleAuth_outgoing env ptr o w Ho Hin) as Hrun.
    cbv zeta in Hrun.
    destruct (Peer.Status o); do 2 eexists;
      (split; [exact Hrun |]); (split; [reflexivity |]);
      eexists; (split; [heap_lookup Ho | reflexivity]).
Qed.

(** X30. [Link] and [Unlink]. [Link] refuses a peer with no address or
    with an empty key and changes nothing. It enters any other peer in
    both indexes, where [getPeer] and [getPeerByAddr] then find it, and
    for an outgoing peer sends the login. When the address and the id
    were free, [Unlink] of the id then leaves both indexes as they were
    before the [Link], and a second [Unlink] returns the error that the
    id is not linked. *)
Theorem Link_then_Unlink (env : Env) (w : World) (ptr : nat) (o : Peer.t) :
  heap w !! ptr = Some o →
  (Peer.Addr o = None →
   runs (Link env (Some ptr)) w (Some ErrPeerAddrNil) w) ∧
  (Peer.Addr o ≠ None → Peer.AuthKey o = [] →
   runs (Link env (Some ptr)) w (Some ErrPeerAuthKeyNil) w) ∧
  (∀ addr, Peer.Addr o = Some addr → Peer.AuthKey o ≠ [] →
   Homebrew.Peer (h w) !! addr = None →
   Homebrew.PeerID (h w) !! Peer.ID o = None →
   ∃ e w1 w2,
     runs (Link env (Some ptr)) w e w1 ∧
     runs (getPeer (Peer.ID o)) w1 (Some ptr) w1 ∧
     runs (getPeerByAddr addr) w1 (Some ptr) w1 ∧
     (Peer.Incoming o = true → wire w1 = wire w) ∧
     runs (Unlink (Peer.ID o)) w1 None w2 ∧
     Homebrew.Peer (h w2) = Homebrew.Peer (h w) ∧
     Homebrew.PeerID (h w2) = Homebrew.PeerID (h w) ∧
     runs (Unlink (Peer.ID o)) w2 (Some (ErrNotLinked (Peer.ID o))) w2).
Proof.
  intros Ho. split; [| split].
  - intros Haddr. unfold Link.
    eapply runs_bind; [eapply runs_deref; exact Ho |].
    rewrite Haddr. apply runs_ret.
  - intros Haddr Hkey. unfold Link.
    eapply runs_bind; [eapply runs_deref; exact Ho |].
    destruct (Peer.Addr o); [| contradiction].
    rewrite Hkey. apply runs_ret.
  - intros addr Haddr Hkey Hfree Hfree_id.
    destruct (Link_registers env w ptr o addr Ho Haddr Hkey)
      as (w3 & Ho3 & _ & HPeer & HPeerID & Hwire & HLink).
    assert (Hlinked : ∃ e w1,
      runs (Link env (Some ptr)) w e w1 ∧ h w1 = h w3 ∧
      (Peer.Incoming o = true → wire w1 = wire w) ∧
      ∃ o1, heap w1 !! ptr = Some o1 ∧ Peer.Addr o1 = Some addr).
    { destruct (Peer.Incoming o) eqn:Hin.
      - exists None, w3. split; [exact HLink |]. split; [reflexivity |].
        split; [by intros _ |]. eexists. split; [exact Ho3 |].
        exact Haddr.
      - destruct (handleAuth_runs env ptr _ w3 Ho3)
          as (e & w1 & Hrun & Hh & o1 & Ho1 & Ha1).
        exists e, w1. split; [unfold runs; by rewrite HLink |].
        split; [exact Hh |]. split; [discriminate |].
        exists o1. split; [exact Ho1 |]. rewrite Ha1. exact Haddr. }
    destruct Hlinked as (e & w1 & Hrun & Hh & Hquiet & o1 & Ho1 & Ha1).
    assert (Hid1 : Homebrew.PeerID (h w1) !! Peer.ID o = Some ptr)
      by (rewrite Hh, HPeerID; apply lookup_insert_eq).
    assert (Hreg1 : Homebrew.Peer (h w1) !! addr = Some ptr)
      by (rewrite Hh, HPeer; apply lookup_insert_eq).
    exists e, w1. eexists.
    split; [exact Hrun |].
    split; [rewrite <- Hid1; apply runs_getPeer |].
    split; [rewrite <- Hreg1; apply runs_getPeerByAddr |].
    split; [exact Hquiet |].
    split; [| split; [| split]].
    + unfold Unlink.
      eapply runs_bind; [apply runs_get |].
      rewrite Hid1.
      eapply runs_bind; [eapply runs_deref; exact Ho1 |].
      eapply runs_bind; [apply runs_modify_h |].
      eapply runs_bind; [apply runs_modify_h |].
      apply runs_ret.
    + cbn [h upd_h Homebrew.Peer set_Peer set_PeerID].
      rewrite Ha1. cbn [Addr_String]. rewrite Hh, HPeer.
      by apply delete_insert_id.
    + cbn [h upd_h Homebrew.PeerID set_Peer set_PeerID].
      rewrite Hh, HPeerID. by apply delete_insert_id.
    + unfold Unlink.
      eapply runs_bind; [apply runs_get |].
      cbn [h upd_h Homebrew.PeerID set_Peer set_PeerID].
      rewrite lookup_delete_eq. apply runs_ret.
Qed.

End LinkUnlink.

Lemma ping_is_answered_with_a_pong_witness :
  ∃ w', runs (@handle sample_dmr plain_lib sample_peer sample_env
                "198.51.100.7:50000" (received (MasterPing ++ [1; 2; 3; 4])))
             sample_done None w' ∧
        wire w' = [(RepeaterPong ++ [1; 2; 3; 4],
                    Some "198.51.100.7:50000"%string)].
Proof.
  destruct (@ping_is_answered_with_a_pong sample_dmr plain_lib sample_peer
              sample_env sample_done "198.51.100.7:50000" 1
              (Peer.set_Status AuthDone sample_repeater)
              (received (MasterPing ++ [1; 2; 3; 4]))
              MasterPing RepeaterPong [1; 2; 3; 4]
              eq_refl eq_refl eq_refl eq_refl
              (or_introl (conj eq_refl eq_refl)) eq_refl eq_refl)
    as (w' & Hrun & _ & Hwire & _).
  exists w'. split; [exact Hrun | exact Hwire].
Defined.

Lemma config_frame_is_stored_or_panics_witness :
  @handle sample_dmr plain_lib sample_peer sample_env "198.51.100.7:50000"
    (received (RepeaterConfig ++ [0; 0; 0; 0])) sample_done = None.
Proof.
  apply (proj2 (@config_frame_is_stored_or_panics sample_dmr plain_lib
                  sample_peer sample_env sample_done "198.51.100.7:50000" 1
                  (Peer.set_Status AuthDone sample_repeater)
                  (received (RepeaterConfig ++ [0; 0; 0; 0]))
                  eq_refl eq_refl eq_refl eq_refl eq_refl
                  ltac:(cbn; lia))).
  cbn. lia.
Defined.

Lemma outgoing_link_in_Done_checks_the_id_witness :
  runs (@handle sample_dmr plain_lib sample_peer sample_env
          "203.0.113.5:62030" (received (MasterPong ++ packRepeaterID 204099)))
       (sample_link AuthDone) None
       (upd 0 (Peer.upd_Last (Last.set_PongReceived (now sample_env)))
          (upd 0 (Peer.upd_Last (Last.set_PacketReceived (now sample_env)))
             (sample_link AuthDone))).
Proof.
  apply (proj1 (proj2
    (@outgoing_link_in_Done_checks_the_id sample_dmr plain_lib sample_peer
       sample_env (sample_link AuthDone) "203.0.113.5:62030" 0
       (Peer.set_Status AuthDone sample_master)
       (received (MasterPong ++ packRepeaterID 204099))
       MasterPong (packRepeaterID 204099)
       eq_refl eq_refl eq_refl eq_refl eq_refl eq_refl
       ltac:(do 3 apply list_elem_of_further; apply list_elem_of_here)))).
  - reflexivity.
  - by left.
Defined.

Lemma refused_login_fails_the_link_witness :
  runs (@handle sample_dmr plain_lib sample_peer sample_env
          "203.0.113.5:62030" (received (MasterNAK ++ packRepeaterID 204099)))
       (sample_link AuthNone) None
       (upd 0 (Peer.set_Status AuthFailed)
          (upd 0 (Peer.upd_Last (Last.set_PacketReceived (now sample_env)))
             (sample_link AuthNone))).
Proof.
  apply (proj1
    (@refused_login_fails_the_link sample_dmr plain_lib sample_peer
       sample_env (sample_link AuthNone) "203.0.113.5:62030" 0
       (Peer.set_Status AuthNone sample_master)
       (received (MasterNAK ++ packRepeaterID 204099))
       (packRepeaterID 204099)
       eq_refl eq_refl eq_refl (or_introl eq_refl) eq_refl
       ltac:(cbn; lia))).
  reflexivity.
Defined.

Lemma login_from_an_unknown_address_is_linked_witness :
  ∃ e w', runs (@handle sample_dmr plain_lib sample_peer sample_env
                  "192.0.2.9:4000" (received (RepeaterLogin ++ packRepeaterID 7)))
               sample_world e w' ∧
          wire w' = [(RepeaterACK ++ [222; 173; 190; 239],
                      Some "192.0.2.9:4000"%string)].
Proof.
  destruct (@login_from_an_unknown_address_is_linked sample_dmr plain_lib
              sample_peer sample_env sample_world "192.0.2.9:4000"
              (received (RepeaterLogin ++ packRepeaterID 7))
              (packRepeaterID 7) 7 222 173 190 239
              eq_refl eq_refl ltac:(cbn; lia) eq_refl eq_refl)
    as (e & w' & Hrun & _ & _ & Hwire & _).
  exists e, w'. split; [exact Hrun | exact Hwire].
Defined.

Lemma Link_then_Unlink_witness :
  ∃ e w1 w2,
    runs (Link sample_env (Some 0%nat)) sample_unlinked e w1 ∧
    runs (Unlink 2042) w1 None w2 ∧
    Homebrew.Peer (h w2) = ∅ ∧ Homebrew.PeerID (h w2) = ∅.
Proof.
  destruct (proj2 (proj2 (Link_then_Unlink sample_env sample_unlinked 0
                            sample_master eq_refl))
              "203.0.113.5:62030"%string eq_refl ltac:(discriminate)
              eq_refl eq_refl)
    as (e & w1 & w2 & Hlink & _ & _ & _ & Hunlink & HPeer & HPeerID & _).
  exists e, w1, w2.
  split; [exact Hlink |]. split; [exact Hunlink |].
  split; [exact HPeer | exact HPeerID].
Defined.
